(** * daisy: block-wise dependency planner (blocks.py) and executor adapter
      (dask_scheduler.py), embedded shallowly.

    Python exceptions are values of [result]; coordinates are lists of
    integers; the in-place update of a block by [shrink] is made explicit by
    returning the updated block. *)

From stdpp Require Import base numbers list strings gmap.

Local Open Scope Z_scope.

(** ** Exceptions *)

Inductive exn : Type :=
  | AssertionError
  | ZeroDivisionError
  | ValueError
  | IndexError
  | DimensionError.

Inductive result (A : Type) : Type :=
  | Ok (a : A)
  | Raise (e : exn).
Arguments Ok {A} a.
Arguments Raise {A} e.

#[global] Instance result_ret : MRet result := λ A a, Ok a.
#[global] Instance result_bind : MBind result := λ A B k m,
  match m with
  | Ok a => k a
  | Raise e => Raise e
  end.
#[global] Instance result_fmap : FMap result := λ A B f m,
  match m with
  | Ok a => Ok (f a)
  | Raise e => Raise e
  end.

Definition raises {A} (m : result A) : Prop := ∃ e, m = Raise e.

(** ** Python builtins used by the planner *)

(** [len(range(lo, hi, step))] for a non-zero step. *)
Definition range_len (lo hi step : Z) : Z :=
  if 0 <? step
  then (if lo <? hi then (hi - lo - 1) / step + 1 else 0)
  else (if hi <? lo then (lo - hi - 1) / (- step) + 1 else 0).

(** The elements of [range(lo, hi, step)] for a non-zero step. *)
Definition range_list (lo hi step : Z) : list Z :=
  (λ k : nat, lo + Z.of_nat k * step)
  <$> seq 0 (Z.to_nat (range_len lo hi step)).

(** [range(lo, hi, step)]; a zero step is a [ValueError]. *)
Definition range (lo hi step : Z) : result (list Z) :=
  if step =? 0 then Raise ValueError else Ok (range_list lo hi step).

(** [itertools.product] of the lists [ls]: the first list varies slowest. *)
Fixpoint product {A} (ls : list (list A)) : list (list A) :=
  match ls with
  | [] => [[]]
  | l :: ls => l ≫= λ x, (x ::.) <$> product ls
  end.

(** [l[i]] *)
Definition getitem {A} (l : list A) (i : nat) : result A :=
  match l !! i with
  | Some x => Ok x
  | None => Raise IndexError
  end.

(** [zip(a, b, c)] *)
Definition zip3 {A B C} (a : list A) (b : list B) (c : list C)
  : list (A * B * C) := zip (zip a b) c.

(** ** Coordinate *)

Abbreviation Coord := (list Z).

Definition same_dims (a b : Coord) : bool :=
  Nat.eqb (length a) (length b).

(** Modelled from the spec: coordinate.py is missing.  Element-wise
    operations on coordinates of one dimension, with explicit failure when
    the dimensions differ. *)
Definition coord_zip (f : Z → Z → Z) (a b : Coord) : result Coord :=
  if same_dims a b then Ok (zip_with f a b) else Raise DimensionError.

Definition coord_add := coord_zip Z.add.
Definition coord_sub := coord_zip Z.sub.
Definition coord_max := coord_zip Z.max.
Definition coord_min := coord_zip Z.min.

(** Modelled from the spec: coordinate.py is missing.  Element-wise
    comparison, true when it holds in every component. *)
Definition coord_all (f : Z → Z → bool) (a b : Coord) : result bool :=
  if same_dims a b then Ok (forallb (λ p, f p.1 p.2) (zip a b))
  else Raise DimensionError.

Definition coord_le := coord_all Z.leb.
Definition coord_lt := coord_all Z.ltb.

(** ** Roi *)

Record Roi : Type := mkRoi { offset : Coord; shape : Coord }.

Definition get_begin (r : Roi) : Coord := offset r.
Definition get_shape (r : Roi) : Coord := shape r.

(** Modelled from the spec: roi.py is missing.  [end = offset + shape]. *)
Definition get_end (r : Roi) : result Coord :=
  coord_add (offset r) (shape r).

(** Modelled from the spec: roi.py is missing.  [contains(p: Coord)],
    half-open: [begin ≤ p < end]. *)
Definition contains_point (r : Roi) (p : Coord) : result bool :=
  e ← get_end r;
  lo ← coord_le (get_begin r) p;
  hi ← coord_lt p e;
  mret (lo && hi).

(** Modelled from the spec: roi.py is missing.  [contains(r: Roi)]:
    [begin ≤ r.begin ∧ r.end ≤ end]. *)
Definition contains_roi (r o : Roi) : result bool :=
  e ← get_end r;
  oe ← get_end o;
  lo ← coord_le (get_begin r) (get_begin o);
  hi ← coord_le oe e;
  mret (lo && hi).

(** Modelled from the spec: roi.py is missing.  [intersect(r)]:
    componentwise [max(begin)], [min(end)]; shape clamped at 0. *)
Definition intersect (r o : Roi) : result Roi :=
  e ← get_end r;
  oe ← get_end o;
  b ← coord_max (get_begin r) (get_begin o);
  e' ← coord_min e oe;
  d ← coord_sub e' b;
  mret (mkRoi b (Z.max 0 <$> d)).

(** Modelled from the spec: roi.py is missing.  [grow(amount_neg,
    amount_pos)]: [offset -= amount_neg], [shape += amount_neg +
    amount_pos]. *)
Definition grow (r : Roi) (amount_neg amount_pos : Coord) : result Roi :=
  o ← coord_sub (offset r) amount_neg;
  a ← coord_add amount_neg amount_pos;
  s ← coord_add (shape r) a;
  mret (mkRoi o s).

(** Modelled from the spec: roi.py is missing.  [roi + delta]: the offset
    is shifted. *)
Definition translate (r : Roi) (delta : Coord) : result Roi :=
  o ← coord_add (offset r) delta;
  mret (mkRoi o (shape r)).

(** Modelled from the spec: roi.py is missing.  A Roi is empty when one of
    its shape components is zero. *)
Definition empty (r : Roi) : bool := existsb (Z.eqb 0) (shape r).

(** ** Block *)

(** Modelled from the spec: block.py is missing.  The identifier is the
    canonical encoding of the total Roi and of the write Roi the block is
    constructed with (the hashing step is left out); [read_roi] and
    [write_roi] are the attributes [shrink] assigns to. *)
Record Block : Type := mkBlock {
  block_id : list Z;
  total_roi : Roi;
  read_roi : Roi;
  write_roi : Roi
}.

Definition new_Block (total read write : Roi) : Block :=
  mkBlock (get_begin total ++ get_shape total
             ++ get_begin write ++ get_shape write)
          total read write.

(** ** blocks.py *)

(** The values of [fit] that [enumerate_blocks] has an entry for; any
    other value is a [KeyError] there. *)
Inductive Fit : Type := Valid | Overhang | Shrink.

Definition compute_level_stride (block_read_roi block_write_roi : Roi)
  : result Coord :=
  c ← contains_roi block_read_roi block_write_roi;
  if negb c then Raise AssertionError else
  context_ul ← coord_sub (get_begin block_write_roi)
                         (get_begin block_read_roi);
  re ← get_end block_read_roi;
  we ← get_end block_write_roi;
  context_lr ← coord_sub re we;
  let max_context := zip_with Z.max context_ul context_lr in
  min_level_stride ← coord_add max_context (get_shape block_write_roi);
  let write_shape := get_shape block_write_roi in
  mapM (λ lw : Z * Z,
          let (l, w) := lw in
          if w =? 0 then Raise ZeroDivisionError
          else Ok (((l - 1) / w + 1) * w))
       (zip min_level_stride write_shape).

Definition compute_level_offsets (block_write_roi : Roi) (level_stride : Coord)
  : result (list Coord) :=
  let write_stride := get_shape block_write_roi in
  dim_offsets ← mapM (λ es : Z * Z, let (e, step) := es in range 0 e step)
                     (zip level_stride write_stride);
  mret (reverse (product dim_offsets)).

Definition get_conflict_offsets (level_offset prev_level_offset : Coord)
    (level_stride : Coord) : result (list Coord) :=
  offset_to_prev ← coord_sub prev_level_offset level_offset;
  let conflict_dim_offsets :=
    (λ ol : Z * Z,
       let (op, ls) := ol in
       if op <? 0 then [op; op + ls] else [op - ls; op])
    <$> zip offset_to_prev level_stride in
  mret (product conflict_dim_offsets).

(** In [shrink] the block is updated in place and returned: the result is
    the state of that one object after the call. *)
Definition shrink (total : Roi) (block : Block) : result Block :=
  r ← intersect total (read_roi block);
  re ← get_end r;
  bre ← get_end (read_roi block);
  neg ← coord_sub (get_begin (read_roi block)) (get_begin r);
  pos ← coord_sub re bre;
  w ← grow (write_roi block) neg pos;
  mret (mkBlock (block_id block) (total_roi block) r w).

(** [shrink_possible] returns its boolean together with the state of the
    block it was given, which the call to [shrink] has updated. *)
Definition shrink_possible (total : Roi) (block : Block)
  : result (bool * Block) :=
  c ← contains_point total (get_begin (write_roi block));
  if negb c then mret (false, block) else
  b ← shrink total block;
  mret (forallb (λ s, 0 <? s) (get_shape (write_roi b)), b).

Definition inclusion_criteria (fit : Fit) (total : Roi) (b : Block)
  : result (bool * Block) :=
  match fit with
  | Valid => c ← contains_roi total (read_roi b); mret (c, b)
  | Overhang => c ← contains_point total (get_begin (write_roi b)); mret (c, b)
  | Shrink => shrink_possible total b
  end.

Definition fit_block (fit : Fit) (total : Roi) (b : Block) : result Block :=
  match fit with
  | Valid => mret b
  | Overhang => mret b
  | Shrink => shrink total b
  end.

(** One iteration of the inner loop of [enumerate_blocks]: [None] stands
    for [continue]. *)
Definition enumerate_conflict (fit : Fit) (total : Roi) (block : Block)
    (conflict_offset : Coord) : result (option Block) :=
  cr ← translate (read_roi block) conflict_offset;
  cw ← translate (write_roi block) conflict_offset;
  let conflict := new_Block total cr cw in
  ic ← inclusion_criteria fit total conflict;
  let (inc, conflict) := ic : bool * Block in
  if negb inc then mret None else
  fc ← fit_block fit total conflict;
  mret (Some fc).

(** One iteration of the outer loop of [enumerate_blocks]. *)
Definition enumerate_block (fit : Fit) (total : Roi)
    (block_read_roi block_write_roi : Roi) (conflict_offsets : list Coord)
    (block_offset : Coord) : result (option (Block * list Block)) :=
  r ← translate block_read_roi block_offset;
  w ← translate block_write_roi block_offset;
  let block := new_Block total r w in
  ic ← inclusion_criteria fit total block;
  let (inc, block) := ic : bool * Block in
  if negb inc then mret None else
  conflicts ← mapM (enumerate_conflict fit total block) conflict_offsets;
  fb ← fit_block fit total block;
  mret (Some (fb, omap id conflicts)).

Definition enumerate_blocks (total : Roi) (block_read_roi block_write_roi : Roi)
    (conflict_offsets : list Coord) (block_offsets : list Coord) (fit : Fit)
  : result (list (Block * list Block)) :=
  blocks ← mapM (enumerate_block fit total block_read_roi block_write_roi
                   conflict_offsets) block_offsets;
  mret (omap id blocks).

(** The first loop of [create_dependency_graph]; [prev] is
    [prev_level_offset]. *)
Fixpoint level_conflict_offsets (read_write_conflict : bool)
    (level_stride : Coord) (prev : option Coord) (level_offsets : list Coord)
  : result (list (list Coord)) :=
  match level_offsets with
  | [] => mret []
  | level_offset :: rest =>
      conflict_offsets ←
        match prev with
        | Some prev_level_offset =>
            if read_write_conflict
            then get_conflict_offsets level_offset prev_level_offset
                   level_stride
            else mret []
        | None => mret []
        end;
      tl ← level_conflict_offsets read_write_conflict level_stride
             (Some level_offset) rest;
      mret (conflict_offsets :: tl)
  end.

(** One iteration of the second loop of [create_dependency_graph]: the
    blocks of level [level]. *)
Definition level_blocks (total block_read_roi block_write_roi : Roi)
    (fit : Fit) (level_stride : Coord) (level_offsets : list Coord)
    (lco : list (list Coord)) (level : nat)
  : result (list (Block * list Block)) :=
  let total_shape := get_shape total in
  level_offset ← getitem level_offsets level;
  block_dim_offsets ←
    mapM (λ les : Z * Z * Z, let '(lo, e, s) := les in range lo e s)
         (zip3 level_offset total_shape level_stride);
  let block_offsets := product block_dim_offsets in
  block_offsets ←
    mapM (λ o : Coord,
            d ← coord_sub (get_begin total) (get_begin block_read_roi);
            coord_add o d)
         block_offsets;
  conflict_offsets ← getitem lco level;
  enumerate_blocks total block_read_roi block_write_roi conflict_offsets
    block_offsets fit.

(** [create_dependency_graph] with the blocks of every level kept apart. *)
Definition create_dependency_graph_levels
    (total block_read_roi block_write_roi : Roi)
    (read_write_conflict : bool) (fit : Fit)
  : result (list (list (Block * list Block))) :=
  level_stride ← compute_level_stride block_read_roi block_write_roi;
  level_offsets ← compute_level_offsets block_write_roi level_stride;
  lco ← level_conflict_offsets read_write_conflict level_stride None
          level_offsets;
  mapM (level_blocks total block_read_roi block_write_roi fit level_stride
          level_offsets lco)
       (seq 0 (length level_offsets)).

(** [blocks += enumerate_blocks(...)] over the levels. *)
Definition create_dependency_graph
    (total block_read_roi block_write_roi : Roi)
    (read_write_conflict : bool) (fit : Fit)
  : result (list (Block * list Block)) :=
  levels ← create_dependency_graph_levels total block_read_roi
             block_write_roi read_write_conflict fit;
  mret (concat levels).

(** ** dask_scheduler.py *)

Section Executor.

(** The state the user's callbacks read and write. *)
Context {W : Type}.

(** A callback may raise: a check returns a boolean or raises, the process
    function returns or raises. *)
Definition check_fn : Type := Block → W → result bool * W.
Definition process_fn : Type := Block → W → result () * W.

(** [check_and_run(block, process_function, pre_check, post_check)]: only
    the call of [process_function] is inside the [try]; an exception of a
    check leaves the function. *)
Definition check_and_run (block : Block) (process_function : process_fn)
    (pre_check post_check : check_fn) (w : W) : result Z * W :=
  let (skip, w) := pre_check block w in
  match skip with
  | Raise e => (Raise e, w)
  | Ok true => (Ok 0, w)
  | Ok false =>
      let (r, w) := process_function block w in
      match r with
      | Raise _ => (Ok (-2), w)
      | Ok _ =>
          let (done, w) := post_check block w in
          match done with
          | Raise e => (Raise e, w)
          | Ok done => if negb done then (Ok (-1), w) else (Ok 1, w)
          end
      end
  end.

(** The [check_function] argument of [run_blockwise]: [None], one
    function, or a tuple of two. *)
Inductive check_function : Type :=
  | NoCheck
  | OneCheck (f : check_fn)
  | TwoChecks (pre post : check_fn).

(** The checks [run_blockwise] hands to [check_and_run]. *)
Definition select_checks (c : check_function) : check_fn * check_fn :=
  match c with
  | TwoChecks pre post => (pre, post)
  | OneCheck f => (f, f)
  | NoCheck => (λ _ w, (Ok false, w), λ _ w, (Ok true, w))
  end.

End Executor.

(** [_, t = name] for a task name, a string: unpacking takes exactly two
    characters. *)
Definition unpack_name (name : string) : result (string * string) :=
  match name with
  | String a (String b EmptyString) =>
      Ok (String a EmptyString, String b EmptyString)
  | _ => Raise ValueError
  end.

(** [t[i]] for a string. *)
Definition str_getitem (t : string) (i : nat) : result string :=
  match String.get i t with
  | Some c => Ok (String c EmptyString)
  | None => Raise IndexError
  end.

(** [[str(t[1]) for _, t in failed]], the argument of the log line for
    the failed blocks; [failed] holds task names. *)
Definition failed_blocks (failed : list string) : result (list string) :=
  mapM (λ name, p ← unpack_name name; str_getitem p.2 1) failed.

(** The end of [run_blockwise], from [zip(tasks, results)] on: [tasks]
    are the task names, the keys of the dictionary, and [results] what the
    executor returned for them. *)
Definition run_blockwise_return (tasks : list string) (results : list Z)
  : result bool :=
  let failed := (filter (λ tr, tr.2 = -1) (zip tasks results)).*1 in
  let errored := (filter (λ tr, tr.2 = -2) (zip tasks results)).*1 in
  _ ← (if (0 <? length failed)%nat
       then _ ← failed_blocks failed; mret ()
       else mret ());
  mret (Nat.eqb (length failed + length errored) 0).

(** * Definitions used to state the properties *)

(** Rois and blocks of dimension [n]. *)
Definition dims (r : Roi) (n : nat) : Prop :=
  length (offset r) = n ∧ length (shape r) = n.

(** Ceiling of the quotient [a / b]. *)
Definition ceil_div (a b : Z) : Z := - (- a / b).

(** The level stride, in the words of the specification. *)
Definition max_context_spec (read write : Roi) : Coord :=
  let context_ul := zip_with Z.sub (offset write) (offset read) in
  let context_lr :=
    zip_with Z.sub (zip_with Z.add (offset read) (shape read))
                   (zip_with Z.add (offset write) (shape write)) in
  zip_with Z.max context_ul context_lr.

Definition level_stride_spec (read write : Roi) : Coord :=
  let min_stride := zip_with Z.add (max_context_spec read write) (shape write) in
  zip_with (λ l w, ceil_div l w * w) min_stride (shape write).

(** The operations on Rois of one dimension, where no exception is raised. *)
Definition end_of (r : Roi) : Coord := zip_with Z.add (offset r) (shape r).

Definition intersect_dims (r o : Roi) : Roi :=
  let b := zip_with Z.max (offset r) (offset o) in
  mkRoi b (Z.max 0 <$> zip_with Z.sub (zip_with Z.min (end_of r) (end_of o)) b).

Definition grow_dims (r : Roi) (neg pos : Coord) : Roi :=
  mkRoi (zip_with Z.sub (offset r) neg)
        (zip_with Z.add (shape r) (zip_with Z.add neg pos)).

Definition translate_dims (r : Roi) (delta : Coord) : Roi :=
  mkRoi (zip_with Z.add (offset r) delta) (shape r).

Definition shrink_dims (total : Roi) (b : Block) : Block :=
  let r := intersect_dims total (read_roi b) in
  let neg := zip_with Z.sub (offset (read_roi b)) (offset r) in
  let pos := zip_with Z.sub (end_of r) (end_of (read_roi b)) in
  mkBlock (block_id b) (total_roi b) r (grow_dims (write_roi b) neg pos).

Definition block_dims (b : Block) (n : nat) : Prop :=
  dims (read_roi b) n ∧ dims (write_roi b) n.

(** The exceptions [compute_level_stride] raises on an invalid geometry:
    the failed assertion, and the division by a zero write shape. *)
Definition invalid_geometry (e : exn) : Prop :=
  e = AssertionError ∨ e = ZeroDivisionError.

(** The progression [0, w, 2w, …] strictly below [e], and the level
    offsets, in the words of the specification. *)
Definition progression (w e : Z) : list Z :=
  (λ k : nat, Z.of_nat k * w) <$> seq 0 (Z.to_nat (ceil_div e w)).

Definition level_offsets_spec (write_shape level_stride : Coord)
  : list Coord :=
  reverse (product (zip_with (λ e w, progression w e) level_stride write_shape)).

(** The conflict offsets between a level and the previous one, in the words
    of the specification. *)
Definition conflict_axis (delta level_stride : Z) : list Z :=
  if delta <? 0 then [delta; delta + level_stride]
  else [delta - level_stride; delta].

Definition conflict_offsets_spec (prev_level_offset level_offset : Coord)
    (level_stride : Coord) : list Coord :=
  product (zip_with conflict_axis
             (zip_with Z.sub prev_level_offset level_offset) level_stride).

(** The conflict offsets of a level whose predecessor is [prev]. *)
Definition conflicts_of (read_write_conflict : bool) (level_stride : Coord)
    (prev : option Coord) (level_offset : Coord) : list Coord :=
  match prev with
  | Some prev_level_offset =>
      if read_write_conflict
      then conflict_offsets_spec prev_level_offset level_offset level_stride
      else []
  | None => []
  end.

(** ** The planner on inputs of one dimension

    What the functions of blocks.py return when no exception is raised. *)

Definition roi_in (r o : Roi) : bool :=
  forallb (λ p, p.1 <=? p.2) (zip (offset r) (offset o))
  && forallb (λ p, p.1 <=? p.2) (zip (end_of o) (end_of r)).

Definition point_in (r : Roi) (p : Coord) : bool :=
  forallb (λ q, q.1 <=? q.2) (zip (offset r) p)
  && forallb (λ q, q.1 <? q.2) (zip p (end_of r)).

(** The block [Block(total_roi, read_roi + off, write_roi + off)]. *)
Definition block_at (total read write : Roi) (off : Coord) : Block :=
  new_Block total (translate_dims read off) (translate_dims write off).

(** The value of [inclusion_criteria(b)], the state of [b] after that call,
    and [fit_block] of an included block. *)
Definition included (fit : Fit) (total : Roi) (b : Block) : bool :=
  match fit with
  | Valid => roi_in total (read_roi b)
  | Overhang => point_in total (offset (write_roi b))
  | Shrink =>
      point_in total (offset (write_roi b))
      && forallb (λ s, 0 <? s) (shape (write_roi (shrink_dims total b)))
  end.

Definition checked (fit : Fit) (total : Roi) (b : Block) : Block :=
  match fit with
  | Valid => b
  | Overhang => b
  | Shrink =>
      if point_in total (offset (write_roi b)) then shrink_dims total b else b
  end.

Definition fitted (fit : Fit) (total : Roi) (b : Block) : Block :=
  match fit with
  | Valid => b
  | Overhang => b
  | Shrink => shrink_dims total b
  end.

(** The upstream block a conflict offset gives for the block [b1], if it
    is included. *)
Definition conflict_at (fit : Fit) (total : Roi) (b1 : Block) (co : Coord)
  : option Block :=
  let c := block_at total (read_roi b1) (write_roi b1) co in
  if included fit total c then Some (fitted fit total c) else None.

(** The entry of the graph for a block offset, if the block is included. *)
Definition entry_at (fit : Fit) (total read write : Roi) (cos : list Coord)
    (off : Coord) : option (Block * list Block) :=
  let b := block_at total read write off in
  if included fit total b
  then Some (fitted fit total b,
             omap (conflict_at fit total (checked fit total b)) cos)
  else None.

(** The block offsets of the level that starts at [level_offset]. *)
Definition block_offsets_at (total read : Roi) (level_stride : Coord)
    (level_offset : Coord) : list Coord :=
  (λ o, zip_with Z.add o (zip_with Z.sub (offset total) (offset read)))
  <$> product ((λ les : Z * Z * Z, range_list les.1.1 les.1.2 les.2)
               <$> zip3 level_offset (shape total) level_stride).

Definition level_at (fit : Fit) (total read write : Roi)
    (level_stride : Coord) (level_offset : Coord) (cos : list Coord)
  : list (Block * list Block) :=
  omap (entry_at fit total read write cos)
       (block_offsets_at total read level_stride level_offset).

Definition levels_at (fit : Fit) (read_write_conflict : bool)
    (total read write : Roi) : list (list (Block * list Block)) :=
  let level_stride := level_stride_spec read write in
  let level_offsets := level_offsets_spec (shape write) level_stride in
  zip_with (level_at fit total read write level_stride) level_offsets
    (zip_with (conflicts_of read_write_conflict level_stride)
       (None :: (Some <$> level_offsets)) level_offsets).

(** Two block offsets that differ by at least the level stride on some
    axis. *)
Definition far (level_stride p q : Coord) : Prop :=
  ∃ i s x y,
    level_stride !! i = Some s ∧ p !! i = Some x ∧ q !! i = Some y ∧
    (s ≤ x - y ∨ s ≤ y - x).

(** The write Roi of [a] does not intersect the read Roi of [b], and the
    read Roi of [a] does not intersect the write Roi of [b]. *)
Definition independent (a b : Block) : Prop :=
  (∃ x, intersect (write_roi a) (read_roi b) = Ok x ∧ empty x = true) ∧
  (∃ y, intersect (read_roi a) (write_roi b) = Ok y ∧ empty y = true).

(** ** Definitions used by the further properties *)

(** The left context and the difference of the shapes of a block. *)
Definition same_context (a b : Block) : Prop :=
  zip_with Z.sub (offset (write_roi a)) (offset (read_roi a))
  = zip_with Z.sub (offset (write_roi b)) (offset (read_roi b)) ∧
  zip_with Z.sub (shape (read_roi a)) (shape (write_roi a))
  = zip_with Z.sub (shape (read_roi b)) (shape (write_roi b)).

(** The write Rois of two blocks do not intersect. *)
Definition write_disjoint (a b : Block) : Prop :=
  ∃ x, intersect (write_roi a) (write_roi b) = Ok x ∧ empty x = true.

(** ** Datasets (datasets.py) *)

(** A dataset as [_read_voxel_size_offset] and [prepare_ds] use it: its
    attributes, a dictionary from names to tuples of integers, and its
    shape. *)
Record Dataset : Type := mkDataset {
  attrs : gmap string (list Z);
  ds_shape : list Z
}.

(** [_read_voxel_size_offset(ds, order)]: the pair
    [(voxel_size, offset)]. *)
Definition _read_voxel_size_offset (ds : Dataset) (order : string)
  : result (Coord * Coord) :=
  let voxel_size := attrs ds !! "resolution"%string in
  let dims := length <$> voxel_size in
  let offset := attrs ds !! "offset"%string in
  dims ←
    match offset with
    | Some o =>
        match dims with
        | Some d =>
            if bool_decide (d = length o) then mret (Some d)
            else Raise AssertionError
        | None => mret (Some (length o))
        end
    | None => mret dims
    end;
  let dims := default (length (ds_shape ds)) dims in
  let voxel_size := default (replicate dims 1) voxel_size in
  let offset := default (replicate dims 0) offset in
  if String.eqb order "F"
  then mret (reverse voxel_size, reverse offset)
  else mret (voxel_size, offset).

(** The attributes [prepare_ds] writes to a dataset it creates, with
    [begin] for [total_roi.get_begin()]. *)
Definition prepare_ds_attrs (file_format : string) (voxel_size begin : Coord)
    (ds : Dataset) : Dataset :=
  if String.eqb file_format "zarr"
  then mkDataset (<["offset"%string := begin]>
                    (<["resolution"%string := voxel_size]> (attrs ds)))
                 (ds_shape ds)
  else mkDataset (<["offset"%string := reverse begin]>
                    (<["resolution"%string := reverse voxel_size]> (attrs ds)))
                 (ds_shape ds).

(** One iteration of the loop of [get_chunk_size_dim]; the state is
    [(best_k, best_target_diff)], with [None] for Python's [None]. *)
Definition get_chunk_size_dim_step (b target_chunk_size : Z)
    (st : option Z * Z) (k : Z) : option Z * Z :=
  if ((b / k) * k) mod b =? 0 then
    let diff := Z.abs (b / k - target_chunk_size) in
    match st.1 with
    | None => (Some k, diff)
    | Some _ => if diff <? st.2 then (Some k, diff) else st
    end
  else st.

(** [get_chunk_size_dim(b, target_chunk_size)]; [None] is the [TypeError]
    of [b//best_k] when [best_k] is still [None]. *)
Definition get_chunk_size_dim (b target_chunk_size : Z) : option Z :=
  let st := foldl (get_chunk_size_dim_step b target_chunk_size) (None, 0)
              (range_list 1 (b + 1) 1) in
  (λ best_k, b / best_k) <$> st.1.

(** [get_chunk_size(block_size)] *)
Definition get_chunk_size (block_size : Coord) : option Coord :=
  mapM (λ b, get_chunk_size_dim b 256) block_size.

(** The state of the loop of [get_chunk_size_dim] after [k = 1, ..., n]. *)
Definition chunk_inv (b t : Z) (n : nat) (st : option Z * Z) : Prop :=
  match st.1 with
  | None => n = 0%nat
  | Some k0 =>
      1 ≤ k0 ≤ Z.of_nat n ∧ (k0 | b) ∧ st.2 = Z.abs (b / k0 - t) ∧
      ∀ k, 1 ≤ k ≤ Z.of_nat n → (k | b) →
           st.2 ≤ Z.abs (b / k - t) ∧ (k < k0 → st.2 < Z.abs (b / k - t))
  end.

(** * Properties *)

(** ** The exception monad *)

Lemma bind_Ok {A B} (m : result A) (k : A → result B) (b : B) :
  m ≫= k = Ok b ↔ ∃ a, m = Ok a ∧ k a = Ok b.
Proof.
  destruct m as [a|e]; simpl; split.
  - intros H. by exists a.
  - by intros (a' & [= <-] & H).
  - done.
  - by intros (a' & [=] & _).
Qed.

(** Invert hypotheses saying that a sequence of binds returned. *)
Ltac inv_Ok :=
  repeat match goal with
  | H : Ok _ = Ok _ |- _ => injection H as H; try subst
  | H : Raise _ = Ok _ |- _ => discriminate H
  | H : Ok _ = Raise _ |- _ => discriminate H
  | H : mret _ = Ok _ |- _ => injection H as H; try subst
  | H : _ ≫= _ = Ok _ |- _ =>
      let a := fresh "a" in
      let Ha := fresh "Ha" in
      apply bind_Ok in H as (a & Ha & H)
  | H : (if negb ?c then _ else _) = Ok _ |- _ =>
      destruct c eqn:?; simpl in H
  end.

Lemma mapM_Ok {A B} (f : A → result B) (l : list A) (k : list B) :
  mapM f l = Ok k ↔ Forall2 (λ x y, f x = Ok y) l k.
Proof.
  revert k. induction l as [|x l IH]; intros k; simpl.
  - split.
    + intros [= <-]. constructor.
    + by intros ->%Forall2_nil_inv_l.
  - split.
    + intros H. inv_Ok. constructor; [done|]. by apply IH.
    + intros (y & k' & Hy & Hk & ->)%Forall2_cons_inv_l.
      rewrite Hy. simpl. apply IH in Hk. by rewrite Hk.
Qed.

Lemma mapM_Ok_fmap {A B} (f : A → result B) (g : A → B) (l : list A) :
  Forall (λ x, f x = Ok (g x)) l → mapM f l = Ok (g <$> l).
Proof.
  intros H. apply mapM_Ok. induction H; simpl; by constructor.
Qed.

(** ** Coordinates *)

Lemma same_dims_true (a b : Coord) :
  same_dims a b = true ↔ length a = length b.
Proof. apply Nat.eqb_eq. Qed.

Lemma coord_zip_Ok f (a b c : Coord) :
  coord_zip f a b = Ok c ↔ length a = length b ∧ c = zip_with f a b.
Proof.
  unfold coord_zip. destruct (same_dims a b) eqn:E.
  - apply same_dims_true in E. split.
    + by intros [= <-].
    + by intros [_ ->].
  - split; [done|]. intros [E' _]. apply same_dims_true in E'. congruence.
Qed.

Lemma coord_zip_dims f (a b : Coord) :
  length a = length b → coord_zip f a b = Ok (zip_with f a b).
Proof. intros. by apply coord_zip_Ok. Qed.

Lemma coord_all_Ok f (a b : Coord) (c : bool) :
  coord_all f a b = Ok c ↔
  length a = length b ∧ c = forallb (λ p, f p.1 p.2) (zip a b).
Proof.
  unfold coord_all. destruct (same_dims a b) eqn:E.
  - apply same_dims_true in E. split.
    + by intros [= <-].
    + by intros [_ ->].
  - split; [done|]. intros [E' _]. apply same_dims_true in E'. congruence.
Qed.

Lemma forallb_zip_lookup (f : Z → Z → bool) (a b : Coord) :
  forallb (λ p, f p.1 p.2) (zip a b) = true ↔
  ∀ i x y, a !! i = Some x → b !! i = Some y → f x y = true.
Proof.
  rewrite forallb_forall. split.
  - intros H i x y Ha Hb. apply (H (x, y)).
    apply list_elem_of_In, list_elem_of_lookup. exists i.
    rewrite lookup_zip_with, Ha, Hb. done.
  - intros H [x y] Hin. apply list_elem_of_In, list_elem_of_lookup in Hin.
    destruct Hin as [i Hi]. rewrite lookup_zip_with in Hi.
    destruct (a !! i) eqn:Ha, (b !! i) eqn:Hb; simplify_eq/=. eauto.
Qed.

(** ** Rois *)

Ltac unfold_geom :=
  unfold contains_roi, contains_point, intersect, grow, translate, get_end,
    get_begin, get_shape, coord_add, coord_sub, coord_max, coord_min,
    coord_le, coord_lt in *.

(** Invert the successful geometric operations among the hypotheses. *)
Ltac inv_geom :=
  unfold_geom;
  repeat (inv_Ok; match goal with
  | H : coord_zip _ _ _ = Ok _ |- _ =>
      apply coord_zip_Ok in H as [? ?]; try subst
  | H : coord_all _ _ _ = Ok _ |- _ =>
      apply coord_all_Ok in H as [? ?]; try subst
  end); inv_Ok.

Create HintDb len.
Create Rewrite HintDb len.
#[export] Hint Rewrite @length_zip_with @length_fmap @length_app
  @length_reverse : len.

Ltac solve_length :=
  simpl in *; unfold dims in *; autorewrite with len in *; lia.

Lemma contains_roi_Ok (r o : Roi) (c : bool) :
  contains_roi r o = Ok c ↔
  (∃ n, dims r n ∧ dims o n) ∧
  c = forallb (λ p, p.1 <=? p.2) (zip (offset r) (offset o))
      && forallb (λ p, p.1 <=? p.2)
           (zip (zip_with Z.add (offset o) (shape o))
                (zip_with Z.add (offset r) (shape r))).
Proof.
  split.
  - intros H. inv_geom. split; [|done].
    exists (length (offset r)). solve_length.
  - intros [(n & [? ?] & [? ?]) ->]. unfold_geom.
    rewrite !coord_zip_dims by lia. simpl.
    unfold coord_all, same_dims. rewrite !length_zip_with.
    replace (length (offset r) =? length (offset o))%nat with true
      by (symmetry; apply Nat.eqb_eq; lia).
    replace (_ =? _)%nat with true by (symmetry; apply Nat.eqb_eq; lia).
    done.
Qed.

(** Containment, axis by axis. *)
Lemma contains_roi_true (r o : Roi) :
  contains_roi r o = Ok true ↔
  (∃ n, dims r n ∧ dims o n) ∧
  ∀ i rb rs ob os,
    offset r !! i = Some rb → shape r !! i = Some rs →
    offset o !! i = Some ob → shape o !! i = Some os →
    rb ≤ ob ∧ ob + os ≤ rb + rs.
Proof.
  rewrite contains_roi_Ok. split.
  - intros [Hd Hc]. split; [done|]. symmetry in Hc.
    apply andb_true_iff in Hc as [H1 H2].
    intros i rb rs ob os Hrb Hrs Hob Hos.
    rewrite forallb_zip_lookup in H1, H2.
    specialize (H1 i rb ob Hrb Hob).
    specialize (H2 i (ob + os) (rb + rs)).
    rewrite !lookup_zip_with, Hrb, Hrs, Hob, Hos in H2.
    specialize (H2 eq_refl eq_refl). simpl in *. lia.
  - intros [Hd Hc]. split; [done|]. symmetry. apply andb_true_iff.
    rewrite (forallb_zip_lookup Z.leb), (forallb_zip_lookup Z.leb).
    split.
    + intros i x y Hx Hy.
      destruct Hd as (n & [? ?] & [? ?]).
      destruct (lookup_lt_is_Some_2 (shape r) i) as [rs Hrs];
        [apply lookup_lt_Some in Hx; lia|].
      destruct (lookup_lt_is_Some_2 (shape o) i) as [os Hos];
        [apply lookup_lt_Some in Hx; lia|].
      specialize (Hc i x rs y os Hx Hrs Hy Hos). lia.
    + intros i x y. rewrite !lookup_zip_with.
      destruct (offset o !! i) eqn:Hob, (shape o !! i) eqn:Hos,
        (offset r !! i) eqn:Hrb, (shape r !! i) eqn:Hrs; simpl; try done.
      intros [= <-] [= <-]. specialize (Hc i _ _ _ _ Hrb Hrs Hob Hos). lia.
Qed.

(** ** C2: the level stride *)

Lemma ceil_div_least (a b q : Z) : 0 < b → ceil_div a b ≤ q ↔ a ≤ q * b.
Proof.
  intros Hb. unfold ceil_div. split; intros H.
  - assert (- q ≤ - a / b) as H' by lia.
    pose proof (Z.mul_div_le (- a) b Hb). nia.
  - assert (- q ≤ - a / b); [|lia].
    apply Z.div_le_lower_bound; [done|]. nia.
Qed.

Lemma stride_round_ceil (l w : Z) :
  0 < w → ((l - 1) / w + 1) * w = ceil_div l w * w.
Proof.
  intros Hw. f_equal. unfold ceil_div.
  pose proof (Z.div_mod (l - 1) w ltac:(lia)).
  pose proof (Z.mod_pos_bound (l - 1) w Hw).
  symmetry. apply Z.opp_inj. rewrite Z.opp_involutive.
  symmetry. apply (Z.div_unique_pos _ _ _ (w - 1 - (l - 1) mod w)); lia.
Qed.

Lemma compute_level_stride_Ok (read write : Roi) :
  contains_roi read write = Ok true →
  Forall (λ w, 0 < w) (shape write) →
  compute_level_stride read write = Ok (level_stride_spec read write).
Proof.
  intros Hc Hw. unfold compute_level_stride. rewrite Hc. simpl.
  apply contains_roi_Ok in Hc as [(n & [? ?] & [? ?]) _].
  unfold_geom. rewrite !coord_zip_dims by solve_length. simpl.
  rewrite !coord_zip_dims by solve_length. simpl.
  rewrite !coord_zip_dims by solve_length. simpl.
  apply mapM_Ok. unfold level_stride_spec, max_context_spec.
  generalize (zip_with Z.add
    (zip_with Z.max (zip_with Z.sub (offset write) (offset read))
       (zip_with Z.sub (zip_with Z.add (offset read) (shape read))
          (zip_with Z.add (offset write) (shape write)))) (shape write)).
  intros ls. clear - Hw. revert ls.
  induction Hw as [|w ws Hw0 Hw IH]; intros [|l ls]; simpl; try constructor.
  - destruct (Z.eqb_spec w 0); [lia|]. by rewrite stride_round_ceil.
  - apply IH.
Qed.

(** C2. For a read Roi containing the write Roi and a positive write shape,
    [compute_level_stride] returns on every axis
    [ceil((max(context_ul, context_lr) + write_shape) / write_shape) *
    write_shape], which is the smallest multiple of the write shape that is
    at least [max_context + write_shape]. *)
Theorem compute_level_stride_formula (read write : Roi) :
  contains_roi read write = Ok true →
  Forall (λ w, 0 < w) (shape write) →
  compute_level_stride read write = Ok (level_stride_spec read write) ∧
  length (level_stride_spec read write) = length (shape write) ∧
  ∀ i rb rs wb ws,
    offset read !! i = Some rb → shape read !! i = Some rs →
    offset write !! i = Some wb → shape write !! i = Some ws →
    let max_context := Z.max (wb - rb) ((rb + rs) - (wb + ws)) in
    ∃ s, level_stride_spec read write !! i = Some s ∧
      s = ceil_div (max_context + ws) ws * ws ∧
      (ws | s) ∧ max_context + ws ≤ s ∧
      ∀ s', (ws | s') → max_context + ws ≤ s' → s ≤ s'.
Proof.
  intros Hc Hw. split; [by apply compute_level_stride_Ok|].
  apply contains_roi_Ok in Hc as [(n & [? ?] & [? ?]) _].
  split; [unfold level_stride_spec, max_context_spec; solve_length|].
  intros i rb rs wb ws Hrb Hrs Hwb Hws m.
  assert (0 < ws) as Hpos.
  { rewrite Forall_lookup in Hw. by apply (Hw i). }
  exists (ceil_div (m + ws) ws * ws). split; [|split; [done|]].
  { unfold level_stride_spec, max_context_spec.
    rewrite !lookup_zip_with, Hrb, Hrs, Hwb, Hws. done. }
  pose proof (proj1 (ceil_div_least (m + ws) ws _ Hpos) (Z.le_refl _)).
  split; [by exists (ceil_div (m + ws) ws)|]. split; [done|].
  intros s' [q ->] Hq. apply (ceil_div_least _ _ q Hpos) in Hq. nia.
Qed.

Lemma compute_level_stride_formula_witness :
  contains_roi (mkRoi [0] [30]) (mkRoi [10] [10]) = Ok true ∧
  Forall (λ w, 0 < w) [10] ∧
  compute_level_stride (mkRoi [0] [30]) (mkRoi [10] [10]) = Ok [20].
Proof.
  assert (Forall (λ w, 0 < w) [10]) as Hw by (by repeat constructor).
  split; [reflexivity|]. split; [exact Hw|].
  exact (proj1 (compute_level_stride_formula (mkRoi [0] [30])
                  (mkRoi [10] [10]) eq_refl Hw)).
Defined.

(** ** C7, C10: shrinking *)

(** Equality of two coordinates built from element-wise operations. *)
Ltac list_axes :=
  apply list_eq; intros ?i;
  repeat (rewrite ?lookup_zip_with, ?list_lookup_fmap);
  repeat match goal with
  | |- context [?l !! ?i] => is_var l; destruct (l !! i) eqn:?; simpl
  end;
  try done; try (f_equal; lia).

Lemma get_end_Ok (r : Roi) (e : Coord) :
  get_end r = Ok e ↔ length (offset r) = length (shape r) ∧ e = end_of r.
Proof. apply coord_zip_Ok. Qed.

Lemma intersect_Ok (r o i : Roi) :
  intersect r o = Ok i ↔ (∃ n, dims r n ∧ dims o n) ∧ i = intersect_dims r o.
Proof.
  split.
  - intros H. inv_geom. split; [|done]. exists (length (offset r)). solve_length.
  - intros [(n & [? ?] & [? ?]) ->]. unfold_geom.
    repeat (rewrite !coord_zip_dims by solve_length; simpl). done.
Qed.

Lemma intersect_dims_dims (r o : Roi) n :
  dims r n → dims o n → dims (intersect_dims r o) n.
Proof. intros [? ?] [? ?]. unfold intersect_dims, end_of. split; solve_length. Qed.

Lemma translate_Ok (r t : Roi) (d : Coord) :
  translate r d = Ok t ↔ length (offset r) = length d ∧ t = translate_dims r d.
Proof.
  split.
  - intros H. by inv_geom.
  - intros [? ->]. unfold_geom. by rewrite coord_zip_dims.
Qed.

Lemma translate_dims_dims (r : Roi) d n :
  dims r n → length d = n → dims (translate_dims r d) n.
Proof. intros [? ?] ?. split; solve_length. Qed.

Lemma grow_Ok (r g : Roi) (neg pos : Coord) :
  grow r neg pos = Ok g ↔
  (∃ n, dims r n ∧ length neg = n ∧ length pos = n) ∧ g = grow_dims r neg pos.
Proof.
  split.
  - intros H. inv_geom. split; [|done]. exists (length (offset r)). solve_length.
  - intros [(n & [? ?] & ? & ?) ->]. unfold_geom.
    repeat (rewrite !coord_zip_dims by solve_length; simpl). done.
Qed.

Lemma grow_dims_dims (r : Roi) neg pos n :
  dims r n → length neg = n → length pos = n → dims (grow_dims r neg pos) n.
Proof. intros [? ?] ? ?. split; solve_length. Qed.

Lemma shrink_Ok (total : Roi) (b b' : Block) :
  shrink total b = Ok b' ↔
  (∃ n, dims total n ∧ block_dims b n) ∧ b' = shrink_dims total b.
Proof.
  unfold shrink. split.
  - intros H. inv_Ok.
    apply intersect_Ok in Ha as [(n & Ht & Hr) ->].
    apply get_end_Ok in Ha0 as [_ ->]. apply get_end_Ok in Ha1 as [_ ->].
    apply coord_zip_Ok in Ha2 as [_ ->]. apply coord_zip_Ok in Ha3 as [_ ->].
    apply grow_Ok in Ha4 as [(m & Hw & Hm & _) ->].
    split; [|done]. exists n. split; [done|]. split; [done|].
    destruct Hr, Ht, Hw. unfold end_of, intersect_dims, get_begin in *.
    solve_length.
  - intros [(n & [? ?] & [[? ?] [? ?]]) ->].
    unfold shrink_dims, intersect_dims, grow_dims, end_of. unfold_geom.
    repeat (rewrite !coord_zip_dims by solve_length; simpl). done.
Qed.

Lemma shrink_dims_dims (total : Roi) (b : Block) n :
  dims total n → block_dims b n → block_dims (shrink_dims total b) n.
Proof.
  intros Ht [Hr Hw]. pose proof (intersect_dims_dims _ _ _ Ht Hr) as Hi.
  split; [done|]. destruct Ht, Hr, Hw, Hi. apply grow_dims_dims; [done|..];
  unfold end_of; solve_length.
Qed.

Lemma shrink_dims_idem (total : Roi) (b : Block) :
  shrink_dims total (shrink_dims total b) = shrink_dims total b.
Proof.
  destruct total as [tb ts], b as [id tot [rb rs] [wb ws]].
  unfold shrink_dims, grow_dims, intersect_dims, end_of. simpl.
  f_equal; f_equal; list_axes.
Qed.


Lemma contains_point_Ok (r : Roi) (p : Coord) (c : bool) :
  contains_point r p = Ok c ↔
  (∃ n, dims r n ∧ length p = n) ∧
  c = forallb (λ q, q.1 <=? q.2) (zip (offset r) p)
      && forallb (λ q, q.1 <? q.2) (zip p (end_of r)).
Proof.
  split.
  - intros H. inv_geom. split; [|done].
    exists (length (offset r)). solve_length.
  - intros [(n & [? ?] & ?) ->]. unfold_geom.
    rewrite !coord_zip_dims by lia. simpl.
    unfold coord_all, same_dims. rewrite !length_zip_with.
    replace (length (offset r) =? length p)%nat with true
      by (symmetry; apply Nat.eqb_eq; lia).
    replace (_ =? _)%nat with true by (symmetry; apply Nat.eqb_eq; lia).
    done.
Qed.

Lemma shrink_possible_Ok (total : Roi) (b b' : Block) (c : bool) :
  shrink_possible total b = Ok (c, b') ↔
  (contains_point total (offset (write_roi b)) = Ok false ∧
   c = false ∧ b' = b) ∨
  (contains_point total (offset (write_roi b)) = Ok true ∧
   (∃ n, dims total n ∧ block_dims b n) ∧
   b' = shrink_dims total b ∧
   c = forallb (λ s, 0 <? s) (shape (write_roi b'))).
Proof.
  unfold shrink_possible, get_begin, get_shape. split.
  - intros H. apply bind_Ok in H as ([] & Hc & H); simpl in H.
    + right. inv_Ok. apply shrink_Ok in Ha as [? ->]. done.
    + left. by inv_Ok.
  - intros [(-> & -> & ->)|(-> & Hd & -> & ->)]; simpl; [done|].
    by rewrite (proj2 (shrink_Ok total b _) (conj Hd eq_refl)).
Qed.

(** Lookups in coordinates built from element-wise operations. *)
Ltac axes_in H :=
  repeat (rewrite ?lookup_zip_with, ?list_lookup_fmap in H);
  repeat match type of H with
  | context [?l !! ?i] =>
      is_var l; let E := fresh "E" in destruct (l !! i) eqn:E; simpl in H
  end;
  simplify_eq/=.

Ltac lookup_lengths :=
  repeat match goal with
  | H : _ !! _ = None |- _ => apply lookup_ge_None in H
  | H : _ !! _ = Some _ |- _ => apply lookup_lt_Some in H
  end.

(** C7. For a block whose read Roi contains its write Roi and that
    [shrink_possible] accepts, the shrunk block has read Roi
    [r = total ∩ read_roi] and write Roi
    [write_roi.grow(read_roi.begin − r.begin, r.end − read_roi.end)]; the
    context [read_roi.shape − write_roi.shape] is the one of the original
    block, and the new read Roi contains the new write Roi. *)
Theorem shrink_postconditions (total : Roi) (b b' : Block) :
  contains_roi (read_roi b) (write_roi b) = Ok true →
  shrink_possible total b = Ok (true, b') →
  ∃ r re bre neg pos w,
    intersect total (read_roi b) = Ok r ∧
    get_end r = Ok re ∧ get_end (read_roi b) = Ok bre ∧
    coord_sub (get_begin (read_roi b)) (get_begin r) = Ok neg ∧
    coord_sub re bre = Ok pos ∧
    grow (write_roi b) neg pos = Ok w ∧
    shrink total b = Ok b' ∧ read_roi b' = r ∧ write_roi b' = w ∧
    (∃ context,
       coord_sub (get_shape r) (get_shape w) = Ok context ∧
       coord_sub (get_shape (read_roi b)) (get_shape (write_roi b))
         = Ok context) ∧
    contains_roi r w = Ok true.
Proof.
  intros Hc Hs.
  apply shrink_possible_Ok in Hs as [(_ & [=] & _)|(_ & Hd & -> & _)].
  destruct Hd as (n & Ht & Hr & Hw).
  pose proof (intersect_dims_dims _ _ _ Ht Hr) as Hi.
  set (r := intersect_dims total (read_roi b)) in *.
  set (neg := zip_with Z.sub (offset (read_roi b)) (offset r)).
  set (pos := zip_with Z.sub (end_of r) (end_of (read_roi b))).
  assert (length neg = n ∧ length pos = n) as [Hneg Hpos].
  { destruct Hr, Hi. unfold neg, pos, end_of. solve_length. }
  pose proof (grow_dims_dims _ _ _ _ Hw Hneg Hpos) as Hg.
  exists r, (end_of r), (end_of (read_roi b)), neg, pos,
    (grow_dims (write_roi b) neg pos).
  split; [apply intersect_Ok; eauto|].
  split; [apply get_end_Ok; destruct Hi; split; [lia|done]|].
  split; [apply get_end_Ok; destruct Hr; split; [lia|done]|].
  split; [apply coord_zip_Ok; destruct Hr, Hi; split; [|done];
          unfold get_begin; lia|].
  split; [apply coord_zip_Ok; destruct Hr, Hi; split; [|done];
          unfold end_of; solve_length|].
  split; [apply grow_Ok; eauto 6|].
  split; [apply shrink_Ok; split; [exists n; split; [done|by split]|done]|].
  split; [done|]. split; [done|].
  apply contains_roi_true in Hc as [_ Hc]. split.
  - exists (zip_with Z.sub (shape (read_roi b)) (shape (write_roi b))).
    unfold coord_sub, get_shape.
    rewrite !coord_zip_dims by (destruct Hr, Hw, Hi, Hg; lia).
    split; [|done]. f_equal. subst r neg pos.
    destruct total as [tb ts], b as [id tot [rb rs] [wb ws]].
    unfold grow_dims, intersect_dims, end_of. simpl. list_axes.
    all: lookup_lengths; destruct Hr, Hw, Ht; simpl in *; lia.
  - apply contains_roi_true. split; [by exists n|]. subst r neg pos.
    destruct total as [tb ts], b as [id tot [rb rs] [wb ws]].
    unfold grow_dims, intersect_dims, end_of. simpl in *.
    intros i x1 x2 x3 x4 H1 H2 H3 H4.
    axes_in H1. axes_in H2. axes_in H3. axes_in H4.
    edestruct (Hc i) as [? ?]; [eassumption..|]. lia.
Qed.




Lemma shrink_postconditions_witness :
  let total := mkRoi [0] [95] in
  let b := new_Block total (mkRoi [70] [30]) (mkRoi [80] [10]) in
  let b' := mkBlock (block_id b) total (mkRoi [70] [25]) (mkRoi [80] [5]) in
  contains_roi (read_roi b) (write_roi b) = Ok true ∧
  shrink_possible total b = Ok (true, b') ∧
  contains_roi (read_roi b') (write_roi b') = Ok true.
Proof.
  intros total b b'.
  split; [reflexivity|]. split; [reflexivity|].
  destruct (shrink_postconditions total b b' eq_refl eq_refl)
    as (r & re & bre & neg & pos & w & _ & _ & _ & _ & _ & _ & _ & <- & <- & _ & H).
  exact H.
Defined.

(** ** C9: the executor adapter *)

(** The log line for the failed blocks raises on its first task name. *)
Lemma failed_blocks_raises (name : string) (failed : list string) :
  failed_blocks (name :: failed)
  = Raise (if Nat.eqb (String.length name) 2 then IndexError
           else ValueError).
Proof.
  unfold failed_blocks.
  destruct name as [|a [|b [|c name]]]; try done.
Qed.

Lemma filter_fst_nil (trs : list (string * Z)) (v : Z) :
  length (filter (λ tr, tr.2 = v) trs).*1 = 0%nat ↔
  Forall (λ r, r ≠ v) trs.*2.
Proof.
  induction trs as [|[t r] trs IH]; simpl.
  - split; [constructor|done].
  - rewrite Forall_cons, <- IH, filter_cons. simpl.
    case_decide; simpl; [|tauto].
    split; [lia|]. by intros [? _].
Qed.

Lemma run_blockwise_return_no_failed (tasks : list string)
    (results : list Z) :
  Forall (λ r, r ≠ -1) (zip tasks results).*2 →
  run_blockwise_return tasks results
  = Ok (Nat.eqb (length (filter (λ tr, tr.2 = -2) (zip tasks results)).*1) 0).
Proof.
  intros H%filter_fst_nil. unfold run_blockwise_return. by rewrite H.
Qed.

Lemma run_blockwise_return_failed (tasks : list string) (results : list Z) :
  Exists (λ r, r = -1) (zip tasks results).*2 →
  ∃ name,
    head (filter (λ tr, tr.2 = -1) (zip tasks results)).*1 = Some name ∧
    run_blockwise_return tasks results
    = Raise (if Nat.eqb (String.length name) 2 then IndexError
             else ValueError).
Proof.
  intros H. unfold run_blockwise_return.
  destruct ((filter (λ tr, tr.2 = -1) (zip tasks results)).*1)
    as [|name failed] eqn:Hf.
  - exfalso. apply Exists_exists in H as (r & Hin & ->).
    assert (length (filter (λ tr, tr.2 = -1) (zip tasks results)).*1 = 0%nat)
      as H0 by (by rewrite Hf).
    apply filter_fst_nil in H0. rewrite Forall_forall in H0.
    by apply (H0 (-1)).
  - exists name. split; [done|].
    by rewrite failed_blocks_raises.
Qed.

Lemma run_blockwise_return_true (tasks : list string) (results : list Z) :
  run_blockwise_return tasks results = Ok true ↔
  Forall (λ r, r ≠ -1 ∧ r ≠ -2) (zip tasks results).*2.
Proof.
  rewrite Forall_and.
  destruct (decide (Forall (λ r, r ≠ -1) (zip tasks results).*2)) as [H1|H1].
  - rewrite run_blockwise_return_no_failed by done.
    rewrite <- (filter_fst_nil _ (-2)). split.
    + intros [= H%Nat.eqb_eq]. done.
    + intros [_ ->]. done.
  - apply not_Forall_Exists in H1; [|intros r; apply _].
    assert (Exists (λ r, r = -1) (zip tasks results).*2) as H2.
    { eapply Exists_impl; [done|]. simpl. intros r Hr.
      destruct (decide (r = -1)); [done|]. by destruct Hr. }
    destruct (run_blockwise_return_failed _ _ H2) as (name & _ & ->).
    split; [done|]. intros [H _]. exfalso.
    apply Exists_exists in H2 as (r & Hin & ->).
    rewrite Forall_forall in H. by apply (H (-1)).
Qed.

(** C9. [check_and_run] returns 0 when [pre_check] is true, and then the
    state is the one [pre_check] left, whatever the process function is;
    -2 when the process function raises; -1 when it returns and
    [post_check] is false; 1 otherwise.  The exception of a check that
    raises leaves [check_and_run]: the checks are called outside the
    [try].  With no check function the pre-check is constantly false and
    the post-check constantly true, and [run_blockwise] returns true
    exactly when no result is -1 or -2. *)
Theorem check_and_run_outcomes {W : Type} (block : Block)
    (process_function : @process_fn W) (pre_check post_check : @check_fn W)
    (w : W) :
  (∀ w1, pre_check block w = (Ok true, w1) →
     ∀ other : @process_fn W,
       check_and_run block other pre_check post_check w = (Ok 0, w1)) ∧
  (∀ w1 w2 e,
     pre_check block w = (Ok false, w1) →
     process_function block w1 = (Raise e, w2) →
     check_and_run block process_function pre_check post_check w
     = (Ok (-2), w2)) ∧
  (∀ w1 w2 u w3,
     pre_check block w = (Ok false, w1) →
     process_function block w1 = (Ok u, w2) →
     post_check block w2 = (Ok false, w3) →
     check_and_run block process_function pre_check post_check w
     = (Ok (-1), w3)) ∧
  (∀ w1 w2 u w3,
     pre_check block w = (Ok false, w1) →
     process_function block w1 = (Ok u, w2) →
     post_check block w2 = (Ok true, w3) →
     check_and_run block process_function pre_check post_check w
     = (Ok 1, w3)) ∧
  (∀ w1 e, pre_check block w = (Raise e, w1) →
     ∀ other : @process_fn W,
       check_and_run block other pre_check post_check w = (Raise e, w1)) ∧
  (∀ w1 w2 u w3 e,
     pre_check block w = (Ok false, w1) →
     process_function block w1 = (Ok u, w2) →
     post_check block w2 = (Raise e, w3) →
     check_and_run block process_function pre_check post_check w
     = (Raise e, w3)) ∧
  (∀ (b : Block) (w' : W), (select_checks NoCheck).1 b w' = (Ok false, w') ∧
           (select_checks NoCheck).2 b w' = (Ok true, w')) ∧
  (∀ tasks results,
     run_blockwise_return tasks results = Ok true ↔
     Forall (λ r, r ≠ -1 ∧ r ≠ -2) (zip tasks results).*2).
Proof.
  unfold check_and_run. repeat split.
  - intros w1 H other. by rewrite H.
  - intros w1 w2 e H1 H2. by rewrite H1, H2.
  - intros w1 w2 u w3 H1 H2 H3. by rewrite H1, H2, H3.
  - intros w1 w2 u w3 H1 H2 H3. by rewrite H1, H2, H3.
  - intros w1 e H other. by rewrite H.
  - intros w1 w2 u w3 e H1 H2 H3. by rewrite H1, H2, H3.
  - by apply run_blockwise_return_true.
  - by apply run_blockwise_return_true.
Qed.

(** ** C8: invalid geometry *)

Lemma mapM_Raise_only {A B} (f : A → result B) (l : list A) (e : exn) :
  (∀ x e', f x = Raise e' → e' = e) →
  Exists (λ x, raises (f x)) l → mapM f l = Raise e.
Proof.
  intros Hf. induction 1 as [x l [e' He]|x l _ IH]; simpl.
  - rewrite He. simpl. f_equal. by eapply Hf.
  - destruct (f x) as [y|e'] eqn:E; simpl.
    + by rewrite IH.
    + f_equal. by eapply Hf.
Qed.

Lemma compute_level_stride_zero (read write : Roi) :
  contains_roi read write = Ok true → 0 ∈ shape write →
  compute_level_stride read write = Raise ZeroDivisionError.
Proof.
  intros Hc Hz. unfold compute_level_stride. rewrite Hc. simpl.
  apply contains_roi_Ok in Hc as [(n & [? ?] & [? ?]) _].
  unfold_geom. repeat (rewrite !coord_zip_dims by solve_length; simpl).
  apply mapM_Raise_only.
  - intros [l w] e'. destruct (w =? 0); congruence.
  - apply list_elem_of_lookup in Hz as [i Hi].
    apply Exists_exists.
    destruct (lookup_lt_is_Some_2
      (zip_with Z.add
         (zip_with Z.max (zip_with Z.sub (offset write) (offset read))
            (zip_with Z.sub (zip_with Z.add (offset read) (shape read))
               (zip_with Z.add (offset write) (shape write))))
         (shape write)) i) as [l Hl].
    { apply lookup_lt_Some in Hi. solve_length. }
    exists (l, 0). split.
    + apply list_elem_of_lookup. exists i.
      by rewrite lookup_zip_with, Hl, Hi.
    + by exists ZeroDivisionError.
Qed.

(** C8. When the read Roi does not contain the write Roi, or a component of
    the write shape is zero, [create_dependency_graph] raises an
    invalid-geometry exception: no graph is returned. *)
Theorem invalid_geometry_fails (total read write : Roi)
    (read_write_conflict : bool) (fit : Fit) (c : bool) :
  contains_roi read write = Ok c →
  c = false ∨ 0 ∈ shape write →
  ∃ e, invalid_geometry e ∧
    create_dependency_graph total read write read_write_conflict fit
      = Raise e ∧
    create_dependency_graph_levels total read write read_write_conflict fit
      = Raise e.
Proof.
  intros Hc Hbad.
  unfold create_dependency_graph, create_dependency_graph_levels.
  destruct c.
  - destruct Hbad as [[=]|Hz].
    rewrite (compute_level_stride_zero _ _ Hc Hz).
    exists ZeroDivisionError. split; [by right|done].
  - unfold compute_level_stride. rewrite Hc. simpl.
    exists AssertionError. split; [by left|done].
Qed.

Lemma invalid_geometry_fails_witness :
  contains_roi (mkRoi [0] [10]) (mkRoi [5] [10]) = Ok false ∧
  ∃ e, invalid_geometry e ∧
    create_dependency_graph (mkRoi [0] [100]) (mkRoi [0] [10])
      (mkRoi [5] [10]) true Valid = Raise e.
Proof.
  split; [reflexivity|].
  destruct (invalid_geometry_fails (mkRoi [0] [100]) (mkRoi [0] [10])
              (mkRoi [5] [10]) true Valid false eq_refl (or_introl eq_refl))
    as (e & He & Hg & _).
  by exists e.
Defined.

(** ** C4: the level offsets *)

Lemma ceil_div_pred (l w : Z) : 0 < w → (l - 1) / w + 1 = ceil_div l w.
Proof.
  intros Hw. pose proof (stride_round_ceil l w Hw). nia.
Qed.

Lemma ceil_div_multiple (q w : Z) : 0 < w → ceil_div (q * w) w = q.
Proof.
  intros Hw. unfold ceil_div.
  replace (- (q * w)) with (- q * w) by lia. rewrite Z.div_mul by lia. lia.
Qed.

Lemma progression_elem (w e x : Z) :
  0 < w → x ∈ progression w e ↔ ∃ k, 0 ≤ k ∧ x = k * w ∧ x < e.
Proof.
  intros Hw. unfold progression. rewrite list_elem_of_fmap. split.
  - intros (k & -> & Hk). apply elem_of_seq in Hk.
    exists (Z.of_nat k). split; [lia|]. split; [done|].
    assert (¬ ceil_div e w ≤ Z.of_nat k) as Hn by lia.
    rewrite ceil_div_least in Hn by done. lia.
  - intros (k & Hk & -> & Hlt). exists (Z.to_nat k). split; [lia|].
    apply elem_of_seq.
    assert (¬ ceil_div e w ≤ k) as Hn by (rewrite ceil_div_least by done; lia).
    lia.
Qed.

Lemma range_progression (e w : Z) :
  0 < w → range 0 e w = Ok (progression w e).
Proof.
  intros Hw. unfold range, range_list, progression, range_len.
  destruct (Z.eqb_spec w 0); [lia|].
  destruct (Z.ltb_spec 0 w); [|lia]. f_equal.
  replace (Z.to_nat (if 0 <? e then (e - 0 - 1) / w + 1 else 0))
    with (Z.to_nat (ceil_div e w)); [done|].
  destruct (Z.ltb_spec 0 e).
  - by rewrite Z.sub_0_r, ceil_div_pred.
  - assert (ceil_div e w ≤ 0) by (apply ceil_div_least; lia). lia.
Qed.

Lemma length_bind_const {A B} (f : A → list B) (l : list A) (m : nat) :
  (∀ x, length (f x) = m) → length (l ≫= f) = (length l * m)%nat.
Proof.
  intros Hf. induction l as [|x l IH]; [done|].
  rewrite bind_cons, length_app, Hf, IH. simpl. lia.
Qed.

Lemma length_product {A} (ls : list (list A)) :
  length (product ls) = foldr Nat.mul 1%nat (length <$> ls).
Proof.
  induction ls as [|l ls IH]; [done|]. simpl.
  rewrite (length_bind_const _ _ (length (product ls))).
  - by rewrite IH.
  - intros x. by rewrite length_fmap.
Qed.

Lemma compute_level_offsets_Ok (write : Roi) (level_stride : Coord) :
  Forall (λ w, 0 < w) (shape write) →
  compute_level_offsets write level_stride
  = Ok (level_offsets_spec (shape write) level_stride).
Proof.
  intros Hw. unfold compute_level_offsets, level_offsets_spec, get_shape.
  rewrite (mapM_Ok_fmap _ (uncurry (λ e w, progression w e))).
  - simpl. by rewrite (zip_with_zip (λ e w, progression w e)).
  - apply Forall_forall. intros [e w] Hin. simpl.
    apply range_progression.
    apply elem_of_zip_r in Hin. rewrite Forall_forall in Hw. by apply Hw.
Qed.

Lemma level_count (write_shape level_stride : Coord) :
  Forall2 (λ e w, 0 < w ∧ 0 ≤ e ∧ (w | e)) level_stride write_shape →
  Z.of_nat (length (level_offsets_spec write_shape level_stride))
  = foldr Z.mul 1 (zip_with Z.div level_stride write_shape).
Proof.
  unfold level_offsets_spec. rewrite length_reverse, length_product.
  induction 1 as [|e w es ws (Hw & He & [q ->]) _ IH]; [done|].
  cbn [zip_with fmap list_fmap foldr]. rewrite Nat2Z.inj_mul, IH. f_equal.
  unfold progression. rewrite length_fmap, length_seq.
  rewrite ceil_div_multiple, Z.div_mul by lia. nia.
Qed.

(** C4. [compute_level_offsets] returns the reversed Cartesian product of
    the per-axis progressions [0, w, 2w, …] strictly below the level stride,
    so that the last offset in product order is level 0; for a level stride
    that is a multiple of the write shape the number of levels is the
    product of [level_stride[i] / write_shape[i]].  For write shape (10,)
    and level stride (20,) the offsets are [10, 0]. *)
Theorem compute_level_offsets_reversed_product (write : Roi)
    (level_stride : Coord) :
  Forall (λ w, 0 < w) (shape write) →
  (∀ w e x, 0 < w →
     x ∈ progression w e ↔ ∃ k, 0 ≤ k ∧ x = k * w ∧ x < e) ∧
  ∃ level_offsets,
    compute_level_offsets write level_stride = Ok level_offsets ∧
    level_offsets
    = reverse (product (zip_with (λ e w, progression w e) level_stride
                          (shape write))) ∧
    head level_offsets
    = last (product (zip_with (λ e w, progression w e) level_stride
                       (shape write))) ∧
    (Forall2 (λ e w, 0 ≤ e ∧ (w | e)) level_stride (shape write) →
     Z.of_nat (length level_offsets)
     = foldr Z.mul 1 (zip_with Z.div level_stride (shape write))) ∧
    (shape write = [10] → level_stride = [20] →
     level_offsets = [[10]; [0]]).
Proof.
  intros Hw. split; [intros; by apply progression_elem|].
  exists (level_offsets_spec (shape write) level_stride).
  split; [by apply compute_level_offsets_Ok|]. split; [done|].
  split; [apply head_reverse|]. split.
  - intros H. apply level_count.
    apply Forall2_same_length_lookup. split; [by eapply Forall2_length|].
    intros i e w He Hwi.
    rewrite Forall_lookup in Hw. specialize (Hw i w Hwi).
    rewrite Forall2_lookup in H. specialize (H i). rewrite He, Hwi in H.
    inversion H as [? ? [? ?]|]; subst. done.
  - by intros -> ->.
Qed.

Lemma compute_level_offsets_reversed_product_witness :
  Forall (λ w, 0 < w) [10] ∧
  ∃ level_offsets,
    compute_level_offsets (mkRoi [10] [10]) [20] = Ok level_offsets ∧
    level_offsets = [[10]; [0]] ∧ length level_offsets = 2%nat.
Proof.
  assert (Forall (λ w, 0 < w) [10]) as Hw by (by repeat constructor).
  split; [exact Hw|].
  destruct (compute_level_offsets_reversed_product (mkRoi [10] [10]) [20] Hw)
    as (_ & offs & H1 & _ & _ & _ & H2).
  exists offs. split; [exact H1|].
  rewrite (H2 eq_refl eq_refl). by split.
Defined.

(** ** C3: the conflict offsets *)

Lemma get_conflict_offsets_Ok (level_offset prev_level_offset : Coord)
    (level_stride : Coord) :
  length prev_level_offset = length level_offset →
  get_conflict_offsets level_offset prev_level_offset level_stride
  = Ok (conflict_offsets_spec prev_level_offset level_offset level_stride).
Proof.
  intros Hl. unfold get_conflict_offsets, coord_sub.
  rewrite coord_zip_dims by done. simpl.
  unfold conflict_offsets_spec. by rewrite (zip_with_zip conflict_axis).
Qed.

Lemma length_conflict_offsets_spec (prev cur level_stride : Coord) (n : nat) :
  length prev = n → length cur = n → length level_stride = n →
  length (conflict_offsets_spec prev cur level_stride) = (2 ^ n)%nat.
Proof.
  intros Hp Hc Hs. unfold conflict_offsets_spec. rewrite length_product.
  assert (length (zip_with Z.sub prev cur) = n) as Hd by solve_length.
  clear Hp Hc. revert Hd Hs. generalize (zip_with Z.sub prev cur).
  intros d. revert level_stride n.
  induction d as [|x d IH]; intros [|s ss] n Hd Hs;
    cbn [zip_with fmap list_fmap foldr length] in *; subst; try done.
  injection Hs as Hs. rewrite (IH ss (length d)) by done.
  unfold conflict_axis. destruct (x <? 0); cbn [length Nat.pow]; lia.
Qed.

Lemma level_conflict_offsets_Ok (read_write_conflict : bool)
    (level_stride : Coord) (n : nat) (level_offsets : list Coord)
    (prev : option Coord) :
  Forall (λ o, length o = n) level_offsets →
  (∀ p, prev = Some p → length p = n) →
  level_conflict_offsets read_write_conflict level_stride prev level_offsets
  = Ok (zip_with (conflicts_of read_write_conflict level_stride)
          (prev :: (Some <$> level_offsets)) level_offsets).
Proof.
  intros Ho. revert prev.
  induction Ho as [|cur offs Hcur Ho IH]; intros prev Hprev; [done|].
  simpl. rewrite IH by (by intros p [= <-]). unfold conflicts_of at 2.
  destruct prev as [p|]; [|done].
  destruct read_write_conflict; [|done].
  rewrite get_conflict_offsets_Ok; [done|]. rewrite (Hprev p eq_refl). done.
Qed.

(** C3. The conflict offsets of level 0 are empty, and all are empty when
    [read_write_conflict] is false; otherwise those of a level L > 0 are the
    Cartesian product, in product order, of the per-axis pairs
    [Δ, Δ + level_stride] when [Δ < 0] and [Δ − level_stride, Δ] when
    [Δ ≥ 0], with [Δ = prev_level_offset − level_offset]: [2^N] entries. *)
Theorem level_conflict_offsets_product (read_write_conflict : bool)
    (level_stride : Coord) (n : nat) (level_offsets : list Coord) :
  length level_stride = n →
  Forall (λ o, length o = n) level_offsets →
  ∃ lco,
    level_conflict_offsets read_write_conflict level_stride None
      level_offsets = Ok lco ∧
    length lco = length level_offsets ∧
    (∀ cos, lco !! 0%nat = Some cos → cos = []) ∧
    (read_write_conflict = false →
     ∀ level cos, lco !! level = Some cos → cos = []) ∧
    (read_write_conflict = true →
     ∀ level prev_level_offset level_offset,
       level_offsets !! level = Some prev_level_offset →
       level_offsets !! S level = Some level_offset →
       lco !! S level
       = Some (product
                 (zip_with
                    (λ delta ls,
                       if delta <? 0 then [delta; delta + ls]
                       else [delta - ls; delta])
                    (zip_with Z.sub prev_level_offset level_offset)
                    level_stride)) ∧
       ∀ cos, lco !! S level = Some cos → length cos = (2 ^ n)%nat).
Proof.
  intros Hs Ho.
  exists (zip_with (conflicts_of read_write_conflict level_stride)
            (None :: (Some <$> level_offsets)) level_offsets).
  split; [by eapply level_conflict_offsets_Ok|].
  split; [rewrite length_zip_with, length_cons, length_fmap; lia|].
  split; [|split].
  - intros cos. destruct level_offsets; [done|]. by intros [= <-].
  - intros -> level cos. rewrite lookup_zip_with.
    destruct ((None :: (Some <$> level_offsets)) !! level) as [[p|]|];
      simpl; [| |done]; destruct (level_offsets !! level); by intros [= <-].
  - intros -> level prev cur Hprev Hcur.
    assert (zip_with (conflicts_of true level_stride)
              (None :: (Some <$> level_offsets)) level_offsets !! S level
            = Some (conflict_offsets_spec prev cur level_stride)) as Hl.
    { rewrite lookup_zip_with. simpl. rewrite list_lookup_fmap, Hprev, Hcur.
      done. }
    split; [exact Hl|]. intros cos. rewrite Hl. intros [= <-].
    rewrite Forall_lookup in Ho.
    apply length_conflict_offsets_spec; eauto.
Qed.

Lemma level_conflict_offsets_product_witness :
  length [20] = 1%nat ∧
  Forall (λ o : Coord, length o = 1%nat) [[10]; [0]] ∧
  ∃ lco,
    level_conflict_offsets true [20] None [[10]; [0]] = Ok lco ∧
    lco !! 1%nat = Some [[-10]; [10]].
Proof.
  assert (Forall (λ o : Coord, length o = 1%nat) [[10]; [0]]) as Ho
    by (by repeat constructor).
  split; [reflexivity|]. split; [exact Ho|].
  destruct (level_conflict_offsets_product true [20] 1 [[10]; [0]]
              eq_refl Ho) as (lco & H & _ & _ & _ & Hc).
  exists lco. split; [exact H|].
  exact (proj1 (Hc eq_refl 0%nat [10] [0] eq_refl eq_refl)).
Defined.

(** ** The planner on inputs of one dimension *)

Lemma contains_roi_dims (r o : Roi) (n : nat) :
  dims r n → dims o n → contains_roi r o = Ok (roi_in r o).
Proof. intros. apply contains_roi_Ok. eauto. Qed.

Lemma contains_point_dims (r : Roi) (p : Coord) (n : nat) :
  dims r n → length p = n → contains_point r p = Ok (point_in r p).
Proof. intros. apply contains_point_Ok. eauto. Qed.

Lemma translate_dims_Ok (r : Roi) (d : Coord) (n : nat) :
  dims r n → length d = n → translate r d = Ok (translate_dims r d).
Proof. intros [? ?] ?. apply translate_Ok. split; [lia|done]. Qed.

Lemma block_at_dims (total read write : Roi) (off : Coord) (n : nat) :
  dims read n → dims write n → length off = n →
  block_dims (block_at total read write off) n.
Proof. intros. split; by apply translate_dims_dims. Qed.

Lemma inclusion_criteria_dims (fit : Fit) (total : Roi) (b : Block) (n : nat) :
  dims total n → block_dims b n →
  inclusion_criteria fit total b
  = Ok (included fit total b, checked fit total b).
Proof.
  intros Ht [Hr Hw]. destruct fit; simpl.
  - by rewrite (contains_roi_dims _ _ n).
  - unfold get_begin. rewrite (contains_point_dims _ _ n); [done..|apply Hw].
  - apply shrink_possible_Ok.
    assert (contains_point total (offset (write_roi b))
            = Ok (point_in total (offset (write_roi b)))) as Hp
      by (apply (contains_point_dims _ _ n); [done|apply Hw]).
    destruct (point_in total (offset (write_roi b))); simpl.
    + right. split; [done|]. split; [|done]. exists n. split; [done|].
      by split.
    + by left.
Qed.

Lemma checked_dims (fit : Fit) (total : Roi) (b : Block) (n : nat) :
  dims total n → block_dims b n → block_dims (checked fit total b) n.
Proof.
  intros Ht Hb. destruct fit; simpl; try done.
  destruct (point_in _ _); [by apply shrink_dims_dims|done].
Qed.

Lemma fit_block_checked (fit : Fit) (total : Roi) (b : Block) (n : nat) :
  dims total n → block_dims b n → included fit total b = true →
  fit_block fit total (checked fit total b) = Ok (fitted fit total b).
Proof.
  intros Ht Hb Hi. destruct fit; simpl in *; try done.
  apply andb_true_iff in Hi as [-> _]. apply shrink_Ok. split.
  - exists n. split; [done|]. by apply shrink_dims_dims.
  - by rewrite shrink_dims_idem.
Qed.

Lemma enumerate_conflict_dims (fit : Fit) (total : Roi) (b1 : Block)
    (co : Coord) (n : nat) :
  dims total n → block_dims b1 n → length co = n →
  enumerate_conflict fit total b1 co = Ok (conflict_at fit total b1 co).
Proof.
  intros Ht [Hr Hw] Hco. unfold enumerate_conflict, conflict_at.
  rewrite (translate_dims_Ok _ _ n) by done. simpl.
  rewrite (translate_dims_Ok _ _ n) by done. simpl.
  fold (block_at total (read_roi b1) (write_roi b1) co).
  assert (block_dims (block_at total (read_roi b1) (write_roi b1) co) n)
    as Hc by by apply block_at_dims.
  rewrite (inclusion_criteria_dims _ _ _ n) by done. simpl.
  destruct (included fit total _) eqn:Hi; simpl; [|done].
  by rewrite (fit_block_checked _ _ _ n).
Qed.

Lemma omap_id_fmap {A B} (f : A → option B) (l : list A) :
  omap id (f <$> l) = omap f l.
Proof.
  induction l as [|x l IH]; [done|]. csimpl. rewrite IH. by destruct (f x).
Qed.

Lemma enumerate_block_dims (fit : Fit) (total read write : Roi)
    (cos : list Coord) (off : Coord) (n : nat) :
  dims total n → dims read n → dims write n →
  Forall (λ co, length co = n) cos → length off = n →
  enumerate_block fit total read write cos off
  = Ok (entry_at fit total read write cos off).
Proof.
  intros Ht Hr Hw Hcos Hoff. unfold enumerate_block, entry_at.
  rewrite (translate_dims_Ok _ _ n) by done. simpl.
  rewrite (translate_dims_Ok _ _ n) by done. simpl.
  fold (block_at total read write off).
  assert (block_dims (block_at total read write off) n)
    as Hb by by apply block_at_dims.
  rewrite (inclusion_criteria_dims _ _ _ n) by done. simpl.
  destruct (included fit total _) eqn:Hi; simpl; [|done].
  rewrite (mapM_Ok_fmap _ (conflict_at fit total
             (checked fit total (block_at total read write off)))).
  - simpl. rewrite (fit_block_checked _ _ _ n) by done. simpl.
    by rewrite omap_id_fmap.
  - eapply Forall_impl; [exact Hcos|]. intros co Hco. simpl in Hco.
    apply (enumerate_conflict_dims _ _ _ _ n); [done| |done].
    by apply checked_dims.
Qed.

Lemma enumerate_blocks_dims (fit : Fit) (total read write : Roi)
    (cos offs : list Coord) (n : nat) :
  dims total n → dims read n → dims write n →
  Forall (λ co, length co = n) cos → Forall (λ o, length o = n) offs →
  enumerate_blocks total read write cos offs fit
  = Ok (omap (entry_at fit total read write cos) offs).
Proof.
  intros Ht Hr Hw Hcos Hoffs. unfold enumerate_blocks.
  rewrite (mapM_Ok_fmap _ (entry_at fit total read write cos)).
  - simpl. by rewrite omap_id_fmap.
  - eapply Forall_impl; [exact Hoffs|]. intros off Hoff.
    by apply (enumerate_block_dims _ _ _ _ _ _ n).
Qed.

Lemma elem_of_product {A} (ls : list (list A)) (x : list A) :
  x ∈ product ls ↔ Forall2 (λ a l, a ∈ l) x ls.
Proof.
  revert x. induction ls as [|l ls IH]; intros x; simpl.
  - rewrite list_elem_of_singleton. split.
    + intros ->. constructor.
    + by intros ->%Forall2_nil_inv_r.
  - rewrite list_elem_of_bind. split.
    + intros (a & Hx & Ha). apply list_elem_of_fmap in Hx as (y & -> & Hy).
      constructor; [done|]. by apply IH.
    + intros (a & y & Ha & Hy & ->)%Forall2_cons_inv_r.
      exists a. split; [|done]. apply list_elem_of_fmap. exists y.
      split; [done|]. by apply IH.
Qed.

Lemma length_elem_of_product {A} (ls : list (list A)) (x : list A) :
  x ∈ product ls → length x = length ls.
Proof. rewrite elem_of_product. apply Forall2_length. Qed.

Lemma getitem_lookup {A} (l : list A) (i : nat) (x : A) :
  l !! i = Some x → getitem l i = Ok x.
Proof. unfold getitem. by intros ->. Qed.

Lemma length_zip3 {A B C} (a : list A) (b : list B) (c : list C) (n : nat) :
  length a = n → length b = n → length c = n → length (zip3 a b c) = n.
Proof. intros. unfold zip3. rewrite !length_zip_with. lia. Qed.

Lemma block_offsets_at_length (total read : Roi) (level_stride lo : Coord)
    (n : nat) :
  dims total n → dims read n → length level_stride = n → length lo = n →
  Forall (λ o, length o = n) (block_offsets_at total read level_stride lo).
Proof.
  intros [Ht1 Ht2] [Hr1 Hr2] Hs Hlo. apply Forall_forall. intros o Ho.
  unfold block_offsets_at in Ho.
  apply list_elem_of_fmap in Ho as (o' & -> & Ho').
  apply length_elem_of_product in Ho'.
  rewrite length_fmap, (length_zip3 _ _ _ n) in Ho' by done.
  rewrite !length_zip_with. lia.
Qed.

Lemma level_blocks_dims (fit : Fit) (total read write : Roi)
    (level_stride : Coord) (level_offsets : list Coord)
    (lco : list (list Coord)) (level : nat) (lo : Coord) (cos : list Coord)
    (n : nat) :
  dims total n → dims read n → dims write n →
  length level_stride = n → Forall (λ s, 0 < s) level_stride →
  level_offsets !! level = Some lo → length lo = n →
  lco !! level = Some cos → Forall (λ co, length co = n) cos →
  level_blocks total read write fit level_stride level_offsets lco level
  = Ok (level_at fit total read write level_stride lo cos).
Proof.
  intros Ht Hr Hw Hs Hpos Hlo Hn Hcos Hlen. unfold level_blocks.
  rewrite (getitem_lookup _ _ _ Hlo). simpl.
  rewrite (mapM_Ok_fmap _
             (λ les : Z * Z * Z, range_list les.1.1 les.1.2 les.2)).
  2:{ apply Forall_forall. intros [[l e] s] Hin. simpl. unfold range.
      apply elem_of_zip_r in Hin. rewrite Forall_forall in Hpos.
      specialize (Hpos s Hin). destruct (Z.eqb_spec s 0); [lia|done]. }
  simpl.
  pose proof (block_offsets_at_length total read level_stride lo n
                Ht Hr Hs Hn) as Hoffs.
  rewrite (mapM_Ok_fmap _
    (λ o, zip_with Z.add o (zip_with Z.sub (offset total) (offset read)))).
  2:{ apply Forall_forall. intros o Ho. unfold get_begin, coord_sub, coord_add.
      destruct Ht as [Ht1 Ht2], Hr as [Hr1 Hr2].
      rewrite coord_zip_dims by lia. simpl.
      apply length_elem_of_product in Ho.
      rewrite length_fmap in Ho.
      unfold get_shape in Ho. rewrite (length_zip3 _ _ _ n) in Ho by done.
      rewrite coord_zip_dims; [done|]. rewrite length_zip_with. lia. }
  simpl. rewrite (getitem_lookup _ _ _ Hcos). simpl.
  by apply (enumerate_blocks_dims _ _ _ _ _ _ n).
Qed.

Lemma ceil_round_bounds (l w : Z) :
  0 < w → l ≤ ceil_div l w * w ∧ (w | ceil_div l w * w).
Proof.
  intros Hw. split; [|by exists (ceil_div l w)].
  by apply (ceil_div_least l w (ceil_div l w) Hw).
Qed.

Lemma level_stride_spec_lookup (read write : Roi) (i : nat)
    (rb rs wb ws : Z) :
  offset read !! i = Some rb → shape read !! i = Some rs →
  offset write !! i = Some wb → shape write !! i = Some ws →
  level_stride_spec read write !! i
  = Some (ceil_div (Z.max (wb - rb) (rb + rs - (wb + ws)) + ws) ws * ws).
Proof.
  intros Hrb Hrs Hwb Hws. unfold level_stride_spec, max_context_spec.
  by rewrite !lookup_zip_with, Hrb, Hrs, Hwb, Hws.
Qed.

Section ValidInput.

Context (total read write : Roi) (n : nat).
Hypothesis total_dims : dims total n.
Hypothesis read_dims : dims read n.
Hypothesis write_dims : dims write n.
Hypothesis read_contains_write : contains_roi read write = Ok true.
Hypothesis write_shape_positive : Forall (λ w, 0 < w) (shape write).

Lemma level_stride_length : length (level_stride_spec read write) = n.
Proof.
  destruct read_dims, write_dims.
  unfold level_stride_spec, max_context_spec. solve_length.
Qed.

(** On every axis the level stride is a multiple of the write shape that
    leaves room for the write shape and the larger context. *)
Lemma level_stride_axis (i : nat) (rb rs wb ws s : Z) :
  offset read !! i = Some rb → shape read !! i = Some rs →
  offset write !! i = Some wb → shape write !! i = Some ws →
  level_stride_spec read write !! i = Some s →
  0 < ws ∧ rb ≤ wb ∧ wb + ws ≤ rb + rs ∧ (ws | s) ∧
  wb - rb + ws ≤ s ∧ rb + rs - wb ≤ s.
Proof.
  intros Hrb Hrs Hwb Hws Hs.
  rewrite (level_stride_spec_lookup _ _ _ _ _ _ _ Hrb Hrs Hwb Hws) in Hs.
  injection Hs as <-.
  assert (0 < ws) as Hpos.
  { pose proof write_shape_positive as H. rewrite Forall_lookup in H.
    by apply (H i). }
  pose proof read_contains_write as Hc.
  apply contains_roi_true in Hc as [_ Hc].
  destruct (Hc i _ _ _ _ Hrb Hrs Hwb Hws) as [? ?].
  destruct (ceil_round_bounds
              (Z.max (wb - rb) (rb + rs - (wb + ws)) + ws) ws Hpos)
    as [? ?].
  repeat split; try done; lia.
Qed.

Lemma level_stride_positive : Forall (λ s, 0 < s) (level_stride_spec read write).
Proof.
  apply Forall_lookup. intros i s Hs.
  pose proof level_stride_length as Hl.
  destruct read_dims as [Hr1 Hr2], write_dims as [Hw1 Hw2].
  apply lookup_lt_Some in Hs as Hi.
  destruct (lookup_lt_is_Some_2 (offset read) i) as [rb Hrb]; [lia|].
  destruct (lookup_lt_is_Some_2 (shape read) i) as [rs Hrs]; [lia|].
  destruct (lookup_lt_is_Some_2 (offset write) i) as [wb Hwb]; [lia|].
  destruct (lookup_lt_is_Some_2 (shape write) i) as [ws Hws]; [lia|].
  destruct (level_stride_axis i _ _ _ _ _ Hrb Hrs Hwb Hws Hs)
    as (? & ? & ? & ? & ? & ?). lia.
Qed.

Lemma level_offsets_length :
  Forall (λ o : Coord, length o = n)
    (level_offsets_spec (shape write) (level_stride_spec read write)).
Proof.
  apply Forall_forall. intros o Ho. unfold level_offsets_spec in Ho.
  apply elem_of_reverse, length_elem_of_product in Ho.
  rewrite length_zip_with, level_stride_length in Ho.
  destruct write_dims. lia.
Qed.

Lemma conflicts_of_length (read_write_conflict : bool) (prev : option Coord)
    (cur : Coord) :
  (∀ p, prev = Some p → length p = n) → length cur = n →
  Forall (λ co : Coord, length co = n)
    (conflicts_of read_write_conflict (level_stride_spec read write)
       prev cur).
Proof.
  intros Hp Hc. unfold conflicts_of. destruct prev as [p|]; [|done].
  destruct read_write_conflict; [|done].
  apply Forall_forall. intros co Hco. unfold conflict_offsets_spec in Hco.
  apply length_elem_of_product in Hco.
  rewrite !length_zip_with, level_stride_length, (Hp p eq_refl) in Hco. lia.
Qed.

Lemma level_conflicts_length (read_write_conflict : bool) :
  let level_stride := level_stride_spec read write in
  let level_offsets := level_offsets_spec (shape write) level_stride in
  Forall (Forall (λ co : Coord, length co = n))
    (zip_with (conflicts_of read_write_conflict level_stride)
       (None :: (Some <$> level_offsets)) level_offsets).
Proof.
  intros level_stride level_offsets. apply Forall_lookup. intros i cos Hi.
  apply lookup_zip_with_Some in Hi as (prev & cur & -> & Hprev & Hcur).
  pose proof level_offsets_length as Hl. rewrite Forall_lookup in Hl.
  apply conflicts_of_length; [|by eapply Hl].
  intros p ->. destruct i as [|i]; [done|]. simpl in Hprev.
  rewrite list_lookup_fmap in Hprev.
  destruct (level_offsets !! i) eqn:E; [|done]. injection Hprev as ->.
  by eapply Hl.
Qed.

Lemma create_dependency_graph_levels_Ok (read_write_conflict : bool)
    (fit : Fit) :
  create_dependency_graph_levels total read write read_write_conflict fit
  = Ok (levels_at fit read_write_conflict total read write).
Proof.
  unfold create_dependency_graph_levels.
  rewrite compute_level_stride_Ok by done. simpl.
  rewrite compute_level_offsets_Ok by done. simpl.
  rewrite (level_conflict_offsets_Ok _ _ n)
    by (done || apply level_offsets_length). simpl.
  apply mapM_Ok. unfold levels_at.
  set (level_stride := level_stride_spec read write).
  set (level_offsets := level_offsets_spec (shape write) level_stride).
  set (lco := zip_with _ (None :: _) _).
  apply Forall2_same_length_lookup. split.
  { rewrite length_seq, length_zip_with. unfold lco.
    rewrite length_zip_with, length_cons, length_fmap. lia. }
  intros i level lvl Hlevel Hlvl.
  apply lookup_seq in Hlevel as [-> _]. simpl.
  apply lookup_zip_with_Some in Hlvl as (lo & cos & -> & Hlo & Hcos).
  pose proof level_offsets_length as Hl. rewrite Forall_lookup in Hl.
  pose proof (level_conflicts_length read_write_conflict) as Hc.
  simpl in Hc. rewrite Forall_lookup in Hc.
  apply (level_blocks_dims _ _ _ _ _ _ _ _ _ _ n); try done.
  - apply level_stride_length.
  - apply level_stride_positive.
  - by eapply Hl.
  - by eapply Hc.
Qed.

Lemma create_dependency_graph_Ok (read_write_conflict : bool) (fit : Fit) :
  create_dependency_graph total read write read_write_conflict fit
  = Ok (concat (levels_at fit read_write_conflict total read write)).
Proof.
  unfold create_dependency_graph.
  by rewrite create_dependency_graph_levels_Ok.
Qed.

End ValidInput.

(** ** C1: independence within a level *)

Lemma empty_lookup (r : Roi) (i : nat) :
  shape r !! i = Some 0 → empty r = true.
Proof.
  intros H. unfold empty. apply existsb_exists. exists 0. split; [|done].
  apply list_elem_of_In, list_elem_of_lookup. by exists i.
Qed.

Lemma point_in_true (r : Roi) (p : Coord) :
  point_in r p = true →
  ∀ i b s x, offset r !! i = Some b → shape r !! i = Some s →
    p !! i = Some x → b ≤ x < b + s.
Proof.
  unfold point_in. intros [H1 H2]%andb_true_iff i b s x Hb Hs Hx.
  rewrite forallb_zip_lookup in H1, H2.
  specialize (H1 i b x Hb Hx). specialize (H2 i x (b + s) Hx).
  unfold end_of in H2. rewrite lookup_zip_with, Hb, Hs in H2.
  specialize (H2 eq_refl). simpl in *. lia.
Qed.

(** Rewrite the lookups of element-wise operations with the lookups known
    from the context. *)
Ltac axis_lookup :=
  unfold grow_dims, intersect_dims, translate_dims, end_of; simpl;
  repeat first
    [ rewrite lookup_zip_with
    | rewrite list_lookup_fmap
    | match goal with H : ?l !! ?i = Some _ |- context [?l !! ?i] =>
        rewrite H
      end ];
  simpl.

(** On every axis, the read and write intervals of a fitted block lie
    inside those of the block it is made from. *)
Lemma fitted_axis (fit : Fit) (total read write : Roi) (off : Coord)
    (i : nat) (tb ts rb rs wb ws x : Z) :
  included fit total (block_at total read write off) = true →
  offset total !! i = Some tb → shape total !! i = Some ts →
  offset read !! i = Some rb → shape read !! i = Some rs →
  offset write !! i = Some wb → shape write !! i = Some ws →
  off !! i = Some x →
  0 < ws → rb ≤ wb → wb + ws ≤ rb + rs →
  let b := fitted fit total (block_at total read write off) in
  ∃ frb frs fwb fws,
    offset (read_roi b) !! i = Some frb ∧ shape (read_roi b) !! i = Some frs ∧
    offset (write_roi b) !! i = Some fwb ∧
    shape (write_roi b) !! i = Some fws ∧
    rb + x ≤ frb ∧ frb + frs ≤ rb + x + rs ∧
    wb + x ≤ fwb ∧ fwb + fws ≤ wb + x + ws.
Proof.
  intros Hinc Htb Hts Hrb Hrs Hwb Hws Hx Hpos Hlo Hhi b.
  destruct fit; simpl in b.
  1,2: exists (rb + x), rs, (wb + x), ws; subst b;
       repeat split; try lia; by axis_lookup.
  simpl in Hinc. apply andb_true_iff in Hinc as [Hp _].
  pose proof (point_in_true _ _ Hp i tb ts (wb + x) Htb Hts) as Hin.
  simpl in Hin. rewrite lookup_zip_with, Hwb, Hx in Hin.
  specialize (Hin eq_refl).
  subst b. unfold shrink_dims. simpl.
  do 4 eexists.
  split; [by axis_lookup|]. split; [by axis_lookup|].
  split; [by axis_lookup|]. split; [by axis_lookup|]. lia.
Qed.

Lemma fitted_dims (fit : Fit) (total : Roi) (b : Block) (n : nat) :
  dims total n → block_dims b n → block_dims (fitted fit total b) n.
Proof.
  intros Ht Hb. destruct fit; simpl; try done. by apply shrink_dims_dims.
Qed.

Lemma intersect_empty_axis (a b : Roi) (n i : nat) (ab as' bb bs : Z) :
  dims a n → dims b n →
  offset a !! i = Some ab → shape a !! i = Some as' →
  offset b !! i = Some bb → shape b !! i = Some bs →
  ab + as' ≤ bb ∨ bb + bs ≤ ab →
  ∃ x, intersect a b = Ok x ∧ empty x = true.
Proof.
  intros Ha Hb Hab Has Hbb Hbs Hdisj. exists (intersect_dims a b). split.
  - apply intersect_Ok. eauto.
  - apply (empty_lookup _ i). axis_lookup. f_equal. lia.
Qed.

Section Independence.

Context (total read write : Roi) (n : nat).
Hypothesis total_dims : dims total n.
Hypothesis read_dims : dims read n.
Hypothesis write_dims : dims write n.
Hypothesis read_contains_write : contains_roi read write = Ok true.
Hypothesis write_shape_positive : Forall (λ w, 0 < w) (shape write).

Lemma far_independent (fit : Fit) (p q : Coord) :
  length p = n → length q = n →
  far (level_stride_spec read write) p q →
  included fit total (block_at total read write p) = true →
  included fit total (block_at total read write q) = true →
  independent (fitted fit total (block_at total read write p))
              (fitted fit total (block_at total read write q)).
Proof.
  intros Hp Hq (i & s & x & y & Hs & Hx & Hy & Hfar) Hip Hiq.
  destruct total_dims as [Ht1 Ht2], read_dims as [Hr1 Hr2],
    write_dims as [Hw1 Hw2].
  apply lookup_lt_Some in Hx as Hi.
  destruct (lookup_lt_is_Some_2 (offset total) i) as [tb Htb]; [lia|].
  destruct (lookup_lt_is_Some_2 (shape total) i) as [ts Hts]; [lia|].
  destruct (lookup_lt_is_Some_2 (offset read) i) as [rb Hrb]; [lia|].
  destruct (lookup_lt_is_Some_2 (shape read) i) as [rs Hrs]; [lia|].
  destruct (lookup_lt_is_Some_2 (offset write) i) as [wb Hwb]; [lia|].
  destruct (lookup_lt_is_Some_2 (shape write) i) as [ws Hws]; [lia|].
  destruct (level_stride_axis read write read_contains_write
              write_shape_positive i _ _ _ _ _ Hrb Hrs Hwb Hws Hs)
    as (Hpos & Hlo & Hhi & _ & Hs1 & Hs2).
  destruct (fitted_axis fit total read write p i _ _ _ _ _ _ _
              Hip Htb Hts Hrb Hrs Hwb Hws Hx Hpos Hlo Hhi)
    as (arb & ars & awb & aws & Ha1 & Ha2 & Ha3 & Ha4 & ? & ? & ? & ?).
  destruct (fitted_axis fit total read write q i _ _ _ _ _ _ _
              Hiq Htb Hts Hrb Hrs Hwb Hws Hy Hpos Hlo Hhi)
    as (brb & brs & bwb & bws & Hb1 & Hb2 & Hb3 & Hb4 & ? & ? & ? & ?).
  assert (block_dims (fitted fit total (block_at total read write p)) n)
    as [Hda1 Hda2] by (apply fitted_dims, block_at_dims; done).
  assert (block_dims (fitted fit total (block_at total read write q)) n)
    as [Hdb1 Hdb2] by (apply fitted_dims, block_at_dims; done).
  split.
  - apply (intersect_empty_axis _ _ n i awb aws brb brs); try done. lia.
  - apply (intersect_empty_axis _ _ n i arb ars bwb bws); try done. lia.
Qed.

End Independence.

(** *** Relations that hold between any two elements of a list *)

Lemma FOP_impl {A} (P R : A → A → Prop) (l : list A) :
  ForallOrdPairs P l →
  (∀ x y, x ∈ l → y ∈ l → P x y → R x y) →
  ForallOrdPairs R l.
Proof.
  induction 1 as [|x l Hx Hl IH]; intros HPR; constructor.
  - rewrite Forall_forall in Hx |- *. intros y Hy.
    apply HPR; [left|by right|by apply Hx].
  - apply IH. intros y z Hy Hz. apply HPR; by right.
Qed.

Lemma FOP_app {A} (R : A → A → Prop) (l k : list A) :
  ForallOrdPairs R l → ForallOrdPairs R k →
  (∀ x y, x ∈ l → y ∈ k → R x y) →
  ForallOrdPairs R (l ++ k).
Proof.
  induction 1 as [|x l Hx Hl IH]; intros Hk Hlk; simpl; [done|].
  constructor.
  - apply Forall_app. split; [done|]. apply Forall_forall. intros y Hy.
    apply Hlk; [left|done].
  - apply IH; [done|]. intros y z Hy Hz. apply Hlk; [by right|done].
Qed.

Lemma FOP_fmap {A B} (f : A → B) (R : B → B → Prop) (l : list A) :
  ForallOrdPairs (λ x y, R (f x) (f y)) l → ForallOrdPairs R (f <$> l).
Proof.
  induction 1 as [|x l Hx Hl IH]; csimpl; constructor; [|done].
  by apply Forall_fmap.
Qed.

Lemma FOP_bind {A B} (f : A → list B) (P : A → A → Prop)
    (R : B → B → Prop) (l : list A) :
  ForallOrdPairs P l →
  (∀ x, ForallOrdPairs R (f x)) →
  (∀ x y a b, P x y → a ∈ f x → b ∈ f y → R a b) →
  ForallOrdPairs R (l ≫= f).
Proof.
  intros Hl Hf HPR. induction Hl as [|x l Hx Hl IH]; [constructor|].
  rewrite bind_cons. apply FOP_app; [done..|].
  intros a b Ha Hb. apply list_elem_of_bind in Hb as (y & Hb & Hy).
  rewrite Forall_forall in Hx. eapply HPR; [by apply Hx|done..].
Qed.

Lemma FOP_lookup {A} (R : A → A → Prop) (l : list A) (i j : nat) (x y : A) :
  ForallOrdPairs R l → (i < j)%nat →
  l !! i = Some x → l !! j = Some y → R x y.
Proof.
  intros Hl. revert i j. induction Hl as [|z l Hz Hl IH]; intros i j Hij Hi Hj.
  - done.
  - destruct j as [|j]; [lia|]. destruct i as [|i]; simpl in *.
    + injection Hi as ->. rewrite Forall_forall in Hz. apply Hz.
      by eapply list_elem_of_lookup_2.
    + apply (IH i j); [lia|done..].
Qed.

Lemma FOP_omap {A B} (f : A → option B) (P : A → A → Prop)
    (R : B → B → Prop) (l : list A) :
  ForallOrdPairs P l →
  (∀ x y a b, P x y → f x = Some a → f y = Some b → R a b) →
  ForallOrdPairs R (omap f l).
Proof.
  intros Hl HPR. induction Hl as [|x l Hx Hl IH]; [constructor|].
  csimpl. destruct (f x) as [a|] eqn:Ha; [|done]. constructor; [|done].
  apply Forall_forall. intros b Hb.
  apply list_elem_of_omap in Hb as (y & Hy & Hb).
  rewrite Forall_forall in Hx. eapply HPR; [by apply Hx|done..].
Qed.

Lemma FOP_seq (j m : nat) : ForallOrdPairs lt (seq j m).
Proof.
  revert j. induction m as [|m IH]; intros j; simpl; constructor; [|done].
  apply Forall_forall. intros k Hk. apply elem_of_seq in Hk. lia.
Qed.

(** *** The block offsets of a level *)

Lemma range_list_far (lo e s : Z) :
  0 < s →
  ForallOrdPairs (λ x y, s ≤ x - y ∨ s ≤ y - x) (range_list lo e s).
Proof.
  intros Hs. unfold range_list. apply FOP_fmap.
  eapply FOP_impl; [apply FOP_seq|]. intros j k _ _ Hjk. simpl in Hjk.
  right. nia.
Qed.

Lemma far_cons_same (s x : Z) (S p q : Coord) :
  far S p q → far (s :: S) (x :: p) (x :: q).
Proof.
  intros (i & si & a & b & ? & ? & ? & ?). by exists (Datatypes.S i), si, a, b.
Qed.

Lemma product_far (S : Coord) (ls : list (list Z)) :
  Forall2 (λ s l, ForallOrdPairs (λ x y, s ≤ x - y ∨ s ≤ y - x) l) S ls →
  ForallOrdPairs (far S) (product ls).
Proof.
  induction 1 as [|s l S ls Hl _ IH]; simpl.
  - repeat constructor.
  - eapply FOP_bind; [exact Hl| |].
    + intros x. apply FOP_fmap. eapply FOP_impl; [exact IH|].
      intros p q _ _. apply far_cons_same.
    + intros x y a b Hxy Ha Hb.
      apply list_elem_of_fmap in Ha as (p & -> & _).
      apply list_elem_of_fmap in Hb as (q & -> & _).
      by exists 0%nat, s, x, y.
Qed.

Lemma far_translate (S p q d : Coord) :
  length d = length p → length d = length q →
  far S p q → far S (zip_with Z.add p d) (zip_with Z.add q d).
Proof.
  intros Hp Hq (i & s & x & y & Hs & Hx & Hy & Hfar).
  destruct (lookup_lt_is_Some_2 d i) as [di Hdi].
  { apply lookup_lt_Some in Hx. lia. }
  exists i, s, (x + di), (y + di).
  rewrite !lookup_zip_with, Hx, Hy, Hdi. repeat split; try done. lia.
Qed.

Lemma block_offsets_at_far (total read : Roi) (level_stride lo : Coord)
    (n : nat) :
  dims total n → dims read n → length level_stride = n → length lo = n →
  Forall (λ s, 0 < s) level_stride →
  ForallOrdPairs (far level_stride)
    (block_offsets_at total read level_stride lo).
Proof.
  intros [Ht1 Ht2] [Hr1 Hr2] Hs Hlo Hpos. unfold block_offsets_at.
  apply FOP_fmap. eapply FOP_impl.
  - apply (product_far level_stride).
    apply Forall2_same_length_lookup. split.
    { by rewrite length_fmap, (length_zip3 _ _ _ n). }
    intros i s l Hsi Hl. rewrite list_lookup_fmap in Hl.
    unfold zip3 in Hl. rewrite lookup_zip_with, Hsi in Hl.
    destruct (zip lo (shape total) !! i) as [[l0 e]|]; [|done].
    simpl in Hl. injection Hl as <-. simpl. apply range_list_far.
    rewrite Forall_lookup in Hpos. by eapply Hpos.
  - intros p q Hp Hq. simpl.
    apply length_elem_of_product in Hp, Hq.
    rewrite length_fmap, (length_zip3 _ _ _ n) in Hp, Hq by done.
    apply far_translate; rewrite length_zip_with; lia.
Qed.

Lemma level_at_independent (fit : Fit) (total read write : Roi)
    (lo : Coord) (cos : list Coord) (n : nat) :
  dims total n → dims read n → dims write n →
  contains_roi read write = Ok true →
  Forall (λ w, 0 < w) (shape write) →
  length lo = n →
  ForallOrdPairs (λ e e', independent e.1 e'.1 ∧ independent e'.1 e.1)
    (level_at fit total read write (level_stride_spec read write) lo cos).
Proof.
  intros Ht Hr Hw Hc Hpos Hlo. unfold level_at.
  pose proof (level_stride_length total read write n Ht Hr Hw) as Hs.
  pose proof (level_stride_positive total read write n Ht Hr Hw Hc Hpos) as Hsp.
  pose proof (block_offsets_at_length total read _ lo n Ht Hr Hs Hlo) as Hlen.
  rewrite Forall_forall in Hlen.
  eapply (FOP_omap _ (λ p q, length p = n ∧ length q = n ∧
            far (level_stride_spec read write) p q)).
  - eapply FOP_impl; [by apply (block_offsets_at_far total read _ lo n)|].
    intros p q Hp Hq Hfar. split; [by apply Hlen|]. split; [by apply Hlen|].
    done.
  - intros p q [a ua] [b ub] (Hp & Hq & Hfar) Ha Hb. unfold entry_at in Ha, Hb.
    destruct (included fit total (block_at total read write p)) eqn:Hip;
      [|done].
    destruct (included fit total (block_at total read write q)) eqn:Hiq;
      [|done].
    injection Ha as <- _. injection Hb as <- _. simpl. split.
    + by apply (far_independent total read write n).
    + apply (far_independent total read write n); try done.
      destruct Hfar as (i & s & x & y & ? & ? & ? & ?).
      exists i, s, y, x. repeat split; try done. tauto.
Qed.

(** C1. On a valid input (the read Roi contains the write Roi, the write
    shape is positive, all Rois of one dimension) and for every fit, two
    distinct blocks that [create_dependency_graph] emits for the same level
    are independent: the write Roi of the one does not intersect the read
    Roi of the other, and the read Roi of the one does not intersect the
    write Roi of the other. *)
Theorem intra_level_independence (total read write : Roi) (n : nat)
    (read_write_conflict : bool) (fit : Fit) :
  dims total n → dims read n → dims write n →
  contains_roi read write = Ok true →
  Forall (λ w, 0 < w) (shape write) →
  ∃ levels,
    create_dependency_graph_levels total read write read_write_conflict fit
      = Ok levels ∧
    create_dependency_graph total read write read_write_conflict fit
      = Ok (concat levels) ∧
    ∀ lvl i j a ua b ub,
      lvl ∈ levels → i ≠ j →
      lvl !! i = Some (a, ua) → lvl !! j = Some (b, ub) →
      independent a b.
Proof.
  intros Ht Hr Hw Hc Hpos.
  exists (levels_at fit read_write_conflict total read write).
  split; [by apply (create_dependency_graph_levels_Ok _ _ _ n)|].
  split; [by apply (create_dependency_graph_Ok _ _ _ n)|].
  intros lvl i j a ua b ub Hlvl Hij Hi Hj.
  apply list_elem_of_lookup in Hlvl as [level Hlvl]. unfold levels_at in Hlvl.
  apply lookup_zip_with_Some in Hlvl as (lo & cos & -> & Hlo & _).
  pose proof (level_offsets_length total read write n Ht Hr Hw) as Hl.
  rewrite Forall_lookup in Hl. specialize (Hl _ _ Hlo). simpl in Hl.
  pose proof (level_at_independent fit total read write lo cos n
                Ht Hr Hw Hc Hpos Hl) as Hfop.
  destruct (decide (i < j)%nat).
  - by destruct (FOP_lookup _ _ i j _ _ Hfop ltac:(done) Hi Hj).
  - by destruct (FOP_lookup _ _ j i _ _ Hfop ltac:(lia) Hj Hi).
Qed.

Lemma intra_level_independence_witness :
  let total := mkRoi [0] [95] in
  let read := mkRoi [0] [30] in
  let write := mkRoi [10] [10] in
  dims total 1 ∧ dims read 1 ∧ dims write 1 ∧
  contains_roi read write = Ok true ∧
  Forall (λ w, 0 < w) (shape write) ∧
  ∃ levels,
    create_dependency_graph_levels total read write true Shrink = Ok levels ∧
    create_dependency_graph total read write true Shrink
      = Ok (concat levels) ∧
    ∀ lvl i j a ua b ub,
      lvl ∈ levels → i ≠ j →
      lvl !! i = Some (a, ua) → lvl !! j = Some (b, ub) →
      independent a b.
Proof.
  intros total read write.
  assert (dims total 1) as Ht by done.
  assert (dims read 1) as Hr by done.
  assert (dims write 1) as Hw by done.
  assert (Forall (λ w, 0 < w) (shape write)) as Hp
    by (by repeat constructor).
  repeat (split; [done|]).
  exact (intra_level_independence total read write 1 true Shrink
           Ht Hr Hw eq_refl Hp).
Defined.

(** ** C6: no block is its own upstream block *)

Lemma progression_range_list (w e : Z) :
  0 < w → progression w e = range_list 0 e w.
Proof.
  intros Hw. pose proof (range_progression e w Hw) as H. unfold range in H.
  destruct (Z.eqb_spec w 0); [lia|]. by injection H as <-.
Qed.

Lemma elem_of_concat {A} (ls : list (list A)) (x : A) :
  x ∈ concat ls ↔ ∃ l, l ∈ ls ∧ x ∈ l.
Proof.
  rewrite list_elem_of_In, in_concat. split.
  - intros (l & Hl & Hx). exists l. by rewrite !list_elem_of_In.
  - intros (l & Hl & Hx). exists l. by rewrite <- !list_elem_of_In.
Qed.

Section LevelOffsets.

Context (total read write : Roi) (n : nat).
Hypothesis total_dims : dims total n.
Hypothesis read_dims : dims read n.
Hypothesis write_dims : dims write n.
Hypothesis read_contains_write : contains_roi read write = Ok true.
Hypothesis write_shape_positive : Forall (λ w, 0 < w) (shape write).

Local Abbreviation level_stride := (level_stride_spec read write).
Local Abbreviation level_offsets :=
  (level_offsets_spec (shape write) level_stride).

(** Two level offsets differ by at least the write shape on some axis. *)
Lemma level_offsets_far (i j : nat) (p q : Coord) :
  i ≠ j → level_offsets !! i = Some p → level_offsets !! j = Some q →
  far (shape write) p q.
Proof.
  assert (ForallOrdPairs (far (shape write))
            (product (zip_with (λ e w, progression w e) level_stride
                        (shape write)))) as Hfop.
  { apply product_far. apply Forall2_same_length_lookup. split.
    { rewrite length_zip_with.
      rewrite (level_stride_length total read write n) by done.
      destruct write_dims. lia. }
    intros k w l Hw Hl.
    apply lookup_zip_with_Some in Hl as (e & w' & -> & He & Hw').
    assert (w' = w) as -> by congruence.
    pose proof write_shape_positive as Hpos. rewrite Forall_lookup in Hpos.
    specialize (Hpos k w Hw). simpl in Hpos.
    rewrite progression_range_list by done. by apply range_list_far. }
  assert (∀ p q, far (shape write) p q → far (shape write) q p) as Hsym.
  { intros p' q' (k & s & x & y & ? & ? & ? & ?).
    exists k, s, y, x. repeat split; try done. tauto. }
  intros Hij Hp Hq. unfold level_offsets_spec in Hp, Hq.
  apply reverse_lookup_Some in Hp as [Hp Hi], Hq as [Hq Hj].
  set (P := product _) in *.
  destruct (decide (i < j)%nat).
  - apply Hsym. eapply (FOP_lookup _ _ _ _ _ _ Hfop); [|exact Hq|exact Hp]. lia.
  - eapply (FOP_lookup _ _ _ _ _ _ Hfop); [|exact Hp|exact Hq]. lia.
Qed.

(** The components of a level offset lie within the level stride. *)
Lemma level_offsets_axis (o : Coord) (i : nat) (x s : Z) :
  o ∈ level_offsets → o !! i = Some x → level_stride !! i = Some s →
  0 ≤ x < s.
Proof.
  intros Ho Hx Hs. unfold level_offsets_spec in Ho.
  apply elem_of_reverse, elem_of_product in Ho.
  destruct (Forall2_lookup_l _ _ _ i x Ho Hx) as (l & Hl & Hin).
  apply lookup_zip_with_Some in Hl as (e & w & -> & He & Hw).
  assert (e = s) as -> by congruence.
  pose proof write_shape_positive as Hpos. rewrite Forall_lookup in Hpos.
  specialize (Hpos i w Hw). simpl in Hpos.
  apply progression_elem in Hin as (k & Hk & -> & Hlt); [|done]. nia.
Qed.

(** A conflict offset between consecutive levels is not the zero offset. *)
Lemma conflict_offset_nonzero (read_write_conflict : bool) (level : nat)
    (cos : list Coord) (co : Coord) :
  zip_with (conflicts_of read_write_conflict level_stride)
    (None :: (Some <$> level_offsets)) level_offsets !! level = Some cos →
  co ∈ cos →
  ∃ i x, co !! i = Some x ∧ x ≠ 0.
Proof.
  intros Hcos Hco.
  apply lookup_zip_with_Some in Hcos as (prev & cur & -> & Hprev & Hcur).
  unfold conflicts_of in Hco. destruct prev as [p|]; [|by inversion Hco].
  destruct read_write_conflict; [|by inversion Hco].
  destruct level as [|level]; [done|]. simpl in Hprev.
  rewrite list_lookup_fmap in Hprev.
  destruct (level_offsets !! level) as [p'|] eqn:Hp; [|done].
  injection Hprev as ->.
  destruct (level_offsets_far level (S level) p cur ltac:(lia) Hp Hcur)
    as (i & w & x & y & Hw & Hx & Hy & Hfar).
  pose proof write_shape_positive as Hpos. rewrite Forall_lookup in Hpos.
  specialize (Hpos i w Hw). simpl in Hpos.
  destruct (lookup_lt_is_Some_2 level_stride i) as [s Hs].
  { rewrite (level_stride_length total read write n) by done.
    apply lookup_lt_Some in Hw. destruct write_dims. lia. }
  assert (0 ≤ x < s) as Hxs.
  { eapply (level_offsets_axis p); [|done..].
    by eapply list_elem_of_lookup_2. }
  assert (0 ≤ y < s) as Hys.
  { eapply (level_offsets_axis cur); [|done..].
    by eapply list_elem_of_lookup_2. }
  unfold conflict_offsets_spec in Hco. apply elem_of_product in Hco.
  destruct (Forall2_lookup_r _ _ _ i (conflict_axis (x - y) s) Hco)
    as (c & Hc & Hin).
  { by rewrite !lookup_zip_with, Hx, Hy, Hs. }
  exists i, c. split; [done|]. unfold conflict_axis in Hin.
  destruct (Z.ltb_spec (x - y) 0);
    apply list_elem_of_In in Hin; simpl in Hin; lia.
Qed.

End LevelOffsets.

Lemma forallb_lookup {A} (f : A → bool) (l : list A) (i : nat) (x : A) :
  forallb f l = true → l !! i = Some x → f x = true.
Proof.
  rewrite forallb_forall. intros H Hx. apply H.
  apply list_elem_of_In. by eapply list_elem_of_lookup_2.
Qed.

(** The block a non-zero conflict offset leads to does not have the write
    Roi of the block it is an upstream block of. *)
Lemma conflict_differs (fit : Fit) (total : Roi) (b0 u : Block)
    (co : Coord) (n i : nat) (x : Z) :
  dims total n → block_dims b0 n → length co = n →
  contains_roi (read_roi b0) (write_roi b0) = Ok true →
  included fit total b0 = true →
  conflict_at fit total (checked fit total b0) co = Some u →
  co !! i = Some x → x ≠ 0 →
  write_roi u ≠ write_roi (fitted fit total b0).
Proof.
  intros [Ht1 Ht2] [[Hr1 Hr2] [Hw1 Hw2]] Hco Hc Hinc Hu Hx Hx0 Heq.
  apply lookup_lt_Some in Hx as Hi.
  destruct b0 as [id tot [rb rs] [wb ws]]. destruct total as [tb ts].
  simpl in *.
  destruct (lookup_lt_is_Some_2 tb i) as [tbi Htb]; [lia|].
  destruct (lookup_lt_is_Some_2 ts i) as [tsi Hts]; [lia|].
  destruct (lookup_lt_is_Some_2 rb i) as [rbi Hrb]; [lia|].
  destruct (lookup_lt_is_Some_2 rs i) as [rsi Hrs]; [lia|].
  destruct (lookup_lt_is_Some_2 wb i) as [wbi Hwb]; [lia|].
  destruct (lookup_lt_is_Some_2 ws i) as [wsi Hws]; [lia|].
  apply contains_roi_true in Hc as [_ Hc].
  specialize (Hc i _ _ _ _ Hrb Hrs Hwb Hws).
  assert (offset (write_roi u) !! i = offset (write_roi
            (fitted fit {| offset := tb; shape := ts |}
               {| block_id := id; total_roi := tot;
                  read_roi := {| offset := rb; shape := rs |};
                  write_roi := {| offset := wb; shape := ws |} |})) !! i)
    as Ho by (by rewrite Heq).
  assert (shape (write_roi u) !! i = shape (write_roi
            (fitted fit {| offset := tb; shape := ts |}
               {| block_id := id; total_roi := tot;
                  read_roi := {| offset := rb; shape := rs |};
                  write_roi := {| offset := wb; shape := ws |} |})) !! i)
    as Hs by (by rewrite Heq).
  clear Heq. unfold conflict_at in Hu.
  destruct (included fit _ (block_at _ _ _ co)) eqn:Hic; [|done].
  injection Hu as <-.
  destruct fit; simpl in *.
  - revert Ho. axis_lookup. intros [=]. lia.
  - revert Ho. axis_lookup. intros [=]. lia.
  - apply andb_true_iff in Hinc as [Hp Hpos]. rewrite Hp in *.
    eassert (shape (write_roi (shrink_dims {| offset := tb; shape := ts |}
               {| block_id := id; total_roi := tot;
                  read_roi := {| offset := rb; shape := rs |};
                  write_roi := {| offset := wb; shape := ws |} |})) !! i
             = Some _) as Hs1.
    { unfold shrink_dims. by axis_lookup. }
    pose proof (forallb_lookup _ _ _ _ Hpos Hs1) as Hpos1. simpl in Hpos1.
    apply Z.ltb_lt in Hpos1.
    revert Ho Hs. unfold shrink_dims, block_at. axis_lookup.
    intros [= Ho] [= Hs]. lia.
Qed.

Lemma block_at_contains (total read write : Roi) (off : Coord) (n : nat) :
  dims read n → dims write n → length off = n →
  contains_roi read write = Ok true →
  contains_roi (read_roi (block_at total read write off))
               (write_roi (block_at total read write off)) = Ok true.
Proof.
  intros Hr Hw Hoff [_ Hc]%contains_roi_true. apply contains_roi_true.
  split.
  { exists n. split; by apply translate_dims_dims. }
  simpl. intros i rb rs wb ws.
  rewrite !lookup_zip_with.
  destruct (offset read !! i) as [rb'|] eqn:Hrb; [|done].
  destruct (offset write !! i) as [wb'|] eqn:Hwb;
    destruct (off !! i) as [x|] eqn:Hx; simpl; try done.
  intros [= <-] Hrs [= <-] Hws.
  specialize (Hc i _ _ _ _ Hrb Hrs Hwb Hws). lia.
Qed.

(** C6. On a valid input, for every fit and either value of
    [read_write_conflict], no block of the graph has an upstream block with
    its own write Roi; the conflict offsets that are used are never the
    zero offset, because consecutive level offsets differ. *)
Theorem no_self_dependency (total read write : Roi) (n : nat)
    (read_write_conflict : bool) (fit : Fit) :
  dims total n → dims read n → dims write n →
  contains_roi read write = Ok true →
  Forall (λ w, 0 < w) (shape write) →
  ∃ graph,
    create_dependency_graph total read write read_write_conflict fit
      = Ok graph ∧
    (∀ b ups u, (b, ups) ∈ graph → u ∈ ups → write_roi u ≠ write_roi b) ∧
    ∃ level_stride level_offsets lco,
      compute_level_stride read write = Ok level_stride ∧
      compute_level_offsets write level_stride = Ok level_offsets ∧
      level_conflict_offsets read_write_conflict level_stride None
        level_offsets = Ok lco ∧
      (∀ level p q,
         level_offsets !! level = Some p →
         level_offsets !! S level = Some q → p ≠ q) ∧
      (∀ cos co, cos ∈ lco → co ∈ cos → ∃ i x, co !! i = Some x ∧ x ≠ 0).
Proof.
  intros Ht Hr Hw Hc Hpos.
  exists (concat (levels_at fit read_write_conflict total read write)).
  split; [by apply (create_dependency_graph_Ok _ _ _ n)|].
  pose proof (level_offsets_length total read write n Ht Hr Hw) as Hl.
  pose proof (level_conflicts_length total read write n Ht Hr Hw
                read_write_conflict) as Hcl. simpl in Hcl.
  split.
  - intros b ups u Hb Hu.
    apply elem_of_concat in Hb as (lvl & Hlvl & Hb).
    apply list_elem_of_lookup in Hlvl as [level Hlvl].
    unfold levels_at in Hlvl.
    apply lookup_zip_with_Some in Hlvl as (lo & cos & -> & Hlo & Hcos).
    rewrite Forall_lookup in Hl. rewrite Forall_lookup in Hcl.
    specialize (Hl _ _ Hlo). specialize (Hcl _ _ Hcos). simpl in Hl.
    unfold level_at in Hb.
    apply list_elem_of_omap in Hb as (off & Hoff & Hb).
    pose proof (block_offsets_at_length total read _ lo n Ht Hr
                  (level_stride_length total read write n Ht Hr Hw) Hl)
      as Hlen.
    rewrite Forall_forall in Hlen. specialize (Hlen _ Hoff). simpl in Hlen.
    unfold entry_at in Hb.
    destruct (included fit total (block_at total read write off)) eqn:Hinc;
      [|done].
    injection Hb as <- <-.
    apply list_elem_of_omap in Hu as (co & Hco & Hu).
    destruct (conflict_offset_nonzero total read write n Ht Hr Hw Hpos
                read_write_conflict level cos co Hcos Hco)
      as (i & x & Hx & Hx0).
    rewrite Forall_forall in Hcl. specialize (Hcl _ Hco). simpl in Hcl.
    eapply (conflict_differs fit total _ u co n i x); try done.
    + by apply block_at_dims.
    + by apply (block_at_contains _ _ _ _ n).
  - exists (level_stride_spec read write),
      (level_offsets_spec (shape write) (level_stride_spec read write)).
    eexists. split; [by apply compute_level_stride_Ok|].
    split; [by apply compute_level_offsets_Ok|].
    split; [by apply (level_conflict_offsets_Ok _ _ n)|]. split.
    + intros level p q Hp Hq ->.
      destruct (level_offsets_far total read write n Ht Hr Hw Hpos
                  level (S level) q q ltac:(lia) Hp Hq)
        as (i & s & x & y & Hs & Hx & Hy & Hfar).
      rewrite Forall_lookup in Hpos. specialize (Hpos _ _ Hs). simpl in Hpos.
      assert (x = y) by congruence. lia.
    + intros cos co Hcos Hco.
      apply list_elem_of_lookup in Hcos as [level Hcos].
      by apply (conflict_offset_nonzero total read write n Ht Hr Hw Hpos
                  read_write_conflict level cos co).
Qed.

Lemma no_self_dependency_witness :
  let total := mkRoi [0] [95] in
  let read := mkRoi [0] [30] in
  let write := mkRoi [10] [10] in
  dims total 1 ∧ dims read 1 ∧ dims write 1 ∧
  contains_roi read write = Ok true ∧
  Forall (λ w, 0 < w) (shape write) ∧
  ∃ graph,
    create_dependency_graph total read write true Shrink = Ok graph ∧
    ∀ b ups u, (b, ups) ∈ graph → u ∈ ups → write_roi u ≠ write_roi b.
Proof.
  intros total read write.
  assert (dims total 1) as Ht by done.
  assert (dims read 1) as Hr by done.
  assert (dims write 1) as Hw by done.
  assert (Forall (λ w, 0 < w) (shape write)) as Hp
    by (by repeat constructor).
  repeat (split; [done|]).
  destruct (no_self_dependency total read write 1 true Shrink
              Ht Hr Hw eq_refl Hp) as (graph & Hg & Hself & _).
  by exists graph.
Defined.

(** ** C5: upstream blocks and the emitted sequence *)

(** C5, as the code behaves with fit [overhang]: for the total Roi
    [0, 100), the read Roi [0, 30) and the write Roi [10, 20), the block of
    level 1 at offset 0 has an upstream block with write Roi [0, 10) and
    read Roi [-10, 20), and no block of the emitted sequence has that write
    Roi, that read Roi or that identifier. *)
Theorem overhang_upstream_not_emitted :
  ∃ graph b ups u,
    create_dependency_graph (mkRoi [0] [100]) (mkRoi [0] [30])
      (mkRoi [10] [10]) true Overhang = Ok graph ∧
    graph !! 4%nat = Some (b, ups) ∧
    write_roi b = mkRoi [10] [10] ∧
    ups !! 0%nat = Some u ∧
    write_roi u = mkRoi [0] [10] ∧ read_roi u = mkRoi [-10] [30] ∧
    Forall (λ e : Block * list Block,
              write_roi e.1 ≠ write_roi u ∧ read_roi e.1 ≠ read_roi u ∧
              block_id e.1 ≠ block_id u) graph.
Proof.
  eexists _, _, _, _. split; [vm_compute; reflexivity|].
  repeat (split; [reflexivity|]).
  repeat constructor; simpl; discriminate.
Qed.

(** With fit [shrink] the upstream blocks are built from the Rois of the
    block [shrink_possible] has already shrunk: for the total Roi [0, 45),
    the read Roi [-10, 20) and the write Roi [0, 10), the last block, shrunk
    to the write Roi [30, 35), has an upstream block with write Roi
    [20, 25), where the emitted block has the write Roi [20, 30). *)
Lemma shrink_upstream_not_emitted :
  ∃ graph b ups u,
    create_dependency_graph (mkRoi [0] [45]) (mkRoi [-10] [30])
      (mkRoi [0] [10]) true Shrink = Ok graph ∧
    graph !! 2%nat = Some (b, ups) ∧
    write_roi b = mkRoi [30] [5] ∧
    ups !! 0%nat = Some u ∧
    write_roi u = mkRoi [20] [5] ∧
    Forall (λ e : Block * list Block, write_roi e.1 ≠ write_roi u) graph.
Proof.
  eexists _, _, _, _. split; [vm_compute; reflexivity|].
  repeat (split; [reflexivity|]).
  repeat constructor; simpl; discriminate.
Qed.

(** *** Fit [valid]: upstream blocks are blocks of the previous level *)

Lemma elem_of_range_list (lo e s x : Z) :
  0 < s →
  x ∈ range_list lo e s ↔ ∃ k, 0 ≤ k ∧ x = lo + k * s ∧ x < e.
Proof.
  intros Hs. unfold range_list, range_len.
  destruct (Z.ltb_spec 0 s); [|lia].
  rewrite list_elem_of_fmap. setoid_rewrite elem_of_seq.
  destruct (Z.ltb_spec lo e).
  - rewrite ceil_div_pred by done. split.
    + intros (k & -> & Hk). exists (Z.of_nat k). split; [lia|]. split; [done|].
      assert (¬ ceil_div (e - lo) s ≤ Z.of_nat k) as Hn by lia.
      rewrite ceil_div_least in Hn by done. lia.
    + intros (k & Hk & -> & Hlt). exists (Z.to_nat k). split; [lia|].
      assert (¬ ceil_div (e - lo) s ≤ k) as Hn
        by (rewrite ceil_div_least by done; lia).
      lia.
  - split.
    + intros (k & _ & Hk). lia.
    + intros (k & Hk & -> & Hlt). nia.
Qed.

Lemma block_at_block_at (total read write : Roi) (off co : Coord) :
  block_at total (read_roi (block_at total read write off))
    (write_roi (block_at total read write off)) co
  = block_at total read write (zip_with Z.add off co).
Proof.
  destruct read as [rb rs], write as [wb ws].
  unfold block_at, new_Block, translate_dims, get_begin, get_shape. simpl.
  assert (∀ a : Coord, zip_with Z.add (zip_with Z.add a off) co
                       = zip_with Z.add a (zip_with Z.add off co)) as H.
  { intros a. list_axes. }
  by rewrite !H.
Qed.

Lemma concat_lookup_inv {A} (ls : list (list A)) (k : nat) (x : A) :
  concat ls !! k = Some x →
  ∃ L l j, ls !! L = Some l ∧ l !! j = Some x ∧
    k = (length (concat (take L ls)) + j)%nat.
Proof.
  revert k. induction ls as [|l ls IH]; intros k Hk; [done|].
  simpl in Hk. apply lookup_app_Some in Hk as [Hk|[Hle Hk]].
  - by exists 0%nat, l, k.
  - destruct (IH _ Hk) as (L & l' & j & HL & Hj & Heq).
    exists (S L), l', j. split; [done|]. split; [done|].
    simpl. rewrite length_app. lia.
Qed.

Lemma concat_lookup {A} (ls : list (list A)) (L j : nat) (l : list A) (x : A) :
  ls !! L = Some l → l !! j = Some x →
  concat ls !! (length (concat (take L ls)) + j)%nat = Some x.
Proof.
  revert L. induction ls as [|l' ls IH]; intros L HL Hj; [done|].
  destruct L as [|L]; simpl in *.
  - injection HL as ->. by apply lookup_app_l_Some.
  - rewrite length_app, <- Nat.add_assoc, lookup_app_r by lia.
    replace (length l' + (length (concat (take L ls)) + j) - length l')%nat
      with (length (concat (take L ls)) + j)%nat by lia.
    by apply IH.
Qed.

Lemma concat_take_length {A} (ls : list (list A)) (L : nat) (l : list A) :
  ls !! L = Some l →
  length (concat (take (S L) ls))
  = (length (concat (take L ls)) + length l)%nat.
Proof.
  revert L. induction ls as [|l' ls IH]; intros L HL; [done|].
  destruct L as [|L]; simpl in *.
  - injection HL as ->. rewrite length_app. simpl. lia.
  - rewrite !length_app, (IH L HL). simpl. lia.
Qed.

Lemma conflict_offset_block_offset (total read write : Roi) (n : nat)
    (level : nat) (prev lo off co : Coord) :
  dims total n → dims read n → dims write n →
  contains_roi read write = Ok true →
  Forall (λ w, 0 < w) (shape write) →
  let level_stride := level_stride_spec read write in
  let level_offsets := level_offsets_spec (shape write) level_stride in
  level_offsets !! level = Some prev →
  level_offsets !! S level = Some lo →
  off ∈ block_offsets_at total read level_stride lo →
  co ∈ conflict_offsets_spec prev lo level_stride →
  roi_in total (read_roi (block_at total read write (zip_with Z.add off co)))
    = true →
  zip_with Z.add off co ∈ block_offsets_at total read level_stride prev.
Proof.
  intros Ht Hr Hw Hc Hpos level_stride level_offsets Hprev Hlo Hoff Hco Hin.
  pose proof (level_stride_length total read write n Ht Hr Hw) as Hsl.
  pose proof (level_stride_positive total read write n Ht Hr Hw Hc Hpos)
    as Hsp.
  pose proof (level_offsets_length total read write n Ht Hr Hw) as Hol.
  rewrite Forall_lookup in Hol.
  pose proof (Hol _ _ Hprev) as Hprevn. pose proof (Hol _ _ Hlo) as Hlon.
  simpl in Hprevn, Hlon. fold level_stride in Hsl, Hsp.
  unfold block_offsets_at in Hoff |- *.
  apply list_elem_of_fmap in Hoff as (o & -> & Ho).
  apply list_elem_of_fmap. exists (zip_with Z.add o co).
  pose proof (length_elem_of_product _ _ Ho) as Hon.
  destruct Ht as [Ht1 Ht2], Hr as [Hr1 Hr2], Hw as [Hw1 Hw2].
  rewrite length_fmap, (length_zip3 _ _ _ n) in Hon by done.
  unfold conflict_offsets_spec in Hco.
  pose proof (length_elem_of_product _ _ Hco) as Hcon.
  rewrite !length_zip_with in Hcon.
  split.
  { destruct total as [tb ts], read as [rb rs]. simpl in *.
    list_axes; lookup_lengths; lia. }
  apply elem_of_product in Ho, Hco. apply elem_of_product.
  apply Forall2_same_length_lookup. split.
  { rewrite length_fmap, (length_zip3 _ _ _ n) by done.
    rewrite length_zip_with. lia. }
  intros i x l Hx Hl.
  apply lookup_zip_with_Some in Hx as (oi & ci & -> & Hoi & Hci).
  rewrite list_lookup_fmap in Hl. unfold zip3 in Hl.
  rewrite !lookup_zip_with in Hl.
  destruct (prev !! i) as [pi|] eqn:Hpi; [|done].
  destruct (shape total !! i) as [tsi|] eqn:Htsi; [|done].
  destruct (level_stride !! i) as [si|] eqn:Hsi; [|done].
  simpl in Hl. injection Hl as <-.
  assert (0 < si) as Hsipos.
  { rewrite Forall_lookup in Hsp. by apply (Hsp i). }
  apply lookup_lt_Some in Hoi as Hi.
  destruct (lookup_lt_is_Some_2 lo i) as [li Hli]; [lia|].
  destruct (lookup_lt_is_Some_2 (offset total) i) as [tbi Htbi]; [lia|].
  destruct (lookup_lt_is_Some_2 (offset read) i) as [rbi Hrbi]; [lia|].
  destruct (lookup_lt_is_Some_2 (shape read) i) as [rsi Hrsi]; [lia|].
  destruct (lookup_lt_is_Some_2 (offset write) i) as [wbi Hwbi]; [lia|].
  destruct (lookup_lt_is_Some_2 (shape write) i) as [wsi Hwsi]; [lia|].
  (* the block offset on this axis *)
  destruct (Forall2_lookup_l _ _ _ i oi Ho Hoi) as (l & Hl & Hoin).
  rewrite list_lookup_fmap in Hl. unfold zip3 in Hl.
  rewrite !lookup_zip_with, Hli, Htsi, Hsi in Hl. simpl in Hl.
  injection Hl as <-.
  apply elem_of_range_list in Hoin as (k & Hk & -> & Hlt); [|done].
  (* the conflict offset on this axis *)
  destruct (Forall2_lookup_l _ _ _ i ci Hco Hci) as (l & Hl & Hcin).
  rewrite !lookup_zip_with, Hpi, Hli, Hsi in Hl. simpl in Hl.
  injection Hl as <-.
  (* the previous level offset lies within the stride *)
  assert (0 ≤ pi < si) as Hpis.
  { eapply (level_offsets_axis read write Hpos prev i); [|done..].
    by eapply list_elem_of_lookup_2. }
  (* the read Roi of the upstream block lies in the total Roi *)
  assert (contains_roi total
            (read_roi (block_at total read write
               (zip_with Z.add
                  (zip_with Z.add o
                     (zip_with Z.sub (offset total) (offset read))) co)))
          = Ok true) as Hcont.
  { rewrite <- Hin. apply (contains_roi_dims _ _ n); [done|].
    split; simpl; rewrite ?length_zip_with; lia. }
  apply contains_roi_true in Hcont as [_ Hcont].
  eassert (offset (read_roi (block_at total read write
             (zip_with Z.add
                (zip_with Z.add o
                   (zip_with Z.sub (offset total) (offset read))) co))) !! i
           = Some _) as Hub.
  { simpl. by rewrite !lookup_zip_with, Hrbi, Hoi, Htbi, Hci. }
  destruct (Hcont i _ _ _ _ Htbi Htsi Hub Hrsi) as [Hge Hle].
  destruct (level_stride_axis read write Hc Hpos i _ _ _ _ _
              Hrbi Hrsi Hwbi Hwsi Hsi) as (? & ? & ? & _).
  apply elem_of_range_list; [done|]. unfold conflict_axis in Hcin.
  destruct (Z.ltb_spec (pi - li) 0);
    apply list_elem_of_In in Hcin; simpl in Hcin;
    destruct Hcin as [<-|[<-|[]]].
  - exists k. split; [lia|]. split; lia.
  - exists (k + 1). split; [lia|]. split; lia.
  - exists (k - 1). split; [nia|]. split; lia.
  - exists k. split; [lia|]. split; lia.
Qed.

(** X1 (C5 for fit [valid]). With fit [valid], on a valid input, every
    upstream block of an emitted block is itself emitted, at a strictly
    earlier position of the sequence [create_dependency_graph] returns. *)
Theorem dag_ordering_valid (total read write : Roi) (n : nat)
    (read_write_conflict : bool) :
  dims total n → dims read n → dims write n →
  contains_roi read write = Ok true →
  Forall (λ w, 0 < w) (shape write) →
  ∃ graph,
    create_dependency_graph total read write read_write_conflict Valid
      = Ok graph ∧
    ∀ k b ups u,
      graph !! k = Some (b, ups) → u ∈ ups →
      ∃ k' ups', (k' < k)%nat ∧ graph !! k' = Some (u, ups').
Proof.
  intros Ht Hr Hw Hc Hpos.
  exists (concat (levels_at Valid read_write_conflict total read write)).
  split; [by apply (create_dependency_graph_Ok _ _ _ n)|].
  intros k b ups u Hk Hu.
  apply concat_lookup_inv in Hk as (L & lvl & j & HL & Hj & ->).
  unfold levels_at in HL.
  set (level_stride := level_stride_spec read write) in *.
  set (level_offsets := level_offsets_spec (shape write) level_stride) in *.
  set (lco := zip_with (conflicts_of read_write_conflict level_stride)
                (None :: (Some <$> level_offsets)) level_offsets) in *.
  apply lookup_zip_with_Some in HL as HL'.
  destruct HL' as (lo & cos & -> & Hlo & Hcos).
  apply list_elem_of_lookup_2, list_elem_of_omap in Hj
    as (off & Hoff & Hentry).
  unfold entry_at in Hentry.
  destruct (included Valid total (block_at total read write off)) eqn:Hinc;
    [|done].
  injection Hentry as <- <-. simpl in Hu.
  apply list_elem_of_omap in Hu as (co & Hco & Hu).
  unfold conflict_at in Hu. rewrite block_at_block_at in Hu.
  destruct (included Valid total
              (block_at total read write (zip_with Z.add off co))) eqn:Hiu;
    [|done].
  injection Hu as <-. simpl in Hiu.
  (* the level has a previous level *)
  unfold lco in Hcos.
  apply lookup_zip_with_Some in Hcos as (po & cur & -> & Hpo & Hcur).
  assert (cur = lo) as -> by congruence.
  destruct L as [|L]; simpl in Hpo.
  { injection Hpo as <-. by inversion Hco. }
  rewrite list_lookup_fmap in Hpo.
  destruct (level_offsets !! L) as [prev|] eqn:Hprev; [|done].
  injection Hpo as <-. unfold conflicts_of in Hco.
  destruct read_write_conflict; [|by inversion Hco].
  pose proof (conflict_offset_block_offset total read write n L prev lo off
                co Ht Hr Hw Hc Hpos Hprev Hlo Hoff Hco Hiu) as Hmem.
  (* the entry of the upstream block in the previous level *)
  destruct (lookup_lt_is_Some_2 lco L) as [cos' Hcos'].
  { unfold lco. rewrite length_zip_with, length_cons, length_fmap.
    apply lookup_lt_Some in Hprev. lia. }
  assert (levels_at Valid true total read write !! L
          = Some (level_at Valid total read write level_stride prev cos'))
    as HL'.
  { unfold levels_at. fold level_stride level_offsets lco.
    by rewrite lookup_zip_with, Hprev, Hcos'. }
  assert ((block_at total read write (zip_with Z.add off co),
           omap (conflict_at Valid total
                   (block_at total read write (zip_with Z.add off co))) cos')
          ∈ level_at Valid total read write level_stride prev cos') as Hin.
  { unfold level_at. apply list_elem_of_omap.
    exists (zip_with Z.add off co). split; [done|].
    unfold entry_at. simpl. by rewrite Hiu. }
  apply list_elem_of_lookup in Hin as [j' Hj'].
  exists (length (concat (take L (levels_at Valid true total read write)))
          + j')%nat.
  eexists. split; [|by apply (concat_lookup _ _ _ _ _ HL' Hj')].
  apply lookup_lt_Some in Hj'.
  pose proof (concat_take_length _ _ _ HL') as Hlen.
  unfold levels_at in Hlen |- *.
  fold level_stride level_offsets lco in Hlen |- *. lia.
Qed.

Lemma dag_ordering_valid_witness :
  let total := mkRoi [0] [100] in
  let read := mkRoi [0] [30] in
  let write := mkRoi [10] [10] in
  dims total 1 ∧ dims read 1 ∧ dims write 1 ∧
  contains_roi read write = Ok true ∧
  Forall (λ w, 0 < w) (shape write) ∧
  ∃ graph,
    create_dependency_graph total read write true Valid = Ok graph ∧
    ∀ k b ups u,
      graph !! k = Some (b, ups) → u ∈ ups →
      ∃ k' ups', (k' < k)%nat ∧ graph !! k' = Some (u, ups').
Proof.
  intros total read write.
  assert (dims total 1) as Ht by done.
  assert (dims read 1) as Hr by done.
  assert (dims write 1) as Hw by done.
  assert (Forall (λ w, 0 < w) (shape write)) as Hp
    by (by repeat constructor).
  repeat (split; [done|]).
  exact (dag_ordering_valid total read write 1 true Ht Hr Hw eq_refl Hp).
Defined.

(** * Further properties of the planner *)

(** ** The entries of the graph *)

(** Every entry of the graph comes from a block offset of some level. *)
Lemma graph_entry_inv (total read write : Roi) (n : nat)
    (read_write_conflict : bool) (fit : Fit) (b : Block) (ups : list Block) :
  dims total n → dims read n → dims write n →
  contains_roi read write = Ok true →
  Forall (λ w, 0 < w) (shape write) →
  (b, ups) ∈ concat (levels_at fit read_write_conflict total read write) →
  ∃ off cos,
    length off = n ∧ Forall (λ co : Coord, length co = n) cos ∧
    included fit total (block_at total read write off) = true ∧
    b = fitted fit total (block_at total read write off) ∧
    ups = omap (conflict_at fit total
                  (checked fit total (block_at total read write off))) cos.
Proof.
  intros Ht Hr Hw Hc Hpos Hb.
  apply elem_of_concat in Hb as (lvl & Hlvl & Hb).
  apply list_elem_of_lookup in Hlvl as [level Hlvl].
  unfold levels_at in Hlvl.
  apply lookup_zip_with_Some in Hlvl as (lo & cos & -> & Hlo & Hcos).
  pose proof (level_offsets_length total read write n Ht Hr Hw) as Hl.
  pose proof (level_conflicts_length total read write n Ht Hr Hw
                read_write_conflict) as Hcl. simpl in Hcl.
  rewrite Forall_lookup in Hl. rewrite Forall_lookup in Hcl.
  specialize (Hl _ _ Hlo). specialize (Hcl _ _ Hcos). simpl in Hl.
  unfold level_at in Hb.
  apply list_elem_of_omap in Hb as (off & Hoff & Hb).
  pose proof (block_offsets_at_length total read _ lo n Ht Hr
                (level_stride_length total read write n Ht Hr Hw) Hl)
    as Hlen.
  rewrite Forall_forall in Hlen. specialize (Hlen _ Hoff). simpl in Hlen.
  unfold entry_at in Hb.
  destruct (included fit total (block_at total read write off)) eqn:Hinc;
    [|done].
  injection Hb as <- <-. by exists off, cos.
Qed.

(** ** The read Roi of a block contains its write Roi *)

Lemma shrink_dims_contains (total : Roi) (b : Block) (n : nat) :
  dims total n → block_dims b n →
  contains_roi (read_roi b) (write_roi b) = Ok true →
  contains_roi (read_roi (shrink_dims total b))
               (write_roi (shrink_dims total b)) = Ok true.
Proof.
  intros Ht Hb [_ Hc]%contains_roi_true.
  pose proof (shrink_dims_dims total b n Ht Hb) as [Hr' Hw'].
  apply contains_roi_true. split; [by exists n|].
  destruct total as [tb ts], b as [id tot [rb rs] [wb ws]].
  unfold shrink_dims, grow_dims, intersect_dims, end_of. simpl in *.
  intros i x1 x2 x3 x4 H1 H2 H3 H4.
  axes_in H1. axes_in H2. axes_in H3. axes_in H4.
  edestruct (Hc i) as [? ?]; [eassumption..|]. lia.
Qed.

Lemma fitted_contains (fit : Fit) (total : Roi) (b : Block) (n : nat) :
  dims total n → block_dims b n →
  contains_roi (read_roi b) (write_roi b) = Ok true →
  contains_roi (read_roi (fitted fit total b))
               (write_roi (fitted fit total b)) = Ok true.
Proof.
  intros Ht Hb Hc. destruct fit; simpl; try done.
  by apply (shrink_dims_contains _ _ n).
Qed.

Lemma checked_contains (fit : Fit) (total : Roi) (b : Block) (n : nat) :
  dims total n → block_dims b n →
  contains_roi (read_roi b) (write_roi b) = Ok true →
  contains_roi (read_roi (checked fit total b))
               (write_roi (checked fit total b)) = Ok true.
Proof.
  intros Ht Hb Hc. destruct fit; simpl; try done.
  destruct (point_in _ _); [|done]. by apply (shrink_dims_contains _ _ n).
Qed.

(** An upstream block is the fitted translate of the checked block. *)
Lemma conflict_at_Some (fit : Fit) (total : Roi) (b1 u : Block) (co : Coord) :
  conflict_at fit total b1 co = Some u →
  included fit total (block_at total (read_roi b1) (write_roi b1) co) = true ∧
  u = fitted fit total (block_at total (read_roi b1) (write_roi b1) co).
Proof.
  unfold conflict_at. destruct (included fit total _); [|done].
  by intros [= <-].
Qed.

(** X2. On a valid input and for every fit, the read Roi of every block of
    the graph contains its write Roi, and so does the read Roi of every
    upstream block. *)
Theorem graph_read_contains_write (total read write : Roi) (n : nat)
    (read_write_conflict : bool) (fit : Fit) :
  dims total n → dims read n → dims write n →
  contains_roi read write = Ok true →
  Forall (λ w, 0 < w) (shape write) →
  ∃ graph,
    create_dependency_graph total read write read_write_conflict fit
      = Ok graph ∧
    ∀ b ups, (b, ups) ∈ graph →
      contains_roi (read_roi b) (write_roi b) = Ok true ∧
      ∀ u, u ∈ ups → contains_roi (read_roi u) (write_roi u) = Ok true.
Proof.
  intros Ht Hr Hw Hc Hpos.
  exists (concat (levels_at fit read_write_conflict total read write)).
  split; [by apply (create_dependency_graph_Ok _ _ _ n)|].
  intros b ups Hb.
  destruct (graph_entry_inv _ _ _ n _ _ _ _ Ht Hr Hw Hc Hpos Hb)
    as (off & cos & Hoff & Hcos & Hinc & -> & ->).
  pose proof (block_at_dims total read write off n Hr Hw Hoff) as Hbd.
  pose proof (block_at_contains total read write off n Hr Hw Hoff Hc) as Hbc.
  split; [by apply (fitted_contains _ _ _ n)|].
  intros u Hu. apply list_elem_of_omap in Hu as (co & Hco & Hu).
  apply conflict_at_Some in Hu as [_ ->].
  rewrite Forall_forall in Hcos. specialize (Hcos _ Hco). simpl in Hcos.
  pose proof (checked_dims fit total _ n Ht Hbd) as [Hcr Hcw].
  pose proof (checked_contains fit total _ n Ht Hbd Hbc) as Hcc.
  apply (fitted_contains _ _ _ n); [done|by apply block_at_dims|].
  by apply (block_at_contains _ _ _ _ n).
Qed.

Lemma graph_read_contains_write_witness :
  let total := mkRoi [0] [95] in
  let read := mkRoi [0] [30] in
  let write := mkRoi [10] [10] in
  dims total 1 ∧ dims read 1 ∧ dims write 1 ∧
  contains_roi read write = Ok true ∧
  Forall (λ w, 0 < w) (shape write) ∧
  ∃ graph,
    create_dependency_graph total read write true Shrink = Ok graph ∧
    ∀ b ups, (b, ups) ∈ graph →
      contains_roi (read_roi b) (write_roi b) = Ok true ∧
      ∀ u, u ∈ ups → contains_roi (read_roi u) (write_roi u) = Ok true.
Proof.
  intros total read write.
  assert (dims total 1) as Ht by done.
  assert (dims read 1) as Hr by done.
  assert (dims write 1) as Hw by done.
  assert (Forall (λ w, 0 < w) (shape write)) as Hp
    by (by repeat constructor).
  repeat (split; [done|]).
  exact (graph_read_contains_write total read write 1 true Shrink
           Ht Hr Hw eq_refl Hp).
Defined.

(** ** Where the blocks lie in the total Roi *)

Lemma included_fitted_within (fit : Fit) (total : Roi) (b : Block) (n : nat) :
  dims total n → block_dims b n →
  contains_roi (read_roi b) (write_roi b) = Ok true →
  included fit total b = true →
  match fit with
  | Valid => contains_roi total (read_roi (fitted fit total b)) = Ok true
  | Overhang =>
      contains_point total (get_begin (write_roi (fitted fit total b)))
      = Ok true
  | Shrink =>
      contains_roi total (read_roi (fitted fit total b)) = Ok true ∧
      contains_roi total (write_roi (fitted fit total b)) = Ok true ∧
      Forall (λ s, 0 < s) (shape (write_roi (fitted fit total b)))
  end.
Proof.
  intros Ht [Hr Hw] Hc Hinc. destruct fit; simpl in *.
  - by rewrite (contains_roi_dims _ _ n), Hinc.
  - unfold get_begin.
    rewrite (contains_point_dims _ _ n), Hinc; [done..|apply Hw].
  - apply andb_true_iff in Hinc as [Hp Hs].
    pose proof (shrink_dims_dims total b n Ht (conj Hr Hw)) as [Hr' Hw'].
    pose proof (point_in_true _ _ Hp) as Hin.
    apply contains_roi_true in Hc as [_ Hc].
    split; [|split].
    + apply contains_roi_true. split; [by exists n|].
      destruct total as [tb ts], b as [id tot [rb rs] [wb ws]].
      unfold shrink_dims, grow_dims, intersect_dims, end_of. simpl in *.
      intros i x1 x2 x3 x4 H1 H2 H3 H4.
      pose proof (lookup_lt_Some _ _ _ H1) as Hi.
      destruct Hr as [Hr1 Hr2], Hw as [Hw1 Hw2], Ht as [Ht1 Ht2]. simpl in *.
      axes_in H3. axes_in H4. simplify_eq.
      destruct (lookup_lt_is_Some_2 wb i) as [wbi Hwb]; [lia|].
      destruct (lookup_lt_is_Some_2 ws i) as [wsi Hws]; [lia|].
      edestruct (Hc i) as [? ?]; [eassumption..|].
      edestruct (Hin i) as [? ?]; [eassumption..|]. lia.
    + apply contains_roi_true. split; [by exists n|].
      destruct total as [tb ts], b as [id tot [rb rs] [wb ws]].
      unfold shrink_dims, grow_dims, intersect_dims, end_of. simpl in *.
      intros i x1 x2 x3 x4 H1 H2 H3 H4.
      axes_in H3. axes_in H4. simplify_eq.
      edestruct (Hc i) as [? ?]; [eassumption..|].
      edestruct (Hin i) as [? ?]; [eassumption..|]. lia.
    + apply Forall_forall. intros s Hs'.
      rewrite forallb_forall in Hs. apply Z.ltb_lt, Hs.
      by apply list_elem_of_In.
Qed.

(** X3. On a valid input, what the fit promises holds for every block of
    the graph and for every upstream block: with [valid] the total Roi
    contains the read Roi; with [overhang] it contains the begin of the
    write Roi; with [shrink] it contains the read Roi and the write Roi, and
    the write shape is positive. *)
Theorem graph_blocks_within_total (total read write : Roi) (n : nat)
    (read_write_conflict : bool) (fit : Fit) :
  dims total n → dims read n → dims write n →
  contains_roi read write = Ok true →
  Forall (λ w, 0 < w) (shape write) →
  ∃ graph,
    create_dependency_graph total read write read_write_conflict fit
      = Ok graph ∧
    ∀ b ups u, (b, ups) ∈ graph → u = b ∨ u ∈ ups →
      match fit with
      | Valid => contains_roi total (read_roi u) = Ok true
      | Overhang => contains_point total (get_begin (write_roi u)) = Ok true
      | Shrink =>
          contains_roi total (read_roi u) = Ok true ∧
          contains_roi total (write_roi u) = Ok true ∧
          Forall (λ s, 0 < s) (shape (write_roi u))
      end.
Proof.
  intros Ht Hr Hw Hc Hpos.
  exists (concat (levels_at fit read_write_conflict total read write)).
  split; [by apply (create_dependency_graph_Ok _ _ _ n)|].
  intros b ups u Hb Hu.
  destruct (graph_entry_inv _ _ _ n _ _ _ _ Ht Hr Hw Hc Hpos Hb)
    as (off & cos & Hoff & Hcos & Hinc & -> & ->).
  pose proof (block_at_dims total read write off n Hr Hw Hoff) as Hbd.
  pose proof (block_at_contains total read write off n Hr Hw Hoff Hc) as Hbc.
  destruct Hu as [->|Hu].
  - by apply (included_fitted_within _ _ _ n).
  - apply list_elem_of_omap in Hu as (co & Hco & Hu).
    apply conflict_at_Some in Hu as [Hiu ->].
    rewrite Forall_forall in Hcos. specialize (Hcos _ Hco). simpl in Hcos.
    pose proof (checked_dims fit total _ n Ht Hbd) as [Hcr Hcw].
    pose proof (checked_contains fit total _ n Ht Hbd Hbc) as Hcc.
    apply (included_fitted_within _ _ _ n); [done| | |done].
    + by apply block_at_dims.
    + by apply (block_at_contains _ _ _ _ n).
Qed.

Lemma graph_blocks_within_total_witness :
  let total := mkRoi [0] [95] in
  let read := mkRoi [0] [30] in
  let write := mkRoi [10] [10] in
  dims total 1 ∧ dims read 1 ∧ dims write 1 ∧
  contains_roi read write = Ok true ∧
  Forall (λ w, 0 < w) (shape write) ∧
  ∃ graph,
    create_dependency_graph total read write true Shrink = Ok graph ∧
    ∀ b ups u, (b, ups) ∈ graph → u = b ∨ u ∈ ups →
      contains_roi total (read_roi u) = Ok true ∧
      contains_roi total (write_roi u) = Ok true ∧
      Forall (λ s, 0 < s) (shape (write_roi u)).
Proof.
  intros total read write.
  assert (dims total 1) as Ht by done.
  assert (dims read 1) as Hr by done.
  assert (dims write 1) as Hw by done.
  assert (Forall (λ w, 0 < w) (shape write)) as Hp
    by (by repeat constructor).
  repeat (split; [done|]).
  exact (graph_blocks_within_total total read write 1 true Shrink
           Ht Hr Hw eq_refl Hp).
Defined.

(** ** The context of the blocks *)

Lemma shrink_dims_context (total : Roi) (b : Block) (n : nat) :
  dims total n → block_dims b n → same_context (shrink_dims total b) b.
Proof.
  intros [Ht1 Ht2] [[Hr1 Hr2] [Hw1 Hw2]].
  destruct total as [tb ts], b as [id tot [rb rs] [wb ws]].
  unfold same_context, shrink_dims, grow_dims, intersect_dims, end_of.
  simpl in *. split; list_axes; lookup_lengths; lia.
Qed.

Lemma block_at_context (total read write : Roi) (off : Coord) (n : nat)
    (b : Block) :
  read_roi b = read → write_roi b = write →
  dims read n → dims write n → length off = n →
  same_context (block_at total read write off) b.
Proof.
  intros <- <- [Hr1 Hr2] [Hw1 Hw2] Hoff.
  destruct b as [id tot [rb rs] [wb ws]].
  unfold same_context, block_at, translate_dims. simpl in *.
  split; [|done]. list_axes; lookup_lengths; lia.
Qed.

Lemma same_context_trans (a b c : Block) :
  same_context a b → same_context b c → same_context a c.
Proof. intros [? ?] [? ?]. split; congruence. Qed.

Lemma fitted_context (fit : Fit) (total : Roi) (b : Block) (n : nat) :
  dims total n → block_dims b n → same_context (fitted fit total b) b.
Proof.
  intros Ht Hb. destruct fit; simpl; try done.
  by apply (shrink_dims_context _ _ n).
Qed.

Lemma checked_context (fit : Fit) (total : Roi) (b : Block) (n : nat) :
  dims total n → block_dims b n → same_context (checked fit total b) b.
Proof.
  intros Ht Hb. destruct fit; simpl; try done.
  destruct (point_in _ _); [|done]. by apply (shrink_dims_context _ _ n).
Qed.

Lemma same_context_coord_sub (u : Block) (read write : Roi) (n : nat) :
  block_dims u n → dims read n → dims write n →
  same_context u (new_Block read read write) →
  coord_sub (get_begin (write_roi u)) (get_begin (read_roi u))
  = coord_sub (get_begin write) (get_begin read) ∧
  coord_sub (get_shape (read_roi u)) (get_shape (write_roi u))
  = coord_sub (get_shape read) (get_shape write).
Proof.
  intros [[Hr1 Hr2] [Hw1 Hw2]] [Hr1' Hr2'] [Hw1' Hw2'] [H1 H2].
  unfold coord_sub, get_begin, get_shape. simpl in *.
  rewrite !coord_zip_dims by lia. by rewrite H1, H2.
Qed.

(** X4. On a valid input and for every fit, every block of the graph and
    every upstream block has the context of the read and write Rois it is
    made from: the same begin of the write Roi relative to the read Roi and
    the same difference of the shapes, also where [shrink] has changed
    both Rois. *)
Theorem graph_context_preserved (total read write : Roi) (n : nat)
    (read_write_conflict : bool) (fit : Fit) :
  dims total n → dims read n → dims write n →
  contains_roi read write = Ok true →
  Forall (λ w, 0 < w) (shape write) →
  ∃ graph context_ul context_shape,
    create_dependency_graph total read write read_write_conflict fit
      = Ok graph ∧
    coord_sub (get_begin write) (get_begin read) = Ok context_ul ∧
    coord_sub (get_shape read) (get_shape write) = Ok context_shape ∧
    ∀ b ups u, (b, ups) ∈ graph → u = b ∨ u ∈ ups →
      coord_sub (get_begin (write_roi u)) (get_begin (read_roi u))
      = Ok context_ul ∧
      coord_sub (get_shape (read_roi u)) (get_shape (write_roi u))
      = Ok context_shape.
Proof.
  intros Ht Hr Hw Hc Hpos.
  exists (concat (levels_at fit read_write_conflict total read write)),
    (zip_with Z.sub (offset write) (offset read)),
    (zip_with Z.sub (shape read) (shape write)).
  split; [by apply (create_dependency_graph_Ok _ _ _ n)|].
  assert (coord_sub (get_begin write) (get_begin read)
          = Ok (zip_with Z.sub (offset write) (offset read))) as H1.
  { destruct Hr, Hw. apply coord_zip_dims. unfold get_begin. lia. }
  assert (coord_sub (get_shape read) (get_shape write)
          = Ok (zip_with Z.sub (shape read) (shape write))) as H2.
  { destruct Hr, Hw. apply coord_zip_dims. unfold get_shape. lia. }
  split; [done|]. split; [done|].
  intros b ups u Hb Hu. rewrite <- H1, <- H2.
  destruct (graph_entry_inv _ _ _ n _ _ _ _ Ht Hr Hw Hc Hpos Hb)
    as (off & cos & Hoff & Hcos & Hinc & -> & ->).
  pose proof (block_at_dims total read write off n Hr Hw Hoff) as Hbd.
  assert (same_context (block_at total read write off)
            (new_Block read read write)) as Hb0
    by by apply (block_at_context _ _ _ _ n).
  destruct Hu as [->|Hu].
  - apply (same_context_coord_sub _ _ _ n); [by apply fitted_dims|done..|].
    eapply same_context_trans; [by apply (fitted_context _ _ _ n)|done].
  - apply list_elem_of_omap in Hu as (co & Hco & Hu).
    apply conflict_at_Some in Hu as [_ ->].
    rewrite Forall_forall in Hcos. specialize (Hcos _ Hco). simpl in Hcos.
    pose proof (checked_dims fit total _ n Ht Hbd) as [Hcr Hcw].
    assert (block_dims (block_at total
              (read_roi (checked fit total (block_at total read write off)))
              (write_roi (checked fit total (block_at total read write off)))
              co) n) as Hud by by apply block_at_dims.
    apply (same_context_coord_sub _ _ _ n); [by apply fitted_dims|done..|].
    eapply same_context_trans; [by apply (fitted_context _ _ _ n)|].
    eapply same_context_trans;
      [by apply (block_at_context _ _ _ _ n
                   (checked fit total (block_at total read write off)))|].
    eapply same_context_trans; [by apply (checked_context _ _ _ n)|done].
Qed.

Lemma graph_context_preserved_witness :
  let total := mkRoi [0] [95] in
  let read := mkRoi [0] [30] in
  let write := mkRoi [10] [10] in
  dims total 1 ∧ dims read 1 ∧ dims write 1 ∧
  contains_roi read write = Ok true ∧
  Forall (λ w, 0 < w) (shape write) ∧
  ∃ graph context_ul context_shape,
    create_dependency_graph total read write true Shrink = Ok graph ∧
    coord_sub (get_begin write) (get_begin read) = Ok context_ul ∧
    coord_sub (get_shape read) (get_shape write) = Ok context_shape ∧
    ∀ b ups u, (b, ups) ∈ graph → u = b ∨ u ∈ ups →
      coord_sub (get_begin (write_roi u)) (get_begin (read_roi u))
      = Ok context_ul ∧
      coord_sub (get_shape (read_roi u)) (get_shape (write_roi u))
      = Ok context_shape.
Proof.
  intros total read write.
  assert (dims total 1) as Ht by done.
  assert (dims read 1) as Hr by done.
  assert (dims write 1) as Hw by done.
  assert (Forall (λ w, 0 < w) (shape write)) as Hp
    by (by repeat constructor).
  repeat (split; [done|]).
  exact (graph_context_preserved total read write 1 true Shrink
           Ht Hr Hw eq_refl Hp).
Defined.

(** ** Without read-write conflict *)

Lemma omap_entry_at_nil (fit : Fit) (total read write : Roi)
    (cos : list Coord) (offs : list Coord) :
  omap (entry_at fit total read write []) offs
  = (λ e : Block * list Block, (e.1, []))
    <$> omap (entry_at fit total read write cos) offs.
Proof.
  induction offs as [|off offs IH]; [done|]. csimpl. rewrite IH.
  unfold entry_at.
  by destruct (included fit total (block_at total read write off)).
Qed.

Lemma concat_fmap_fmap {A B} (f : A → B) (ls : list (list A)) :
  concat ((λ l : list A, f <$> l) <$> ls) = f <$> concat ls.
Proof.
  induction ls as [|l ls IH]; [done|]. csimpl. by rewrite fmap_app, IH.
Qed.

(** X5. With [read_write_conflict] false the graph has the blocks of the
    graph with [read_write_conflict] true, in the same order, each with an
    empty list of upstream blocks. *)
Theorem graph_without_conflict (total read write : Roi) (n : nat)
    (fit : Fit) :
  dims total n → dims read n → dims write n →
  contains_roi read write = Ok true →
  Forall (λ w, 0 < w) (shape write) →
  ∃ graph,
    create_dependency_graph total read write true fit = Ok graph ∧
    create_dependency_graph total read write false fit
    = Ok ((λ e : Block * list Block, (e.1, [])) <$> graph).
Proof.
  intros Ht Hr Hw Hc Hpos.
  exists (concat (levels_at fit true total read write)).
  split; [by apply (create_dependency_graph_Ok _ _ _ n)|].
  rewrite (create_dependency_graph_Ok _ _ _ n) by done. f_equal.
  rewrite <- concat_fmap_fmap. f_equal. unfold levels_at.
  set (level_stride := level_stride_spec read write).
  set (level_offsets := level_offsets_spec (shape write) level_stride).
  apply list_eq. intros i.
  rewrite list_lookup_fmap, !lookup_zip_with.
  destruct (level_offsets !! i) as [lo|]; [|done]. simpl.
  destruct ((None :: (Some <$> level_offsets)) !! i) as [prev|]; [|done].
  simpl. f_equal. unfold level_at.
  replace (conflicts_of false level_stride prev lo) with (@nil Coord)
    by (by destruct prev).
  apply omap_entry_at_nil.
Qed.

Lemma graph_without_conflict_witness :
  let total := mkRoi [0] [100] in
  let read := mkRoi [0] [30] in
  let write := mkRoi [10] [10] in
  dims total 1 ∧ dims read 1 ∧ dims write 1 ∧
  contains_roi read write = Ok true ∧
  Forall (λ w, 0 < w) (shape write) ∧
  ∃ graph,
    create_dependency_graph total read write true Valid = Ok graph ∧
    create_dependency_graph total read write false Valid
    = Ok ((λ e : Block * list Block, (e.1, [])) <$> graph).
Proof.
  intros total read write.
  assert (dims total 1) as Ht by done.
  assert (dims read 1) as Hr by done.
  assert (dims write 1) as Hw by done.
  assert (Forall (λ w, 0 < w) (shape write)) as Hp
    by (by repeat constructor).
  repeat (split; [done|]).
  exact (graph_without_conflict total read write 1 Valid
           Ht Hr Hw eq_refl Hp).
Defined.

(** ** Exclusive write access *)

Section WriteDisjoint.

Context (total read write : Roi) (n : nat).
Hypothesis total_dims : dims total n.
Hypothesis read_dims : dims read n.
Hypothesis write_dims : dims write n.
Hypothesis read_contains_write : contains_roi read write = Ok true.
Hypothesis write_shape_positive : Forall (λ w, 0 < w) (shape write).

Local Abbreviation level_stride := (level_stride_spec read write).
Local Abbreviation level_offsets :=
  (level_offsets_spec (shape write) level_stride).

(** All lists of the input have a component on an axis below [n]. *)
Lemma input_axis (i : nat) :
  (i < n)%nat →
  ∃ tb ts rb rs wb ws s,
    offset total !! i = Some tb ∧ shape total !! i = Some ts ∧
    offset read !! i = Some rb ∧ shape read !! i = Some rs ∧
    offset write !! i = Some wb ∧ shape write !! i = Some ws ∧
    level_stride !! i = Some s ∧
    0 < ws ∧ rb ≤ wb ∧ wb + ws ≤ rb + rs ∧ (ws | s) ∧
    wb - rb + ws ≤ s ∧ rb + rs - wb ≤ s.
Proof.
  intros Hi.
  destruct total_dims as [Ht1 Ht2], read_dims as [Hr1 Hr2],
    write_dims as [Hw1 Hw2].
  pose proof (level_stride_length total read write n total_dims read_dims
                write_dims) as Hs.
  destruct (lookup_lt_is_Some_2 (offset total) i) as [tb Htb]; [lia|].
  destruct (lookup_lt_is_Some_2 (shape total) i) as [ts Hts]; [lia|].
  destruct (lookup_lt_is_Some_2 (offset read) i) as [rb Hrb]; [lia|].
  destruct (lookup_lt_is_Some_2 (shape read) i) as [rs Hrs]; [lia|].
  destruct (lookup_lt_is_Some_2 (offset write) i) as [wb Hwb]; [lia|].
  destruct (lookup_lt_is_Some_2 (shape write) i) as [ws Hws]; [lia|].
  destruct (lookup_lt_is_Some_2 level_stride i) as [s Hsi]; [lia|].
  exists tb, ts, rb, rs, wb, ws, s. repeat (split; [done|]).
  by apply (level_stride_axis read write read_contains_write
              write_shape_positive i rb rs wb ws s).
Qed.

(** The components of a level offset are multiples of the write shape. *)
Lemma level_offsets_multiple (o : Coord) (i : nat) (x w : Z) :
  o ∈ level_offsets → o !! i = Some x → shape write !! i = Some w →
  (w | x).
Proof.
  intros Ho Hx Hw. unfold level_offsets_spec in Ho.
  apply elem_of_reverse, elem_of_product in Ho.
  destruct (Forall2_lookup_l _ _ _ i x Ho Hx) as (l & Hl & Hin).
  apply lookup_zip_with_Some in Hl as (e & w' & -> & He & Hw').
  assert (w' = w) as -> by congruence.
  pose proof write_shape_positive as Hpos. rewrite Forall_lookup in Hpos.
  specialize (Hpos i w Hw). simpl in Hpos.
  apply progression_elem in Hin as (k & Hk & -> & Hlt); [|done].
  by exists k.
Qed.

(** The components of a block offset, relative to the total Roi. *)
Lemma block_offsets_at_axis (lo off : Coord) (i : nat) (x : Z) :
  length lo = n →
  off ∈ block_offsets_at total read level_stride lo → off !! i = Some x →
  ∃ tb rb l s k,
    offset total !! i = Some tb ∧ offset read !! i = Some rb ∧
    lo !! i = Some l ∧ level_stride !! i = Some s ∧
    0 ≤ k ∧ x = l + k * s + (tb - rb).
Proof.
  intros Hlo Hoff Hx. unfold block_offsets_at in Hoff.
  apply list_elem_of_fmap in Hoff as (o & -> & Ho).
  apply lookup_zip_with_Some in Hx as (oi & di & -> & Hoi & Hdi).
  apply lookup_zip_with_Some in Hdi as (tb & rb & -> & Htb & Hrb).
  apply elem_of_product in Ho.
  destruct (Forall2_lookup_l _ _ _ i oi Ho Hoi) as (l & Hl & Hin).
  rewrite list_lookup_fmap in Hl. unfold zip3 in Hl.
  rewrite !lookup_zip_with in Hl.
  destruct (lo !! i) as [li|] eqn:Hli; [|done].
  destruct (shape total !! i) as [tsi|] eqn:Htsi; [|done].
  destruct (level_stride !! i) as [si|] eqn:Hsi; [|done].
  simpl in Hl. injection Hl as <-.
  pose proof (level_stride_positive total read write n total_dims read_dims
                write_dims read_contains_write write_shape_positive) as Hsp.
  rewrite Forall_lookup in Hsp. specialize (Hsp i si Hsi). simpl in Hsp.
  apply elem_of_range_list in Hin as (k & Hk & -> & _); [|done].
  by exists tb, rb, li, si, k.
Qed.

(** Block offsets of one level are far apart in terms of the write shape
    too. *)
Lemma far_stride_far_shape (p q : Coord) :
  length p = n → far level_stride p q → far (shape write) p q.
Proof.
  intros Hp (i & s & x & y & Hs & Hx & Hy & Hfar).
  apply lookup_lt_Some in Hx as Hi. rewrite Hp in Hi.
  destruct (input_axis i Hi)
    as (tb & ts & rb & rs & wb & ws & s' & _ & _ & _ & _ & _ & Hws & Hs'
        & ? & ? & ? & ? & ? & ?).
  assert (s' = s) as -> by congruence.
  exists i, ws, x, y. repeat (split; [done|]). lia.
Qed.

(** Block offsets of different levels differ by at least the write shape on
    some axis. *)
Lemma levels_far_shape (L L' : nat) (lo lo' p q : Coord) :
  L ≠ L' → level_offsets !! L = Some lo → level_offsets !! L' = Some lo' →
  p ∈ block_offsets_at total read level_stride lo →
  q ∈ block_offsets_at total read level_stride lo' →
  far (shape write) p q.
Proof.
  intros HL Hlo Hlo' Hp Hq.
  pose proof (level_offsets_length total read write n total_dims read_dims
                write_dims) as Hl.
  rewrite Forall_lookup in Hl.
  pose proof (Hl _ _ Hlo) as Hlon. pose proof (Hl _ _ Hlo') as Hlon'.
  simpl in Hlon, Hlon'.
  pose proof (level_stride_length total read write n total_dims read_dims
                write_dims) as Hsl.
  pose proof (block_offsets_at_length total read _ lo n total_dims read_dims
                Hsl Hlon) as Hpn.
  pose proof (block_offsets_at_length total read _ lo' n total_dims read_dims
                Hsl Hlon') as Hqn.
  rewrite Forall_forall in Hpn. rewrite Forall_forall in Hqn.
  specialize (Hpn _ Hp). specialize (Hqn _ Hq). simpl in Hpn, Hqn.
  destruct (level_offsets_far total read write n total_dims read_dims
              write_dims write_shape_positive L L' lo lo' HL Hlo Hlo')
    as (i & w & l & l' & Hw & Hli & Hli' & Hfar).
  apply lookup_lt_Some in Hli as Hi. rewrite Hlon in Hi.
  destruct (lookup_lt_is_Some_2 p i) as [x Hx]; [lia|].
  destruct (lookup_lt_is_Some_2 q i) as [y Hy]; [lia|].
  destruct (block_offsets_at_axis lo p i x Hlon Hp Hx)
    as (tb & rb & l1 & s & k & Htb & Hrb & Hl1 & Hs & Hk & ->).
  destruct (block_offsets_at_axis lo' q i y Hlon' Hq Hy)
    as (tb' & rb' & l2 & s' & k' & Htb' & Hrb' & Hl2 & Hs' & Hk' & ->).
  assert (tb' = tb) as -> by congruence.
  assert (rb' = rb) as -> by congruence.
  assert (s' = s) as -> by congruence.
  assert (l1 = l) as -> by congruence.
  assert (l2 = l') as -> by congruence.
  destruct (input_axis i Hi)
    as (? & ? & ? & ? & ? & ws & s' & _ & _ & _ & _ & _ & Hws & Hs''
        & Hpos & _ & _ & [m Hm] & _ & _).
  assert (s' = s) as -> by congruence.
  assert (ws = w) as -> by congruence.
  destruct (level_offsets_multiple lo i l w) as [a Ha];
    [by eapply list_elem_of_lookup_2|done..|].
  destruct (level_offsets_multiple lo' i l' w) as [a' Ha'];
    [by eapply list_elem_of_lookup_2|done..|].
  assert (0 ≤ l < s).
  { eapply (level_offsets_axis read write write_shape_positive lo i);
      [by eapply list_elem_of_lookup_2|done..]. }
  assert (0 ≤ l' < s).
  { eapply (level_offsets_axis read write write_shape_positive lo' i);
      [by eapply list_elem_of_lookup_2|done..]. }
  exists i, w, (l + k * s + (tb - rb)), (l' + k' * s + (tb - rb)).
  repeat (split; [done|]). subst l l' s.
  assert (a ≠ a') by (intros ->; lia).
  assert (0 ≤ a < m) by nia. assert (0 ≤ a' < m) by nia.
  assert (a - a' + (k - k') * m ≠ 0) as Hne.
  { assert (k = k' ∨ 1 ≤ k - k' ∨ k - k' ≤ -1) as [->|[?|?]] by lia;
      [lia|nia|nia]. }
  replace (a * w + k * (m * w) + (tb - rb) - (a' * w + k' * (m * w) + (tb - rb)))
    with ((a - a' + (k - k') * m) * w) by lia.
  replace (a' * w + k' * (m * w) + (tb - rb) - (a * w + k * (m * w) + (tb - rb)))
    with (- (a - a' + (k - k') * m) * w) by lia.
  nia.
Qed.

Lemma far_write_disjoint (fit : Fit) (p q : Coord) :
  length p = n → length q = n →
  far (shape write) p q →
  included fit total (block_at total read write p) = true →
  included fit total (block_at total read write q) = true →
  write_disjoint (fitted fit total (block_at total read write p))
                 (fitted fit total (block_at total read write q)).
Proof.
  intros Hp Hq (i & w & x & y & Hw & Hx & Hy & Hfar) Hip Hiq.
  apply lookup_lt_Some in Hx as Hi. rewrite Hp in Hi.
  destruct (input_axis i Hi)
    as (tb & ts & rb & rs & wb & ws & s & Htb & Hts & Hrb & Hrs & Hwb & Hws
        & Hs & Hpos & Hlo & Hhi & _).
  assert (ws = w) as -> by congruence.
  destruct (fitted_axis fit total read write p i _ _ _ _ _ _ _
              Hip Htb Hts Hrb Hrs Hwb Hws Hx Hpos Hlo Hhi)
    as (arb & ars & awb & aws & Ha1 & Ha2 & Ha3 & Ha4 & ? & ? & ? & ?).
  destruct (fitted_axis fit total read write q i _ _ _ _ _ _ _
              Hiq Htb Hts Hrb Hrs Hwb Hws Hy Hpos Hlo Hhi)
    as (brb & brs & bwb & bws & Hb1 & Hb2 & Hb3 & Hb4 & ? & ? & ? & ?).
  assert (block_dims (fitted fit total (block_at total read write p)) n)
    as [Hda1 Hda2] by (apply fitted_dims, block_at_dims; done).
  assert (block_dims (fitted fit total (block_at total read write q)) n)
    as [Hdb1 Hdb2] by (apply fitted_dims, block_at_dims; done).
  apply (intersect_empty_axis _ _ n i awb aws bwb bws); try done. lia.
Qed.

End WriteDisjoint.

Lemma level_at_write_disjoint (fit : Fit) (total read write : Roi)
    (lo : Coord) (cos : list Coord) (n : nat) :
  dims total n → dims read n → dims write n →
  contains_roi read write = Ok true →
  Forall (λ w, 0 < w) (shape write) →
  length lo = n →
  ForallOrdPairs (λ e e', write_disjoint e.1 e'.1 ∧ write_disjoint e'.1 e.1)
    (level_at fit total read write (level_stride_spec read write) lo cos).
Proof.
  intros Ht Hr Hw Hc Hpos Hlo. unfold level_at.
  pose proof (level_stride_length total read write n Ht Hr Hw) as Hs.
  pose proof (level_stride_positive total read write n Ht Hr Hw Hc Hpos) as Hsp.
  pose proof (block_offsets_at_length total read _ lo n Ht Hr Hs Hlo) as Hlen.
  rewrite Forall_forall in Hlen.
  eapply (FOP_omap _ (λ p q, length p = n ∧ length q = n ∧
            far (shape write) p q)).
  - eapply FOP_impl; [by apply (block_offsets_at_far total read _ lo n)|].
    intros p q Hp Hq Hfar. split; [by apply Hlen|]. split; [by apply Hlen|].
    apply (far_stride_far_shape total read write n); try done.
    by apply Hlen.
  - intros p q [a ua] [b ub] (Hp & Hq & Hfar) Ha Hb. unfold entry_at in Ha, Hb.
    destruct (included fit total (block_at total read write p)) eqn:Hip;
      [|done].
    destruct (included fit total (block_at total read write q)) eqn:Hiq;
      [|done].
    injection Ha as <- _. injection Hb as <- _. simpl. split.
    + by apply (far_write_disjoint total read write n).
    + apply (far_write_disjoint total read write n); try done.
      destruct Hfar as (i & s & x & y & ? & ? & ? & ?).
      exists i, s, y, x. repeat split; try done. tauto.
Qed.

(** X6. On a valid input and for every fit, the write Rois of two blocks at
    different positions of the graph do not intersect, whatever their
    levels: every block has exclusive write access to its write Roi. *)
Theorem write_rois_disjoint (total read write : Roi) (n : nat)
    (read_write_conflict : bool) (fit : Fit) :
  dims total n → dims read n → dims write n →
  contains_roi read write = Ok true →
  Forall (λ w, 0 < w) (shape write) →
  ∃ graph,
    create_dependency_graph total read write read_write_conflict fit
      = Ok graph ∧
    ∀ k k' a ua b ub,
      k ≠ k' → graph !! k = Some (a, ua) → graph !! k' = Some (b, ub) →
      ∃ x, intersect (write_roi a) (write_roi b) = Ok x ∧ empty x = true.
Proof.
  intros Ht Hr Hw Hc Hpos.
  exists (concat (levels_at fit read_write_conflict total read write)).
  split; [by apply (create_dependency_graph_Ok _ _ _ n)|].
  intros k k' a ua b ub Hkk Hk Hk'.
  apply concat_lookup_inv in Hk as (L & lvl & j & HL & Hj & ->).
  apply concat_lookup_inv in Hk' as (L' & lvl' & j' & HL' & Hj' & ->).
  unfold levels_at in HL, HL'.
  apply lookup_zip_with_Some in HL as (lo & cos & -> & Hlo & Hcos).
  apply lookup_zip_with_Some in HL' as (lo' & cos' & -> & Hlo' & Hcos').
  pose proof (level_offsets_length total read write n Ht Hr Hw) as Hl.
  rewrite Forall_lookup in Hl.
  pose proof (Hl _ _ Hlo) as Hlon. pose proof (Hl _ _ Hlo') as Hlon'.
  simpl in Hlon, Hlon'.
  destruct (decide (L = L')) as [<-|HLL].
  - assert (lo' = lo) as -> by congruence.
    assert (cos' = cos) as -> by congruence.
    assert (j ≠ j') as Hjj by lia.
    pose proof (level_at_write_disjoint fit total read write lo cos n
                  Ht Hr Hw Hc Hpos Hlon) as Hfop.
    destruct (decide (j < j')%nat).
    + by destruct (FOP_lookup _ _ j j' _ _ Hfop ltac:(done) Hj Hj').
    + by destruct (FOP_lookup _ _ j' j _ _ Hfop ltac:(lia) Hj' Hj).
  - apply list_elem_of_lookup_2, list_elem_of_omap in Hj
      as (p & Hp & Ha).
    apply list_elem_of_lookup_2, list_elem_of_omap in Hj'
      as (q & Hq & Hb).
    pose proof (level_stride_length total read write n Ht Hr Hw) as Hs.
    pose proof (block_offsets_at_length total read _ lo n Ht Hr Hs Hlon)
      as Hpn.
    pose proof (block_offsets_at_length total read _ lo' n Ht Hr Hs Hlon')
      as Hqn.
    rewrite Forall_forall in Hpn. rewrite Forall_forall in Hqn.
    unfold entry_at in Ha, Hb.
    destruct (included fit total (block_at total read write p)) eqn:Hip;
      [|done].
    destruct (included fit total (block_at total read write q)) eqn:Hiq;
      [|done].
    injection Ha as <- _. injection Hb as <- _.
    apply (far_write_disjoint total read write n); try done.
    + by apply Hpn.
    + by apply Hqn.
    + by apply (levels_far_shape total read write n Ht Hr Hw Hc Hpos
                  L L' lo lo').
Qed.

Lemma write_rois_disjoint_witness :
  let total := mkRoi [0] [95] in
  let read := mkRoi [0] [30] in
  let write := mkRoi [10] [10] in
  dims total 1 ∧ dims read 1 ∧ dims write 1 ∧
  contains_roi read write = Ok true ∧
  Forall (λ w, 0 < w) (shape write) ∧
  ∃ graph,
    create_dependency_graph total read write true Shrink = Ok graph ∧
    ∀ k k' a ua b ub,
      k ≠ k' → graph !! k = Some (a, ua) → graph !! k' = Some (b, ub) →
      ∃ x, intersect (write_roi a) (write_roi b) = Ok x ∧ empty x = true.
Proof.
  intros total read write.
  assert (dims total 1) as Ht by done.
  assert (dims read 1) as Hr by done.
  assert (dims write 1) as Hw by done.
  assert (Forall (λ w, 0 < w) (shape write)) as Hp
    by (by repeat constructor).
  repeat (split; [done|]).
  exact (write_rois_disjoint total read write 1 true Shrink
           Ht Hr Hw eq_refl Hp).
Defined.

(** ** Conflicts with the previous level *)

Lemma empty_false_lookup (r : Roi) (i : nat) (v : Z) :
  empty r = false → shape r !! i = Some v → v ≠ 0.
Proof.
  unfold empty. intros He Hv ->.
  assert (existsb (Z.eqb 0) (shape r) = true); [|congruence].
  apply existsb_exists. exists 0. split; [|done].
  apply list_elem_of_In. by eapply list_elem_of_lookup_2.
Qed.

(** X7. On a valid input, with [read_write_conflict] true and fit [valid]
    or [overhang]: a block of a level whose write Roi intersects the read
    Roi of a block of the next level is among the upstream blocks of that
    block. *)
Theorem conflict_capture (total read write : Roi) (n : nat) (fit : Fit) :
  dims total n → dims read n → dims write n →
  contains_roi read write = Ok true →
  Forall (λ w, 0 < w) (shape write) →
  fit ≠ Shrink →
  ∃ levels,
    create_dependency_graph_levels total read write true fit = Ok levels ∧
    ∀ level lvl_prev lvl a ua b ub x,
      levels !! level = Some lvl_prev → levels !! S level = Some lvl →
      (a, ua) ∈ lvl_prev → (b, ub) ∈ lvl →
      intersect (write_roi a) (read_roi b) = Ok x → empty x = false →
      a ∈ ub.
Proof.
  intros Ht Hr Hw Hc Hpos Hfit.
  exists (levels_at fit true total read write).
  split; [by apply (create_dependency_graph_levels_Ok _ _ _ n)|].
  intros L lvl_prev lvl a ua b ub x HLp HL Ha Hb Hx Hne.
  unfold levels_at in HLp, HL.
  set (level_stride := level_stride_spec read write) in *.
  set (level_offsets := level_offsets_spec (shape write) level_stride) in *.
  apply lookup_zip_with_Some in HLp as (prev & cosp & -> & Hprev & _).
  apply lookup_zip_with_Some in HL as (lo & cos & -> & Hlo & Hcos).
  apply lookup_zip_with_Some in Hcos as (po & cur & -> & Hpo & Hcur).
  assert (cur = lo) as -> by congruence.
  simpl in Hpo. rewrite list_lookup_fmap in Hpo.
  fold level_offsets in Hpo. rewrite Hprev in Hpo. injection Hpo as <-.
  simpl.
  pose proof (level_offsets_length total read write n Ht Hr Hw) as Hl.
  rewrite Forall_lookup in Hl.
  pose proof (Hl _ _ Hlo) as Hlon. pose proof (Hl _ _ Hprev) as Hprevn.
  simpl in Hlon, Hprevn.
  pose proof (level_stride_length total read write n Ht Hr Hw) as Hs.
  fold level_stride in Hs.
  apply list_elem_of_omap in Ha as (q & Hq & Ha).
  apply list_elem_of_omap in Hb as (p & Hp & Hb).
  pose proof (block_offsets_at_length total read _ prev n Ht Hr Hs Hprevn)
    as Hqn.
  pose proof (block_offsets_at_length total read _ lo n Ht Hr Hs Hlon)
    as Hpn.
  rewrite Forall_forall in Hpn. rewrite Forall_forall in Hqn.
  specialize (Hpn _ Hp). specialize (Hqn _ Hq). simpl in Hpn, Hqn.
  unfold entry_at in Ha, Hb.
  destruct (included fit total (block_at total read write q)) eqn:Hiq;
    [|done].
  destruct (included fit total (block_at total read write p)) eqn:Hip;
    [|done].
  injection Ha as <- _. injection Hb as <- <-.
  assert (∀ c, fitted fit total c = c) as Hfitted by (by destruct fit).
  assert (∀ c, checked fit total c = c) as Hchecked by (by destruct fit).
  rewrite !Hfitted in *. rewrite Hchecked.
  apply list_elem_of_omap. exists (zip_with Z.sub q p).
  assert (zip_with Z.add p (zip_with Z.sub q p) = q) as Hpq.
  { list_axes; lookup_lengths; lia. }
  split.
  2:{ unfold conflict_at. by rewrite block_at_block_at, Hpq, Hiq, Hfitted. }
  apply intersect_Ok in Hx as [_ ->].
  unfold conflict_offsets_spec. apply elem_of_product.
  apply Forall2_same_length_lookup. split.
  { rewrite !length_zip_with. lia. }
  intros i c l Hc' Hl'.
  apply lookup_zip_with_Some in Hc' as (y & z & -> & Hy & Hz).
  apply lookup_zip_with_Some in Hl' as (delta & s & -> & Hdelta & Hsi).
  apply lookup_zip_with_Some in Hdelta as (pi & li & -> & Hpi & Hli).
  apply lookup_lt_Some in Hy as Hi. rewrite Hqn in Hi.
  destruct (input_axis total read write n Ht Hr Hw Hc Hpos i Hi)
    as (tb & ts & rb & rs & wb & ws & s' & Htb & Hts & Hrb & Hrs & Hwb & Hws
        & Hs' & Hwpos & Hlow & Hhigh & _ & Hs1 & Hs2).
  assert (s' = s) as -> by (unfold level_stride in Hsi; congruence).
  destruct (block_offsets_at_axis total read write n Ht Hr Hw Hc Hpos
              prev q i y Hprevn Hq Hy)
    as (tb' & rb' & l1 & s1 & k' & Htb' & Hrb' & Hl1 & Hs1' & Hk' & ->).
  destruct (block_offsets_at_axis total read write n Ht Hr Hw Hc Hpos
              lo p i z Hlon Hp Hz)
    as (tb'' & rb'' & l2 & s2 & k & Htb'' & Hrb'' & Hl2 & Hs2' & Hk & ->).
  simplify_eq.
  assert (0 ≤ pi < s).
  { eapply (level_offsets_axis read write Hpos prev i);
      [by eapply list_elem_of_lookup_2|done..]. }
  assert (0 ≤ li < s).
  { eapply (level_offsets_axis read write Hpos lo i);
      [by eapply list_elem_of_lookup_2|done..]. }
  (* the intersection is not empty on this axis *)
  eassert (shape (intersect_dims
                    (write_roi (block_at total read write q))
                    (read_roi (block_at total read write p))) !! i
           = Some _) as Hshape.
  { unfold block_at. simpl. by axis_lookup. }
  pose proof (empty_false_lookup _ _ _ Hne Hshape) as Hpos'.
  unfold conflict_axis.
  assert (k' - k ≤ -2 ∨ k' - k = -1 ∨ k' = k ∨ k' - k = 1 ∨ 2 ≤ k' - k)
    as Hcases by lia.
  destruct (Z.ltb_spec (pi - li) 0);
    apply list_elem_of_In; simpl;
    destruct Hcases as [?|[?|[?|[?|?]]]]; try nia.
Qed.

Lemma conflict_capture_witness :
  let total := mkRoi [0] [100] in
  let read := mkRoi [0] [30] in
  let write := mkRoi [10] [10] in
  dims total 1 ∧ dims read 1 ∧ dims write 1 ∧
  contains_roi read write = Ok true ∧
  Forall (λ w, 0 < w) (shape write) ∧
  Overhang ≠ Shrink ∧
  ∃ levels,
    create_dependency_graph_levels total read write true Overhang = Ok levels ∧
    ∀ level lvl_prev lvl a ua b ub x,
      levels !! level = Some lvl_prev → levels !! S level = Some lvl →
      (a, ua) ∈ lvl_prev → (b, ub) ∈ lvl →
      intersect (write_roi a) (read_roi b) = Ok x → empty x = false →
      a ∈ ub.
Proof.
  intros total read write.
  assert (dims total 1) as Ht by done.
  assert (dims read 1) as Hr by done.
  assert (dims write 1) as Hw by done.
  assert (Forall (λ w, 0 < w) (shape write)) as Hp
    by (by repeat constructor).
  assert (Overhang ≠ Shrink) as Hf by done.
  repeat (split; [done|]).
  exact (conflict_capture total read write 1 Overhang
           Ht Hr Hw eq_refl Hp Hf).
Defined.

(** ** Chunk sizes (datasets.py) *)

Lemma range_list_from_1 (b : Z) :
  range_list 1 (b + 1) 1 = (λ k : nat, 1 + Z.of_nat k) <$> seq 0 (Z.to_nat b).
Proof.
  unfold range_list, range_len. simpl.
  destruct (Z.ltb_spec 1 (b + 1)).
  - rewrite Z.div_1_r. replace (b + 1 - 1 - 1 + 1) with b by lia.
    apply list_fmap_ext. intros _ k _. lia.
  - by replace (Z.to_nat b) with 0%nat by lia.
Qed.

Lemma chunk_condition (b k : Z) :
  0 < b → 1 ≤ k ≤ b → ((b / k) * k) mod b = 0 ↔ (k | b).
Proof.
  intros Hb Hk.
  pose proof (Z.div_mod b k ltac:(lia)) as Hdm.
  pose proof (Z.mod_pos_bound b k ltac:(lia)) as Hm.
  split.
  - intros H0. apply Z.mod_divide in H0 as [j Hj]; [|lia].
    assert (j = 1) as -> by nia.
    exists (b / k). lia.
  - intros [c ->]. rewrite Z.div_mul by lia.
    apply Z.mod_same. lia.
Qed.

Lemma chunk_loop_inv (b t : Z) (n : nat) :
  0 < b → Z.of_nat n ≤ b →
  chunk_inv b t n
    (foldl (get_chunk_size_dim_step b t) (None, 0)
       ((λ k : nat, 1 + Z.of_nat k) <$> seq 0 n)).
Proof.
  intros Hb. induction n as [|n IH]; intros Hn; [done|].
  rewrite seq_S, fmap_app, foldl_app. simpl.
  specialize (IH ltac:(lia)).
  destruct (foldl _ _ _) as [best d]. unfold chunk_inv in *. simpl in *.
  unfold get_chunk_size_dim_step. simpl.
  set (k' := 1 + Z.of_nat n) in *.
  pose proof (chunk_condition b k' Hb ltac:(lia)) as Hcond.
  destruct (Z.eqb_spec ((b / k') * k' mod b) 0) as [H0|H0].
  - apply Hcond in H0.
    destruct best as [k0|]; simpl.
    + destruct IH as (Hk0 & Hdiv & -> & Hmin).
      destruct (Z.ltb_spec (Z.abs (b / k' - t)) (Z.abs (b / k0 - t))); simpl.
      * repeat split; [lia..|done| |].
        -- destruct (decide (k = k')) as [->|]; [lia|].
           destruct (Hmin k ltac:(lia) H2). lia.
        -- intros. destruct (Hmin k ltac:(lia) H2). lia.
      * repeat split; [lia..|done| |].
        -- destruct (decide (k = k')) as [->|]; [lia|].
           destruct (Hmin k ltac:(lia) H2). lia.
        -- intros. destruct (Hmin k ltac:(lia) H2). lia.
    + subst n. repeat split; try lia; try done.
      all: assert (k = k') as -> by lia; lia.
  - destruct best as [k0|]; simpl.
    + destruct IH as (Hk0 & Hdiv & -> & Hmin).
      repeat split; [lia..|done| |].
      * destruct (decide (k = k')) as [->|]; [tauto|].
        destruct (Hmin k ltac:(lia) H1). lia.
      * intros. destruct (decide (k = k')) as [->|]; [tauto|].
        destruct (Hmin k ltac:(lia) H1). lia.
    + subst n. exfalso. apply H0, Hcond.
      replace k' with 1 by lia. apply Z.divide_1_l.
Qed.

Lemma mapM_cons {A B} (f : A → option B) (x : A) (l : list A) :
  mapM f (x :: l) = y ← f x; k ← mapM f l; mret (y :: k).
Proof. done. Qed.

Lemma get_chunk_size_dim_best_k (b target : Z) :
  0 < b →
  ∃ k0, get_chunk_size_dim b target = Some (b / k0) ∧
        1 ≤ k0 ≤ b ∧ (k0 | b) ∧
        ∀ k, 1 ≤ k ≤ b → (k | b) →
             Z.abs (b / k0 - target) ≤ Z.abs (b / k - target) ∧
             (k < k0 → Z.abs (b / k0 - target) < Z.abs (b / k - target)).
Proof.
  intros Hb. unfold get_chunk_size_dim.
  rewrite range_list_from_1.
  pose proof (chunk_loop_inv b target (Z.to_nat b) Hb ltac:(lia)) as Hinv.
  destruct (foldl _ _ _) as [best diff]. unfold chunk_inv in Hinv.
  simpl in *. destruct best as [k0|]; [|lia].
  destruct Hinv as (Hk0 & Hdiv & -> & Hmin).
  exists k0. repeat split; try done; try lia.
  all: intros; destruct (Hmin k ltac:(lia) ltac:(done)); lia.
Qed.

Lemma get_chunk_size_dim_divisor (b target : Z) :
  0 < b →
  ∃ c, get_chunk_size_dim b target = Some c ∧ 0 < c ∧ (c | b) ∧
       (b ≤ target → c = b).
Proof.
  intros Hb.
  destruct (get_chunk_size_dim_best_k b target Hb)
    as (k0 & Hk0 & Hr & [c Hc] & Hmin).
  assert (b / k0 = c) as Hbk by (subst b; apply Z.div_mul; lia).
  rewrite Hbk in *. exists c.
  repeat split; [done|nia|exists k0; lia|].
  intros Ht.
  destruct (Hmin 1 ltac:(lia) (Z.divide_1_l b)) as [Hle _].
  rewrite Z.div_1_r in Hle. nia.
Qed.

Lemma get_chunk_size_dim_is_Some (b target : Z) :
  is_Some (get_chunk_size_dim b target) ↔ 0 < b.
Proof.
  split.
  - intros [c Hc]. destruct (Z.lt_ge_cases 0 b) as [|Hb]; [done|].
    unfold get_chunk_size_dim in Hc. rewrite range_list_from_1 in Hc.
    by replace (Z.to_nat b) with 0%nat in Hc by lia.
  - intros Hb.
    destruct (get_chunk_size_dim_best_k b target Hb) as (c & -> & _).
    by eexists.
Qed.

(** X8. For a positive block size [b], [get_chunk_size_dim] returns a
    positive divisor of [b] that is closest to the target among all
    positive divisors of [b]; of two closest divisors it returns the
    larger. *)
Theorem get_chunk_size_dim_closest_divisor (b target : Z) :
  0 < b →
  ∃ c, get_chunk_size_dim b target = Some c ∧
       0 < c ∧ (c | b) ∧
       ∀ d, 0 < d → (d | b) →
            Z.abs (c - target) ≤ Z.abs (d - target) ∧
            (Z.abs (d - target) = Z.abs (c - target) → d ≤ c).
Proof.
  intros Hb.
  destruct (get_chunk_size_dim_best_k b target Hb)
    as (k0 & Hk0 & Hr & [c Hc] & Hmin).
  assert (b / k0 = c) as Hbk by (subst b; apply Z.div_mul; lia).
  rewrite Hbk in *. exists c.
  repeat split; [done|nia|exists k0; lia|..].
  - destruct H0 as [k Hk].
    assert (b / k = d) as Hd.
    { rewrite Hk, Z.mul_comm. apply Z.div_mul. nia. }
    destruct (Hmin k ltac:(nia) ltac:(by exists d; lia)) as [Hle _].
    by rewrite Hd in Hle.
  - intros Heq. destruct H0 as [k Hk].
    assert (b / k = d) as Hd.
    { rewrite Hk, Z.mul_comm. apply Z.div_mul. nia. }
    destruct (Hmin k ltac:(nia) ltac:(by exists d; lia)) as [_ Hlt].
    rewrite Hd in Hlt.
    destruct (Z.lt_ge_cases k k0); [lia|]. nia.
Qed.

Lemma get_chunk_size_dim_closest_divisor_witness :
  0 < 300 ∧
  ∃ c, get_chunk_size_dim 300 256 = Some c ∧
       0 < c ∧ (c | 300) ∧
       ∀ d, 0 < d → (d | 300) →
            Z.abs (c - 256) ≤ Z.abs (d - 256) ∧
            (Z.abs (d - 256) = Z.abs (c - 256) → d ≤ c).
Proof.
  assert (0 < 300) as Hb by done.
  split; [done|].
  exact (get_chunk_size_dim_closest_divisor 300 256 Hb).
Defined.

(** X9. For a block size that is not positive the loop of
    [get_chunk_size_dim] is not entered and [b//best_k] fails. *)
Theorem get_chunk_size_dim_nonpositive (b target : Z) :
  b ≤ 0 → get_chunk_size_dim b target = None.
Proof.
  intros Hb. unfold get_chunk_size_dim. rewrite range_list_from_1.
  by replace (Z.to_nat b) with 0%nat by lia.
Qed.

Lemma get_chunk_size_dim_nonpositive_witness :
  0 ≤ 0 ∧ get_chunk_size_dim 0 256 = None.
Proof.
  assert (0 ≤ 0) as Hb by done.
  split; [done|].
  exact (get_chunk_size_dim_nonpositive 0 256 Hb).
Defined.

(** X10. For a block size with positive components [get_chunk_size]
    returns a chunk size of the same dimension whose components are
    positive and divide the components of the block size. *)
Theorem get_chunk_size_divides (block_size : Coord) :
  Forall (λ b, 0 < b) block_size →
  ∃ chunk_size,
    get_chunk_size block_size = Some chunk_size ∧
    Forall2 (λ c b, 0 < c ∧ (c | b)) chunk_size block_size.
Proof.
  unfold get_chunk_size. induction 1 as [|b bs Hb _ (cs & IH & Hcs)].
  - by exists [].
  - destruct (get_chunk_size_dim_divisor b 256 Hb)
      as (c & Hc & Hpos & Hdiv & _).
    exists (c :: cs). rewrite mapM_cons, Hc, IH.
    split; [done|]. by constructor.
Qed.

Lemma get_chunk_size_divides_witness :
  Forall (λ b, 0 < b) [300; 64] ∧
  ∃ chunk_size,
    get_chunk_size [300; 64] = Some chunk_size ∧
    Forall2 (λ c b, 0 < c ∧ (c | b)) chunk_size [300; 64].
Proof.
  assert (Forall (λ b, 0 < b) [300; 64]) as Hb by (by repeat constructor).
  split; [done|].
  exact (get_chunk_size_divides [300; 64] Hb).
Defined.

(** X11. [get_chunk_size] fails exactly on the block sizes with a
    component that is not positive. *)
Theorem get_chunk_size_fails_iff (block_size : Coord) :
  get_chunk_size block_size = None ↔ Exists (λ b, b ≤ 0) block_size.
Proof.
  unfold get_chunk_size. induction block_size as [|b bs IH].
  - split; [done|]. by intros ?%Exists_nil.
  - rewrite mapM_cons, Exists_cons, <- IH.
    destruct (get_chunk_size_dim b 256) as [c|] eqn:Hc; simpl.
    + assert (0 < b) by (apply (get_chunk_size_dim_is_Some b 256); eauto).
      destruct (mapM _ bs); simpl.
      * split; [done|]. intros [?|?]; [lia|done].
      * split; [by right|done].
    + split; [|done]. intros _. left.
      destruct (Z.lt_ge_cases 0 b) as [Hb|]; [|done].
      apply (get_chunk_size_dim_is_Some b 256) in Hb as [? ?]. congruence.
Qed.

(** X12. A block size whose components are positive and at most 256 is its
    own chunk size. *)
Theorem get_chunk_size_small (block_size : Coord) :
  Forall (λ b, 0 < b ≤ 256) block_size →
  get_chunk_size block_size = Some block_size.
Proof.
  unfold get_chunk_size. induction 1 as [|b bs Hb _ IH]; [done|].
  destruct (get_chunk_size_dim_divisor b 256 ltac:(lia))
    as (c & Hc & _ & _ & Heq).
  rewrite mapM_cons, Hc, IH, Heq by lia. done.
Qed.

Lemma get_chunk_size_small_witness :
  Forall (λ b, 0 < b ≤ 256) [100; 256] ∧
  get_chunk_size [100; 256] = Some [100; 256].
Proof.
  assert (Forall (λ b, 0 < b ≤ 256) [100; 256]) as Hb
    by (by repeat constructor).
  split; [done|].
  exact (get_chunk_size_small [100; 256] Hb).
Defined.

(** ** Voxel size and offset of a dataset (datasets.py) *)

(** X13. [_read_voxel_size_offset] raises an [AssertionError] when both
    attributes are present and differ in length, and raises nothing else;
    otherwise it returns a voxel size and an offset of the same length,
    which is the length of the attributes that are present, or the number
    of dimensions of the dataset when there is none. *)
Theorem read_voxel_size_offset_dims (ds : Dataset) (order : string) :
  let resolution := attrs ds !! "resolution"%string in
  let offset := attrs ds !! "offset"%string in
  match resolution, offset with
  | Some r, Some o =>
      if bool_decide (length r = length o)
      then ∃ vs off, _read_voxel_size_offset ds order = Ok (vs, off) ∧
                     length vs = length r ∧ length off = length r
      else _read_voxel_size_offset ds order = Raise AssertionError
  | Some a, None | None, Some a =>
      ∃ vs off, _read_voxel_size_offset ds order = Ok (vs, off) ∧
                length vs = length a ∧ length off = length a
  | None, None =>
      ∃ vs off, _read_voxel_size_offset ds order = Ok (vs, off) ∧
                length vs = length (ds_shape ds) ∧
                length off = length (ds_shape ds)
  end.
Proof.
  unfold _read_voxel_size_offset. simpl.
  destruct (attrs ds !! "resolution"%string) as [r|],
           (attrs ds !! "offset"%string) as [o|]; simpl.
  - case_bool_decide as Hlen; simpl; [|done].
    destruct (String.eqb order "F"); do 2 eexists; (split; [done|]);
      rewrite ?length_reverse; lia.
  - destruct (String.eqb order "F"); do 2 eexists; (split; [done|]);
      rewrite ?length_reverse, ?length_replicate; lia.
  - destruct (String.eqb order "F"); do 2 eexists; (split; [done|]);
      rewrite ?length_reverse, ?length_replicate; lia.
  - destruct (String.eqb order "F"); do 2 eexists; (split; [done|]);
      rewrite ?length_reverse, ?length_replicate; lia.
Qed.

Lemma reverse_replicate {A} (n : nat) (x : A) :
  reverse (replicate n x) = replicate n x.
Proof.
  induction n as [|n IH]; [done|].
  simpl. rewrite reverse_cons, IH.
  clear IH. induction n as [|n IH]; [done|]. simpl. by rewrite IH.
Qed.

(** X14. Without the attributes [resolution] and [offset] the voxel size
    is 1 and the offset 0 in each dimension of the dataset, for every
    order. *)
Theorem read_voxel_size_offset_defaults (ds : Dataset) (order : string) :
  attrs ds !! "resolution"%string = None →
  attrs ds !! "offset"%string = None →
  _read_voxel_size_offset ds order
  = Ok (replicate (length (ds_shape ds)) 1,
        replicate (length (ds_shape ds)) 0).
Proof.
  intros Hr Ho. unfold _read_voxel_size_offset. rewrite Hr, Ho. simpl.
  destruct (String.eqb order "F"); [|done].
  by rewrite !reverse_replicate.
Qed.

Lemma read_voxel_size_offset_defaults_witness :
  let ds := mkDataset ∅ [10; 20; 30] in
  attrs ds !! "resolution"%string = None ∧
  attrs ds !! "offset"%string = None ∧
  _read_voxel_size_offset ds "F"
  = Ok (replicate (length (ds_shape ds)) 1,
        replicate (length (ds_shape ds)) 0).
Proof.
  intros ds.
  assert (attrs ds !! "resolution"%string = None) as Hr by done.
  assert (attrs ds !! "offset"%string = None) as Ho by done.
  repeat (split; [done|]).
  exact (read_voxel_size_offset_defaults ds "F" Hr Ho).
Defined.

(** X15. Reading back the attributes [prepare_ds] writes gives the voxel
    size and the begin of the total Roi it was called with: for the
    format [zarr] read in an order other than [F], and for the other
    format, [n5], read in the order [F], as [open_ds] does. The two must
    have the same length. *)
Theorem prepare_ds_attrs_round_trip (file_format order : string)
    (voxel_size begin : Coord) (ds : Dataset) :
  length voxel_size = length begin →
  (file_format = "zarr"%string ↔ order ≠ "F"%string) →
  _read_voxel_size_offset (prepare_ds_attrs file_format voxel_size begin ds)
    order
  = Ok (voxel_size, begin).
Proof.
  intros Hlen Hfmt.
  unfold _read_voxel_size_offset, prepare_ds_attrs.
  destruct (String.eqb_spec file_format "zarr") as [Hz|Hz];
    destruct (String.eqb_spec order "F") as [Hf|Hf];
    try (exfalso; tauto); simpl.
  - rewrite lookup_insert_ne, lookup_insert by done. simpl.
    rewrite lookup_insert. simpl.
    by rewrite bool_decide_true.
  - rewrite lookup_insert_ne, lookup_insert by done. simpl.
    rewrite lookup_insert. simpl.
    rewrite bool_decide_true by (by rewrite !length_reverse).
    simpl. by rewrite !reverse_involutive.
Qed.

Lemma prepare_ds_attrs_round_trip_witness :
  let ds := mkDataset ∅ [10; 20] in
  length [4; 8] = length [40; 80] ∧
  ("n5"%string = "zarr"%string ↔ "F"%string ≠ "F"%string) ∧
  _read_voxel_size_offset (prepare_ds_attrs "n5" [4; 8] [40; 80] ds) "F"
  = Ok ([4; 8], [40; 80]).
Proof.
  intros ds.
  assert (length [4; 8] = length [40; 80]) as Hl by done.
  assert ("n5"%string = "zarr"%string ↔ "F"%string ≠ "F"%string) as Hf
    by (split; [discriminate|intros H; by destruct H]).
  repeat (split; [done|]).
  exact (prepare_ds_attrs_round_trip "n5" "F" [4; 8] [40; 80] ds Hl Hf).
Defined.

(** ** Coverage of the total Roi *)

Lemma point_in_intro (r : Roi) (p : Coord) (n : nat) :
  dims r n → length p = n →
  (∀ i b s x, offset r !! i = Some b → shape r !! i = Some s →
     p !! i = Some x → b ≤ x < b + s) →
  point_in r p = true.
Proof.
  intros [Ho Hs] Hp H. unfold point_in. apply andb_true_iff.
  split; apply (forallb_zip_lookup _ _ _).
  - intros i b x Hb Hx.
    destruct (lookup_lt_is_Some_2 (shape r) i) as [s Hsi].
    { apply lookup_lt_Some in Hb. lia. }
    specialize (H i b s x Hb Hsi Hx). simpl. lia.
  - intros i x e Hx He. unfold end_of in He.
    apply lookup_zip_with_Some in He as (b & s & -> & Hb & Hs').
    specialize (H i b s x Hb Hs' Hx). simpl. lia.
Qed.

Section Coverage.

Context (total read write : Roi) (n : nat).
Hypothesis total_dims : dims total n.
Hypothesis read_dims : dims read n.
Hypothesis write_dims : dims write n.
Hypothesis read_contains_write : contains_roi read write = Ok true.
Hypothesis write_shape_positive : Forall (λ w, 0 < w) (shape write).

Local Abbreviation level_stride := (level_stride_spec read write).
Local Abbreviation level_offsets :=
  (level_offsets_spec (shape write) level_stride).

(** Every multiple of the write shape inside the shape of the total Roi
    is a block offset of some level. *)
Lemma block_offset_exists (m : Coord) :
  length m = n →
  (∀ i mi w ts, m !! i = Some mi → shape write !! i = Some w →
     shape total !! i = Some ts → 0 ≤ mi ∧ mi * w < ts) →
  ∃ lo, lo ∈ level_offsets ∧
    zip_with Z.add (zip_with Z.mul m (shape write))
      (zip_with Z.sub (offset total) (offset read))
    ∈ block_offsets_at total read level_stride lo.
Proof.
  intros Hm Hax.
  pose proof total_dims as [Ht1 Ht2]. pose proof read_dims as [Hr1 Hr2].
  pose proof write_dims as [Hw1 Hw2].
  pose proof (level_stride_length total read write n total_dims read_dims
                write_dims) as Hs.
  exists (zip_with Z.modulo (zip_with Z.mul m (shape write)) level_stride).
  split.
  - unfold level_offsets_spec. apply elem_of_reverse, elem_of_product.
    apply Forall2_same_length_lookup. split; [solve_length|].
    intros i x l Hx Hl.
    apply lookup_zip_with_Some in Hx as (mw & s & -> & Hmw & Hsi).
    apply lookup_zip_with_Some in Hmw as (mi & w & -> & Hmi & Hw).
    apply lookup_zip_with_Some in Hl as (s' & w' & -> & Hsi' & Hw').
    apply lookup_lt_Some in Hmi as Hi. rewrite Hm in Hi.
    destruct (input_axis total read write n total_dims read_dims write_dims
                read_contains_write write_shape_positive i Hi)
      as (tb & ts & rb & rs & wb & ws & s'' & ? & Hts & ? & ? & ? & Hws & Hs''
          & Hpos & Hrw & _ & [j Hj] & Hs1 & _).
    assert (w = ws) as -> by congruence.
    assert (w' = ws) as -> by congruence.
    assert (s = s'') as -> by congruence.
    assert (s' = s'') as -> by congruence.
    destruct (Hax i mi ws ts Hmi Hws Hts) as [Hmi0 _].
    apply progression_elem; [done|].
    assert (0 < j) by nia.
    exists (mi mod j). split; [apply Z.mod_pos_bound; lia|]. split.
    + rewrite Hj. rewrite Z.mul_mod_distr_r by lia. done.
    + apply Z.mod_pos_bound. nia.
  - unfold block_offsets_at. apply list_elem_of_fmap.
    exists (zip_with Z.mul m (shape write)). split; [done|].
    apply elem_of_product. apply Forall2_same_length_lookup. split.
    { rewrite length_fmap, (length_zip3 _ _ _ n); solve_length. }
    intros i x l Hx Hl.
    apply lookup_zip_with_Some in Hx as (mi & w & -> & Hmi & Hw).
    rewrite list_lookup_fmap in Hl. unfold zip3 in Hl.
    rewrite !lookup_zip_with, Hmi, Hw in Hl. simpl in Hl.
    destruct (level_stride !! i) as [s|] eqn:Hsi; [|done].
    destruct (shape total !! i) as [ts|] eqn:Hts; [|done].
    simpl in Hl. injection Hl as <-.
    apply lookup_lt_Some in Hmi as Hi. rewrite Hm in Hi.
    destruct (input_axis total read write n total_dims read_dims write_dims
                read_contains_write write_shape_positive i Hi)
      as (tb & ts' & rb & rs & wb & ws & s'' & ? & Hts' & ? & ? & ? & Hws
          & Hs'' & Hpos & Hrw & _ & [j Hj] & Hs1 & _).
    assert (w = ws) as -> by congruence.
    assert (s = s'') as -> by congruence.
    assert (ts = ts') as -> by congruence.
    destruct (Hax i mi ws ts' Hmi Hws Hts') as [Hmi0 Hlt]. subst s''.
    assert (0 < j) by nia.
    apply elem_of_range_list; [nia|].
    exists (mi * ws / (j * ws)). split; [apply Z.div_pos; nia|].
    split; [|done].
    pose proof (Z.div_mod (mi * ws) (j * ws) ltac:(nia)). lia.
Qed.

(** An included block of some level is in the graph. *)
Lemma graph_complete (fit : Fit) (read_write_conflict : bool)
    (lo q : Coord) :
  lo ∈ level_offsets →
  q ∈ block_offsets_at total read level_stride lo →
  included fit total (block_at total read write q) = true →
  ∃ ub, (fitted fit total (block_at total read write q), ub)
        ∈ concat (levels_at fit read_write_conflict total read write).
Proof.
  intros Hlo Hq Hinc. apply list_elem_of_lookup in Hlo as [L HL].
  destruct (lookup_lt_is_Some_2
              (zip_with (conflicts_of read_write_conflict level_stride)
                 (None :: (Some <$> level_offsets)) level_offsets) L)
    as [cos Hcos].
  { apply lookup_lt_Some in HL.
    rewrite length_zip_with, length_cons, length_fmap. lia. }
  exists (omap (conflict_at fit total
                  (checked fit total (block_at total read write q))) cos).
  apply elem_of_concat.
  exists (level_at fit total read write level_stride lo cos). split.
  - apply list_elem_of_lookup. exists L. unfold levels_at.
    apply lookup_zip_with_Some. by exists lo, cos.
  - unfold level_at. apply list_elem_of_omap. exists q. split; [done|].
    unfold entry_at. by rewrite Hinc.
Qed.

(** The block offset whose write Roi holds the point [p], for a point
    right of the left context and inside the total Roi. *)
Lemma covering_offset (p : Coord) :
  length p = n →
  (∀ i x tb ts rb wb,
     p !! i = Some x → offset total !! i = Some tb →
     shape total !! i = Some ts → offset read !! i = Some rb →
     offset write !! i = Some wb →
     tb + (wb - rb) ≤ x < tb + ts) →
  ∃ lo q,
    lo ∈ level_offsets ∧ q ∈ block_offsets_at total read level_stride lo ∧
    length q = n ∧
    ∀ i x y tb rb wb ws,
      p !! i = Some x → q !! i = Some y → offset total !! i = Some tb →
      offset read !! i = Some rb → offset write !! i = Some wb →
      shape write !! i = Some ws →
      tb ≤ rb + y ∧ wb + y ≤ x < wb + y + ws.
Proof.
  intros Hp Hax.
  pose proof total_dims as [Ht1 Ht2]. pose proof read_dims as [Hr1 Hr2].
  pose proof write_dims as [Hw1 Hw2].
  set (m := zip_with Z.div
              (zip_with Z.sub p
                 (zip_with Z.add (offset total)
                    (zip_with Z.sub (offset write) (offset read))))
              (shape write)).
  assert (length m = n) as Hm by (unfold m; solve_length).
  assert (∀ i mi, m !! i = Some mi →
            ∃ x tb ts rb wb ws,
              p !! i = Some x ∧ offset total !! i = Some tb ∧
              shape total !! i = Some ts ∧ offset read !! i = Some rb ∧
              offset write !! i = Some wb ∧ shape write !! i = Some ws ∧
              0 < ws ∧ rb ≤ wb ∧ tb + (wb - rb) ≤ x < tb + ts ∧
              mi = (x - (tb + (wb - rb))) / ws) as Hmi.
  { intros i mi Hmi. apply lookup_lt_Some in Hmi as Hi. rewrite Hm in Hi.
    destruct (input_axis total read write n total_dims read_dims write_dims
                read_contains_write write_shape_positive i Hi)
      as (tb & ts & rb & rs & wb & ws & s & Htb & Hts & Hrb & Hrs & Hwb & Hws
          & Hs & Hpos & Hle & _).
    destruct (lookup_lt_is_Some_2 p i) as [x Hx]; [lia|].
    exists x, tb, ts, rb, wb, ws. repeat split; try done.
    1,2: by eapply Hax.
    unfold m in Hmi. rewrite !lookup_zip_with, Hx, Htb, Hwb, Hrb, Hws in Hmi.
    simpl in Hmi. by injection Hmi as <-. }
  destruct (block_offset_exists m Hm) as (lo & Hlo & Hq).
  { intros i mi w ts Hi Hw Hts.
    destruct (Hmi i mi Hi)
      as (x & tb & ts' & rb & wb & ws & Hx & Htb & Hts' & Hrb & Hwb
          & Hws & Hpos & Hle & Hb & ->).
    assert (w = ws) as -> by congruence.
    assert (ts = ts') as -> by congruence.
    set (w := ws) in *.
    pose proof (Z.div_mod (x - (tb + (wb - rb))) w ltac:(lia)).
    pose proof (Z.mod_pos_bound (x - (tb + (wb - rb))) w ltac:(lia)).
    split; [apply Z.div_pos; lia|]. nia. }
  exists lo, (zip_with Z.add (zip_with Z.mul m (shape write))
                (zip_with Z.sub (offset total) (offset read))).
  split; [done|]. split; [done|]. split; [solve_length|].
  intros i x y tb rb wb ws Hx Hy Htb Hrb Hwb Hws.
  apply lookup_zip_with_Some in Hy as (mw & d & -> & Hmw & Hd).
  apply lookup_zip_with_Some in Hmw as (mi & w & -> & Hi & Hw).
  apply lookup_zip_with_Some in Hd as (tb' & rb' & -> & Htb' & Hrb').
  destruct (Hmi i mi Hi)
    as (x' & tb'' & ts & rb'' & wb' & ws' & Hx' & Htb'' & Hts & Hrb''
        & Hwb' & Hws' & Hpos & Hle & Hb & ->).
  assert (x' = x) as -> by congruence.
  assert (tb'' = tb) as -> by congruence.
  assert (tb' = tb) as -> by congruence.
  assert (rb'' = rb) as -> by congruence.
  assert (rb' = rb) as -> by congruence.
  assert (wb' = wb) as -> by congruence.
  assert (ws' = ws) as -> by congruence.
  assert (w = ws) as -> by congruence.
  set (x' := x) in *. set (tb' := tb) in *. set (rb' := rb) in *.
  set (wb' := wb) in *. set (w := ws) in *.
  pose proof (Z.div_mod (x' - (tb' + (wb' - rb'))) w ltac:(lia)).
  pose proof (Z.mod_pos_bound (x' - (tb' + (wb' - rb'))) w ltac:(lia)).
  assert (0 ≤ (x' - (tb' + (wb' - rb'))) / w) by (apply Z.div_pos; lia).
  nia.
Qed.

End Coverage.

Lemma forallb_intro_lookup {A} (f : A → bool) (l : list A) :
  (∀ i x, l !! i = Some x → f x = true) → forallb f l = true.
Proof.
  intros H. apply forallb_forall. intros x Hx.
  apply list_elem_of_In, list_elem_of_lookup in Hx as [i Hi]. by eapply H.
Qed.

(** The write Roi of a shrunk block on one axis. *)
Lemma shrink_write_axis (total read write : Roi) (q : Coord) (i : nat)
    (tb ts rb rs wb ws y o s : Z) :
  offset total !! i = Some tb → shape total !! i = Some ts →
  offset read !! i = Some rb → shape read !! i = Some rs →
  offset write !! i = Some wb → shape write !! i = Some ws →
  q !! i = Some y →
  offset (write_roi (shrink_dims total (block_at total read write q))) !! i
    = Some o →
  shape (write_roi (shrink_dims total (block_at total read write q))) !! i
    = Some s →
  tb ≤ rb + y → rb + y < tb + ts → 0 < rs →
  o = wb + y ∧ s = ws + Z.min 0 (tb + ts - (rb + y + rs)).
Proof.
  intros Htb Hts Hrb Hrs Hwb Hws Hy Ho Hs.
  destruct total as [tbs tss], read as [rbs rss], write as [wbs wss].
  unfold shrink_dims, block_at, new_Block, grow_dims, intersect_dims,
    translate_dims, end_of in Ho, Hs.
  simpl in *.
  intros H1 H2 H3.
  repeat (rewrite ?lookup_zip_with, ?list_lookup_fmap in Ho).
  repeat (rewrite ?lookup_zip_with, ?list_lookup_fmap in Hs).
  do 4 (rewrite ?Htb, ?Hts, ?Hrb, ?Hrs, ?Hwb, ?Hws, ?Hy in Ho; simpl in Ho).
  do 6 (rewrite ?Htb, ?Hts, ?Hrb, ?Hrs, ?Hwb, ?Hws, ?Hy in Hs; simpl in Hs).
  simpl in Ho, Hs. injection Ho as <-. injection Hs as <-. lia.
Qed.

(** X16. On a valid input and for fit [overhang], every point of the total
    Roi that is not in the left context of the total Roi lies in the write
    Roi of a block of the graph. *)
Theorem overhang_write_rois_cover (total read write : Roi) (n : nat)
    (read_write_conflict : bool) :
  dims total n → dims read n → dims write n →
  contains_roi read write = Ok true →
  Forall (λ w, 0 < w) (shape write) →
  ∃ graph,
    create_dependency_graph total read write read_write_conflict Overhang
      = Ok graph ∧
    ∀ p,
      length p = n →
      (∀ i x tb ts rb wb,
         p !! i = Some x → offset total !! i = Some tb →
         shape total !! i = Some ts → offset read !! i = Some rb →
         offset write !! i = Some wb →
         tb + (wb - rb) ≤ x < tb + ts) →
      ∃ b ub, (b, ub) ∈ graph ∧ contains_point (write_roi b) p = Ok true.
Proof.
  intros Ht Hr Hw Hc Hpos.
  exists (concat (levels_at Overhang read_write_conflict total read write)).
  split; [by apply (create_dependency_graph_Ok _ _ _ n)|].
  intros p Hp Hax.
  destruct (covering_offset total read write n Ht Hr Hw Hc Hpos p Hp Hax)
    as (lo & q & Hlo & Hq & Hqn & Hcov).
  pose proof Ht as [Ht1 Ht2]. pose proof Hr as [Hr1 Hr2].
  pose proof Hw as [Hw1 Hw2].
  assert (∀ i b s x,
            offset (write_roi (block_at total read write q)) !! i = Some b →
            shape (write_roi (block_at total read write q)) !! i = Some s →
            p !! i = Some x →
            ∃ tb ts, offset total !! i = Some tb ∧ shape total !! i = Some ts ∧
                     tb ≤ b ∧ b ≤ x < b + s ∧ x < tb + ts) as Haxis.
  { intros i b s x Hb Hs Hx. apply lookup_lt_Some in Hx as Hi.
    rewrite Hp in Hi.
    destruct (input_axis total read write n Ht Hr Hw Hc Hpos i Hi)
      as (tb & ts & rb & rs & wb & ws & s' & Htb & Hts & Hrb & Hrs & Hwb
          & Hws & _ & _ & Hle & _).
    unfold block_at in Hb, Hs. simpl in Hb, Hs.
    apply lookup_zip_with_Some in Hb as (wb' & y & -> & Hwb' & Hy).
    assert (wb' = wb) as -> by congruence.
    assert (s = ws) as -> by congruence.
    destruct (Hcov i x y tb rb wb ws Hx Hy Htb Hrb Hwb Hws) as [? ?].
    destruct (Hax i x tb ts rb wb Hx Htb Hts Hrb Hwb).
    exists tb, ts. repeat split; try done; try lia. }
  pose proof (block_at_dims total read write q n Hr Hw Hqn) as [Hbr Hbw].
  assert (included Overhang total (block_at total read write q) = true)
    as Hinc.
  { simpl. apply (point_in_intro _ _ n); [done|by destruct Hbw|].
    intros i tb ts b Htb Hts Hb.
    destruct (lookup_lt_is_Some_2 (shape (write_roi (block_at total read
                write q))) i) as [s Hs].
    { apply lookup_lt_Some in Hb. destruct Hbw. solve_length. }
    destruct (lookup_lt_is_Some_2 p i) as [x Hx].
    { apply lookup_lt_Some in Htb. solve_length. }
    destruct (Haxis i b s x Hb Hs Hx) as (tb' & ts' & ? & ? & ? & ? & ?).
    assert (tb' = tb) as -> by congruence.
    assert (ts' = ts) as -> by congruence. lia. }
  destruct (graph_complete total read write Overhang read_write_conflict
              lo q Hlo Hq Hinc) as [ub Hub].
  exists (block_at total read write q), ub. split; [done|].
  rewrite (contains_point_dims _ _ n) by done. f_equal.
  apply (point_in_intro _ _ n); [done..|].
  intros i b s x Hb Hs Hx.
  by destruct (Haxis i b s x Hb Hs Hx) as (tb' & ts' & ? & ? & ? & ? & ?).
Qed.

Lemma overhang_write_rois_cover_witness :
  let total := mkRoi [0] [100] in
  let read := mkRoi [0] [30] in
  let write := mkRoi [10] [10] in
  dims total 1 ∧ dims read 1 ∧ dims write 1 ∧
  contains_roi read write = Ok true ∧
  Forall (λ w, 0 < w) (shape write) ∧
  ∃ graph,
    create_dependency_graph total read write true Overhang = Ok graph ∧
    ∀ p,
      length p = 1%nat →
      (∀ i x tb ts rb wb,
         p !! i = Some x → offset total !! i = Some tb →
         shape total !! i = Some ts → offset read !! i = Some rb →
         offset write !! i = Some wb →
         tb + (wb - rb) ≤ x < tb + ts) →
      ∃ b ub, (b, ub) ∈ graph ∧ contains_point (write_roi b) p = Ok true.
Proof.
  intros total read write.
  assert (dims total 1) as Ht by done.
  assert (dims read 1) as Hr by done.
  assert (dims write 1) as Hw by done.
  assert (Forall (λ w, 0 < w) (shape write)) as Hp
    by (by repeat constructor).
  repeat (split; [done|]).
  exact (overhang_write_rois_cover total read write 1 true
           Ht Hr Hw eq_refl Hp).
Defined.

(** X17. On a valid input and for fit [shrink], every point of the total
    Roi that is in neither context of the total Roi lies in the write Roi
    of a block of the graph. *)
Theorem shrink_write_rois_cover (total read write : Roi) (n : nat)
    (read_write_conflict : bool) :
  dims total n → dims read n → dims write n →
  contains_roi read write = Ok true →
  Forall (λ w, 0 < w) (shape write) →
  ∃ graph,
    create_dependency_graph total read write read_write_conflict Shrink
      = Ok graph ∧
    ∀ p,
      length p = n →
      (∀ i x tb ts rb rs wb ws,
         p !! i = Some x → offset total !! i = Some tb →
         shape total !! i = Some ts → offset read !! i = Some rb →
         shape read !! i = Some rs → offset write !! i = Some wb →
         shape write !! i = Some ws →
         tb + (wb - rb) ≤ x < tb + ts - (rb + rs - (wb + ws))) →
      ∃ b ub, (b, ub) ∈ graph ∧ contains_point (write_roi b) p = Ok true.
Proof.
  intros Ht Hr Hw Hc Hpos.
  exists (concat (levels_at Shrink read_write_conflict total read write)).
  split; [by apply (create_dependency_graph_Ok _ _ _ n)|].
  intros p Hp Hax.
  pose proof Ht as [Ht1 Ht2]. pose proof Hr as [Hr1 Hr2].
  pose proof Hw as [Hw1 Hw2].
  destruct (covering_offset total read write n Ht Hr Hw Hc Hpos p Hp)
    as (lo & q & Hlo & Hq & Hqn & Hcov).
  { intros i x tb ts rb wb Hx Htb Hts Hrb Hwb.
    apply lookup_lt_Some in Hx as Hi. rewrite Hp in Hi.
    destruct (input_axis total read write n Ht Hr Hw Hc Hpos i Hi)
      as (tb' & ts' & rb' & rs & wb' & ws & s' & Htb' & Hts' & Hrb' & Hrs
          & Hwb' & Hws & _ & _ & Hle & Hle' & _).
    assert (tb' = tb) as -> by congruence.
    assert (ts' = ts) as -> by congruence.
    assert (rb' = rb) as -> by congruence.
    assert (wb' = wb) as -> by congruence.
    pose proof (Hax i x tb ts rb rs wb ws Hx Htb Hts Hrb Hrs Hwb Hws). lia. }
  pose proof (block_at_dims total read write q n Hr Hw Hqn) as Hbd.
  pose proof (shrink_dims_dims total _ n Ht Hbd) as [Hsr [Hsw1 Hsw2]].
  destruct Hbd as [Hbr [Hbw1 Hbw2]].
  set (b0 := block_at total read write q) in *.
  assert (∀ i b s x,
            offset (write_roi (shrink_dims total b0)) !! i = Some b →
            shape (write_roi (shrink_dims total b0)) !! i = Some s →
            p !! i = Some x →
            ∃ tb ts, offset total !! i = Some tb ∧ shape total !! i = Some ts ∧
                     offset (write_roi b0) !! i = Some b ∧
                     tb ≤ b ∧ b ≤ x < b + s ∧ x < tb + ts) as Haxis.
  { intros i b s x Hb Hs Hx. apply lookup_lt_Some in Hx as Hi.
    rewrite Hp in Hi.
    destruct (input_axis total read write n Ht Hr Hw Hc Hpos i Hi)
      as (tb & ts & rb & rs & wb & ws & s' & Htb & Hts & Hrb & Hrs & Hwb
          & Hws & _ & Hwpos & Hle & Hle' & _).
    destruct (lookup_lt_is_Some_2 q i) as [y Hy]; [lia|].
    destruct (Hcov i x y tb rb wb ws Hx Hy Htb Hrb Hwb Hws) as [? ?].
    pose proof (Hax i x tb ts rb rs wb ws Hx Htb Hts Hrb Hrs Hwb Hws).
    destruct (shrink_write_axis total read write q i tb ts rb rs wb ws y b s
                Htb Hts Hrb Hrs Hwb Hws Hy Hb Hs) as [-> ->]; [lia..|].
    exists tb, ts. repeat split; try done; try lia.
    unfold b0, block_at. simpl. by rewrite lookup_zip_with, Hwb, Hy. }
  assert (included Shrink total b0 = true) as Hinc.
  { simpl. apply andb_true_iff. split.
    - apply (point_in_intro _ _ n); [done|done|].
      intros i tb ts b Htb Hts Hb.
      destruct (lookup_lt_is_Some_2
                  (offset (write_roi (shrink_dims total b0))) i) as [b' Hb'].
      { apply lookup_lt_Some in Hb. solve_length. }
      destruct (lookup_lt_is_Some_2
                  (shape (write_roi (shrink_dims total b0))) i) as [s Hs].
      { apply lookup_lt_Some in Hb. solve_length. }
      destruct (lookup_lt_is_Some_2 p i) as [x Hx].
      { apply lookup_lt_Some in Htb. solve_length. }
      destruct (Haxis i b' s x Hb' Hs Hx)
        as (tb' & ts' & ? & ? & ? & ? & ? & ?).
      assert (tb' = tb) as -> by congruence.
      assert (ts' = ts) as -> by congruence.
      change (offset (write_roi b0) !! i = Some b) in Hb.
      assert (b' = b) as -> by congruence. lia.
    - apply forallb_intro_lookup. intros i s Hs.
      destruct (lookup_lt_is_Some_2
                  (offset (write_roi (shrink_dims total b0))) i) as [b' Hb'].
      { apply lookup_lt_Some in Hs. solve_length. }
      destruct (lookup_lt_is_Some_2 p i) as [x Hx].
      { apply lookup_lt_Some in Hs. solve_length. }
      destruct (Haxis i b' s x Hb' Hs Hx)
        as (tb' & ts' & ? & ? & ? & ? & ? & ?).
      apply Z.ltb_lt. lia. }
  destruct (graph_complete total read write Shrink read_write_conflict
              lo q Hlo Hq Hinc) as [ub Hub].
  exists (shrink_dims total b0), ub. split; [done|].
  rewrite (contains_point_dims _ _ n) by done. f_equal.
  apply (point_in_intro _ _ n); [done..|].
  intros i b s x Hb Hs Hx.
  by destruct (Haxis i b s x Hb Hs Hx) as (tb' & ts' & ? & ? & ? & ? & ? & ?).
Qed.

Lemma shrink_write_rois_cover_witness :
  let total := mkRoi [0] [95] in
  let read := mkRoi [0] [30] in
  let write := mkRoi [10] [10] in
  dims total 1 ∧ dims read 1 ∧ dims write 1 ∧
  contains_roi read write = Ok true ∧
  Forall (λ w, 0 < w) (shape write) ∧
  ∃ graph,
    create_dependency_graph total read write true Shrink = Ok graph ∧
    ∀ p,
      length p = 1%nat →
      (∀ i x tb ts rb rs wb ws,
         p !! i = Some x → offset total !! i = Some tb →
         shape total !! i = Some ts → offset read !! i = Some rb →
         shape read !! i = Some rs → offset write !! i = Some wb →
         shape write !! i = Some ws →
         tb + (wb - rb) ≤ x < tb + ts - (rb + rs - (wb + ws))) →
      ∃ b ub, (b, ub) ∈ graph ∧ contains_point (write_roi b) p = Ok true.
Proof.
  intros total read write.
  assert (dims total 1) as Ht by done.
  assert (dims read 1) as Hr by done.
  assert (dims write 1) as Hw by done.
  assert (Forall (λ w, 0 < w) (shape write)) as Hp
    by (by repeat constructor).
  repeat (split; [done|]).
  exact (shrink_write_rois_cover total read write 1 true
           Ht Hr Hw eq_refl Hp).
Defined.

(** ** The executor without a check function *)

(** X18. With no check function, [check_and_run] calls the process function
    for every block: the result is 1 when it returns and -2 when it
    raises, never 0 or -1, and the state is the one the process function
    left. *)
Theorem check_and_run_without_check {W : Type} (block : Block)
    (process_function : @process_fn W) (w : W) :
  check_and_run block process_function
    (select_checks NoCheck).1 (select_checks NoCheck).2 w
  = (Ok (match (process_function block w).1 with
         | Ok _ => 1
         | Raise _ => -2
         end),
     (process_function block w).2).
Proof.
  unfold check_and_run, select_checks. simpl.
  by destruct (process_function block w) as [[u|e] w'].
Qed.

(** ** The return value of [run_blockwise] *)

